(** * PropertyCalc: amortization engine and investment projector

    Shallow embedding of [PropertyCalc.py] and [testpropertyCalc.py].

    Numbers.  The Python code computes on floats; here every float is an
    exact rational ([Q], compared with [==]), so the theorems below are
    statements about the program in exact arithmetic.  Python ints (loan
    term, payment frequency, investment period, loop counters, slice
    bounds) are [Z].  Where rounding decides a property, the amortization
    engine is also given on binary64 floats ([Module Binary64]) and
    evaluated there.

    Errors.  Python exceptions are values of [PyError]; a function that
    can raise returns a [Result]. *)

From Stdlib Require Import ZArith QArith Qpower Qfield List Lia Lqa Bool.
From Stdlib Require PrimFloat.
Import ListNotations.

Local Open Scope Q_scope.

(** ** Python exceptions *)

Inductive PyError : Type :=
| ZeroDivisionError
| ValueError
| OverflowError.

Inductive Result (A : Type) : Type :=
| Ok (a : A)
| Raise (e : PyError).

Arguments Ok {A} a.
Arguments Raise {A} e.

Definition bind {A B : Type} (m : Result A) (k : A -> Result B) : Result B :=
  match m with
  | Ok a => k a
  | Raise e => Raise e
  end.

Notation "x <- m ;; k" := (bind m (fun x => k))
  (at level 61, m at next level, right associativity).

Definition raises {A : Type} (m : Result A) : Prop :=
  exists e, m = Raise e.

Definition returns {A : Type} (m : Result A) : Prop :=
  exists a, m = Ok a.

(** ** Python and numpy primitives *)

(** Decidable tests on rationals, as booleans. *)
Definition Qltb (x y : Q) : bool := if Qlt_le_dec x y then true else false.
Definition Qeqb (x y : Q) : bool := Qeq_bool x y.

(** [x / y] on Python floats: raises on a zero divisor. *)
Definition py_div (x y : Q) : Result Q :=
  if Qeqb y 0 then Raise ZeroDivisionError else Ok (x / y).

(** [x ** n] for a Python float [x] and a Python int [n]: a zero base with
    a negative exponent raises. Exact rationals do not overflow, so the
    [OverflowError] Python raises when a binary64 power overflows has no
    counterpart here (it has one in [Binary64.py_pow]). *)
Definition py_pow (x : Q) (n : Z) : Result Q :=
  if Qeqb x 0 && (n <? 0)%Z then Raise ZeroDivisionError else Ok (x ^ n).

(** [a // b] and [a % b] on Python ints (floor division, the remainder has
    the sign of the divisor: the conventions of [Z.div] and [Z.modulo]). *)
Definition py_floordiv (a b : Z) : Result Z :=
  if (b =? 0)%Z then Raise ZeroDivisionError else Ok (a / b)%Z.

Definition py_mod (a b : Z) : Result Z :=
  if (b =? 0)%Z then Raise ZeroDivisionError else Ok (a mod b)%Z.

(** [range(n)]: the ints [0 .. n-1], empty when [n <= 0]. *)
Definition range (n : Z) : list Z := map Z.of_nat (seq 0 (Z.to_nat n)).

(** [np.arange(lo, hi)]. *)
Definition np_arange (lo hi : Z) : list Z :=
  map (fun k => (lo + Z.of_nat k)%Z) (seq 0 (Z.to_nat (hi - lo))).

(** [np.zeros(n)]: numpy refuses a negative dimension. *)
Definition np_zeros (n : Z) : Result (list Q) :=
  if (n <? 0)%Z then Raise ValueError else Ok (repeat 0 (Z.to_nat n)).

(** [np.sum]. *)
Definition np_sum (l : list Q) : Q := fold_left Qplus l 0.

(** A slice bound, normalised as Python does: a negative bound counts from
    the end, and everything is clipped to [0 .. len]. *)
Definition slice_bound (len x : Z) : Z :=
  if (x <? 0)%Z then Z.max (x + len) 0 else Z.min x len.

(** [l[s:e]]. *)
Definition py_slice {A : Type} (l : list A) (s e : Z) : list A :=
  let len := Z.of_nat (length l) in
  let s' := slice_bound len s in
  let e' := slice_bound len e in
  firstn (Z.to_nat (e' - s')) (skipn (Z.to_nat s') l).

(** [a[i] = v] on an array. *)
Fixpoint set_item (l : list Q) (i : nat) (v : Q) : list Q :=
  match l, i with
  | [], _ => []
  | _ :: t, O => v :: t
  | h :: t, S i' => h :: set_item t i' v
  end.

(** Elementwise binary operation on two arrays. The arrays combined in the
    projectors always have the same length, so numpy never has to
    broadcast or refuse them. *)
Fixpoint zip_with (f : Q -> Q -> Q) (a b : list Q) : list Q :=
  match a, b with
  | x :: a', y :: b' => f x y :: zip_with f a' b'
  | _, _ => []
  end.

(** [np.diff(a)], that is [a[1:] - a[:-1]]. *)
Fixpoint np_diff (a : list Q) : list Q :=
  match a with
  | x :: (y :: _) as t => (y - x) :: np_diff t
  | _ => []
  end.

(** ** Amortization engine (identical in both source files) *)

(** [calculate_mortgage_payment]. *)
Definition calculate_mortgage_payment
    (principal annual_rate : Q) (years payments_per_year : Z) : Result Q :=
  r <- py_div annual_rate (inject_Z payments_per_year) ;;
  let n := (years * payments_per_year)%Z in
  pw <- py_pow (1 + r) n ;;
  pw' <- py_pow (1 + r) n ;;
  py_div (principal * (r * pw)) (pw' - 1).

(** The variables of [generate_amortization_schedule]. *)
Record Schedule : Type := mkSchedule {
  balance : Q;
  payment_list : list Q;
  interest_list : list Q;
  principal_list : list Q
}.

Section AmortizationLoop.

Variables (annual_rate : Q) (payments_per_year : Z) (payment_amount : Q).

(** One pass through the body of the [for] loop; the boolean tells
    whether the pass ended in [break].  The division is only evaluated
    inside the loop, where [payments_per_year] is not zero (see
    [loop_runs_frequency_nonzero]). *)
Definition loop_body (s : Schedule) : Schedule * bool :=
  let interest_payment := balance s * (annual_rate / inject_Z payments_per_year) in
  let principal_payment := payment_amount - interest_payment in
  let balance1 := balance s - principal_payment in
  if Qltb balance1 0 then
    let principal_payment1 := principal_payment + balance1 in
    (mkSchedule 0
       (payment_list s ++ [principal_payment1 + interest_payment])
       (interest_list s ++ [interest_payment])
       (principal_list s ++ [principal_payment1]),
     true)
  else
    (mkSchedule balance1
       (payment_list s ++ [payment_amount])
       (interest_list s ++ [interest_payment])
       (principal_list s ++ [principal_payment]),
     false).

(** [for _ in range(k)]: at most [k] passes, stopping at a [break]. *)
Fixpoint for_range (k : nat) (s : Schedule) : Schedule :=
  match k with
  | O => s
  | S k' =>
      let (s', brk) := loop_body s in
      if brk then s' else for_range k' s'
  end.

End AmortizationLoop.

(** The state of [generate_amortization_schedule] when its loop is over. *)
Definition amortization_final
    (principal annual_rate : Q) (years payments_per_year : Z)
    (payment_amount : Q) : Schedule :=
  for_range annual_rate payments_per_year payment_amount
    (Z.to_nat (years * payments_per_year))
    (mkSchedule principal [] [] []).

(** [generate_amortization_schedule]: the three arrays it returns. *)
Definition generate_amortization_schedule
    (principal annual_rate : Q) (years payments_per_year : Z)
    (payment_amount : Q) : list Q * list Q * list Q :=
  let s := amortization_final principal annual_rate years payments_per_year
             payment_amount in
  (payment_list s, interest_list s, principal_list s).

(** ** The parameter dictionary *)

(** The [params] dict both projectors read. [loan_term] and
    [payment_frequency] are ints (they are used as [range] and slice
    bounds); the other entries are floats. *)
Record Params : Type := mkParams {
  property_value : Q;
  loan_amount : Q;
  interest_rate : Q;
  loan_term : Z;
  payment_frequency : Z;
  annual_salary : Q;
  marginal_tax_rate : Q;
  weekly_rental_income : Q;
  annual_rental_increase : Q;
  annual_expense_increase : Q;
  property_appreciation : Q;
  council_rates : Q;
  water_rates : Q;
  land_tax : Q;
  strata_fees : Q;
  insurance : Q;
  property_manager_rate : Q;
  repairs_and_maintenance : Q;
  depreciation : Q
}.

(** ** numpy arithmetic on arrays *)

(** [b ** exps] for a float [b] and an int array [exps]. Every exponent
    array of the projectors is an [np.arange] from 0 or 1, so no exponent
    is negative. *)
Definition np_power (b : Q) (exps : list Z) : list Q := map (Qpower b) exps.

(** [c * a], [a + c], [-a * c] and [a op b] for a float [c] and arrays. *)
Definition np_scale (c : Q) (a : list Q) : list Q := map (Qmult c) a.
Definition np_add_scalar (a : list Q) (c : Q) : list Q := map (fun x => x + c) a.
Definition np_neg_times (a : list Q) (c : Q) : list Q := map (fun x => (- x) * c) a.
Definition np_add (a b : list Q) : list Q := zip_with Qplus a b.
Definition np_sub (a b : list Q) : list Q := zip_with Qminus a b.

(** The list comprehension both projectors use for the rental income:
    [weekly_rental_income * 52 * ((1 + annual_rental_increase) ** i)] for
    [i] in [range(n)]. The exponent is never negative, so [**] cannot
    raise here. *)
Definition rental_income_array (p : Params) (n : Z) : list Q :=
  map (fun i => weekly_rental_income p * 52 * ((1 + annual_rental_increase p) ^ i))
      (range n).

(** ** The simple projector, [PropertyCalc.py] *)

Module PropertyCalc.

(** The DataFrame, one field per column. *)
Record Outlook : Type := mkOutlook {
  Year : list Z;
  Rental_Income : list Q;
  Interest_Payment : list Q;
  Principal_Payment : list Q;
  Total_Expenses_Depreciation : list Q;
  Net_Rental_Loss : list Q;
  Tax_Benefit : list Q;
  Cashflow_after_Negative_Gearing : list Q;
  Capital_Gains : list Q;
  Final_Net_Gain_Loss : list Q
}.

Definition calculate_investment_outlook (params : Params) : Result Outlook :=
  let payment_frequency := payment_frequency params in
  let loan_term := loan_term params in
  let annual_expense_increase := annual_expense_increase params in
  initial_mortgage_payment <-
    calculate_mortgage_payment (loan_amount params) (interest_rate params)
      loan_term payment_frequency ;;
  let '(payments, interests, principals) :=
    generate_amortization_schedule (loan_amount params) (interest_rate params)
      loan_term payment_frequency initial_mortgage_payment in
  let years := np_arange 1 (loan_term + 1) in
  let annual_interest :=
    map (fun i => np_sum (py_slice interests (i * payment_frequency)
                            ((i + 1) * payment_frequency)))
        (range loan_term) in
  let annual_principal :=
    map (fun i => np_sum (py_slice principals (i * payment_frequency)
                            ((i + 1) * payment_frequency)))
        (range loan_term) in
  let annual_rental_income_array := rental_income_array params loan_term in
  let property_manager_fees :=
    np_scale (property_manager_rate params) annual_rental_income_array in
  let total_annual_expenses :=
    np_add_scalar
      (np_add_scalar
         (np_add
            (np_add
               (np_add
                  (np_add_scalar
                     (np_add
                        (np_add annual_interest
                           (np_scale (council_rates params)
                              (np_power (1 + annual_expense_increase) years)))
                        (np_scale (water_rates params)
                           (np_power (1 + annual_expense_increase) years)))
                     (land_tax params))
                  (np_scale (strata_fees params)
                     (np_power (1 + annual_expense_increase) years)))
               (np_scale (insurance params)
                  (np_power (1 + annual_expense_increase) years)))
            property_manager_fees)
         (repairs_and_maintenance params))
      (depreciation params) in
  let net_rental_loss := np_sub annual_rental_income_array total_annual_expenses in
  let tax_benefit := np_neg_times net_rental_loss (marginal_tax_rate params) in
  let net_profit_loss_after_tax := np_add net_rental_loss tax_benefit in
  let property_values :=
    np_scale (property_value params)
      (np_power (1 + property_appreciation params) (np_arange 0 (loan_term + 1))) in
  let capital_gains := np_diff property_values in
  let final_net_gain_loss :=
    np_add net_profit_loss_after_tax (py_slice capital_gains 0 loan_term) in
  Ok (mkOutlook years annual_rental_income_array annual_interest annual_principal
        total_annual_expenses net_rental_loss tax_benefit
        net_profit_loss_after_tax (py_slice capital_gains 0 loan_term)
        final_net_gain_loss).

End PropertyCalc.

(** ** The generalized projector, [testpropertyCalc.py] *)

Module TestPropertyCalc.

Record Outlook : Type := mkOutlook {
  Year : list Z;
  Rental_Income : list Q;
  Interest_Payment : list Q;
  Principal_Payment : list Q;
  Other_Expenses : list Q;
  Total_Cash_Outflows : list Q;
  Net_Cash_Flow_Before_Tax : list Q;
  Taxable_Income : list Q;
  Tax_Benefit : list Q;
  Net_Cash_Flow_After_Tax : list Q;
  Capital_Gains : list Q;
  Final_Net_Gain_Loss : list Q
}.

Section YearLoop.

Variables (interests principals : list Q).
Variables (payment_frequency num_years_payments_made remainder_payments : Z).

(** The [if / elif / else] at the head of the loop body: the slice
    bounds of year [i], or [None] for the [break]. *)
Definition year_bounds (i : Z) : option (Z * Z) :=
  if (i <? num_years_payments_made)%Z then
    Some ((i * payment_frequency)%Z, ((i + 1) * payment_frequency)%Z)
  else if (i =? num_years_payments_made)%Z && (0 <? remainder_payments)%Z then
    let start_idx := (i * payment_frequency)%Z in
    Some (start_idx, (start_idx + remainder_payments)%Z)
  else None.

(** [for i in range(investment_period_years)], run over the list of
    its indices, on the two arrays it fills. *)
Fixpoint year_loop (idx : list Z) (annual_interest annual_principal : list Q)
  : list Q * list Q :=
  match idx with
  | [] => (annual_interest, annual_principal)
  | i :: rest =>
      match year_bounds i with
      | Some (start_idx, end_idx) =>
          year_loop rest
            (set_item annual_interest (Z.to_nat i)
               (np_sum (py_slice interests start_idx end_idx)))
            (set_item annual_principal (Z.to_nat i)
               (np_sum (py_slice principals start_idx end_idx)))
      | None => (annual_interest, annual_principal)
      end
  end.

End YearLoop.

Definition calculate_investment_outlook (params : Params) (investment_period : Z)
  : Result Outlook :=
  let payment_frequency := payment_frequency params in
  let loan_term := loan_term params in
  let annual_expense_increase := annual_expense_increase params in
  let depreciation := depreciation params in
  initial_mortgage_payment <-
    calculate_mortgage_payment (loan_amount params) (interest_rate params)
      loan_term payment_frequency ;;
  let '(payments, interests, principals) :=
    generate_amortization_schedule (loan_amount params) (interest_rate params)
      loan_term payment_frequency initial_mortgage_payment in
  let investment_period_years := investment_period in
  let years := np_arange 1 (investment_period_years + 1) in
  annual_interest0 <- np_zeros investment_period_years ;;
  annual_principal0 <- np_zeros investment_period_years ;;
  let num_payments_made := Z.of_nat (length payments) in
  num_years_payments_made <- py_floordiv num_payments_made payment_frequency ;;
  remainder_payments <- py_mod num_payments_made payment_frequency ;;
  let '(annual_interest, annual_principal) :=
    year_loop interests principals payment_frequency num_years_payments_made
      remainder_payments (range investment_period_years)
      annual_interest0 annual_principal0 in
  let annual_rental_income_array :=
    rental_income_array params investment_period_years in
  let council_rates_array :=
    np_scale (council_rates params) (np_power (1 + annual_expense_increase) years) in
  let water_rates_array :=
    np_scale (water_rates params) (np_power (1 + annual_expense_increase) years) in
  let strata_fees_array :=
    np_scale (strata_fees params) (np_power (1 + annual_expense_increase) years) in
  let insurance_array :=
    np_scale (insurance params) (np_power (1 + annual_expense_increase) years) in
  let property_manager_fees :=
    np_scale (property_manager_rate params) annual_rental_income_array in
  let other_expenses :=
    np_add_scalar
      (np_add
         (np_add
            (np_add
               (np_add_scalar
                  (np_add council_rates_array water_rates_array)
                  (land_tax params))
               strata_fees_array)
            insurance_array)
         property_manager_fees)
      (repairs_and_maintenance params) in
  let total_cash_outflows :=
    np_add (np_add annual_interest annual_principal) other_expenses in
  let net_cash_flow_before_tax :=
    np_sub annual_rental_income_array total_cash_outflows in
  let taxable_income :=
    np_sub annual_rental_income_array
      (np_add_scalar (np_add annual_interest other_expenses) depreciation) in
  let tax_benefit := np_neg_times taxable_income (marginal_tax_rate params) in
  let net_cash_flow_after_tax := np_add net_cash_flow_before_tax tax_benefit in
  let property_values :=
    np_scale (property_value params)
      (np_power (1 + property_appreciation params)
         (np_arange 0 (investment_period_years + 1))) in
  let capital_gains := np_diff property_values in
  let final_net_gain_loss :=
    np_add net_cash_flow_after_tax
      (py_slice capital_gains 0 investment_period_years) in
  Ok (mkOutlook years annual_rental_income_array annual_interest annual_principal
        other_expenses total_cash_outflows net_cash_flow_before_tax
        taxable_income tax_benefit net_cash_flow_after_tax
        (py_slice capital_gains 0 investment_period_years)
        final_net_gain_loss).

End TestPropertyCalc.

(** ** The amortization engine on binary64 floats *)

(** The same two functions, with Python's floats as Rocq's primitive
    floats: IEEE 754 binary64, round to nearest even, which is the
    arithmetic of [+], [-], [*] and [/] on Python floats. *)
Module Binary64.

Import PrimFloat.
Local Open Scope float_scope.

(** A Python int as the float Python converts it to; exact for ints up to
    [2^53] in absolute value. *)
Fixpoint of_pos (p : positive) : PrimFloat.float :=
  match p with
  | xH => 1
  | xO q => 2 * of_pos q
  | xI q => 2 * of_pos q + 1
  end.

Definition of_int (z : Z) : PrimFloat.float :=
  match z with
  | Z0 => 0
  | Zpos p => of_pos p
  | Zneg p => - of_pos p
  end.

(** [x / y] on Python floats: raises on a zero divisor ([0.0] or [-0.0]). *)
Definition py_div (x y : PrimFloat.float) : Result PrimFloat.float :=
  if (y =? 0) then Raise ZeroDivisionError else Ok (x / y).

(** [x ** n] for a Python float [x] and a Python int [n]. Python calls C's
    [pow], whose last bit no standard fixes. Here the power is formed by
    repeated multiplication (repeated division for a negative exponent),
    which is the value of [pow] for the exponents 0 and 1 and whenever
    every partial product is a binary64 number, as for the powers of two.
    The evaluations of this file stay within those cases. A zero base with
    a negative exponent raises, and so does a power that overflows. *)
Definition py_pow (x : PrimFloat.float) (n : Z) : Result PrimFloat.float :=
  match n with
  | Z0 => Ok 1
  | Zpos p =>
      let v := Pos.iter (fun a => a * x) 1 p in
      if PrimFloat.is_infinity v && PrimFloat.is_finite x
      then Raise OverflowError else Ok v
  | Zneg p =>
      if (x =? 0) then Raise ZeroDivisionError
      else
        let v := Pos.iter (fun a => a / x) 1 p in
        if PrimFloat.is_infinity v && PrimFloat.is_finite x
        then Raise OverflowError else Ok v
  end.

(** [calculate_mortgage_payment]. *)
Definition calculate_mortgage_payment
    (principal annual_rate : PrimFloat.float) (years payments_per_year : Z)
  : Result PrimFloat.float :=
  r <- py_div annual_rate (of_int payments_per_year) ;;
  let n := (years * payments_per_year)%Z in
  pw <- py_pow (1 + r) n ;;
  pw' <- py_pow (1 + r) n ;;
  py_div (principal * (r * pw)) (pw' - 1).

(** The variables of [generate_amortization_schedule]. *)
Record Schedule : Type := mkSchedule {
  balance : PrimFloat.float;
  payment_list : list PrimFloat.float;
  interest_list : list PrimFloat.float;
  principal_list : list PrimFloat.float
}.

(** One pass through the body of the [for] loop, and whether it ended in
    [break]. *)
Definition loop_body (annual_rate : PrimFloat.float) (payments_per_year : Z)
    (payment_amount : PrimFloat.float) (s : Schedule) : Schedule * bool :=
  let interest_payment := balance s * (annual_rate / of_int payments_per_year) in
  let principal_payment := payment_amount - interest_payment in
  let balance1 := balance s - principal_payment in
  if (balance1 <? 0) then
    let principal_payment1 := principal_payment + balance1 in
    (mkSchedule 0
       (payment_list s ++ [principal_payment1 + interest_payment])
       (interest_list s ++ [interest_payment])
       (principal_list s ++ [principal_payment1]),
     true)
  else
    (mkSchedule balance1
       (payment_list s ++ [payment_amount])
       (interest_list s ++ [interest_payment])
       (principal_list s ++ [principal_payment]),
     false).

(** [for _ in range(k)]. *)
Fixpoint for_range (annual_rate : PrimFloat.float) (payments_per_year : Z)
    (payment_amount : PrimFloat.float) (k : nat) (s : Schedule) : Schedule :=
  match k with
  | O => s
  | S k' =>
      let (s', brk) := loop_body annual_rate payments_per_year payment_amount s in
      if brk then s'
      else for_range annual_rate payments_per_year payment_amount k' s'
  end.

(** The state of [generate_amortization_schedule] when its loop is over. *)
Definition amortization_final
    (principal annual_rate : PrimFloat.float) (years payments_per_year : Z)
    (payment_amount : PrimFloat.float) : Schedule :=
  for_range annual_rate payments_per_year payment_amount
    (Z.to_nat (years * payments_per_year))
    (mkSchedule principal [] [] []).

(** [generate_amortization_schedule]: the three arrays it returns. *)
Definition generate_amortization_schedule
    (principal annual_rate : PrimFloat.float) (years payments_per_year : Z)
    (payment_amount : PrimFloat.float)
  : list PrimFloat.float * list PrimFloat.float * list PrimFloat.float :=
  let s := amortization_final principal annual_rate years payments_per_year
             payment_amount in
  (payment_list s, interest_list s, principal_list s).

(** The float [0.1]: the binary64 number nearest to one tenth. *)
Definition tenth : PrimFloat.float := 0x1.999999999999ap-4.

End Binary64.

(** ** Reference definitions for the amortization recurrence *)

Section Recurrence.

Variables (annual_rate : Q) (payments_per_year : Z) (payment_amount : Q).

(** The balance one period later, when nothing is clamped:
    [balance - (payment - balance * (annual_rate / payments_per_year))]. *)
Definition next_balance (b : Q) : Q :=
  b - (payment_amount - b * (annual_rate / inject_Z payments_per_year)).

(** The unclamped running balance after [k] periods. *)
Definition running_balance (principal : Q) (k : nat) : Q :=
  Nat.iter k next_balance principal.

(** Period [k] (counted from 1) is the payoff period: the first one
    whose balance update goes below zero. *)
Definition payoff_period (principal : Q) (k : nat) : Prop :=
  (1 <= k)%nat /\ running_balance principal k < 0 /\
  forall j, (1 <= j < k)%nat -> 0 <= running_balance principal j.

(** The records at most [k] passes of the loop emit from balance [b], in
    order, as (payment, interest, principal) triples. *)
Fixpoint records (k : nat) (b : Q) : list (Q * Q * Q) :=
  match k with
  | O => []
  | S k' =>
      let i := b * (annual_rate / inject_Z payments_per_year) in
      if Qltb (next_balance b) 0 then
        [(payment_amount - i + next_balance b + i, i,
          payment_amount - i + next_balance b)]
      else (payment_amount, i, payment_amount - i) :: records k' (next_balance b)
  end.

(** The balance those passes leave. *)
Fixpoint end_balance (k : nat) (b : Q) : Q :=
  match k with
  | O => b
  | S k' =>
      if Qltb (next_balance b) 0 then 0 else end_balance k' (next_balance b)
  end.

End Recurrence.

(** The state of the loop of [generate_amortization_schedule] after at
    most [k] passes. *)
Definition amortization_after
    (principal annual_rate : Q) (payments_per_year : Z)
    (payment_amount : Q) (k : nat) : Schedule :=
  for_range annual_rate payments_per_year payment_amount k
    (mkSchedule principal [] [] []).

(** ** Closed form of the balance under the annuity payment *)

(** [(1 + r) ^ k] for the period rate [r = annual_rate / payments_per_year]. *)
Definition growth (annual_rate : Q) (payments_per_year : Z) (k : nat) : Q :=
  (1 + annual_rate / inject_Z payments_per_year) ^ Z.of_nat k.

(** The balance after [k] of [n] periods when the payment is the annuity
    payment: [P * ((1+r)^n - (1+r)^k) / ((1+r)^n - 1)]. *)
Definition annuity_balance
    (principal annual_rate : Q) (payments_per_year : Z) (n k : nat) : Q :=
  principal * (growth annual_rate payments_per_year n
               - growth annual_rate payments_per_year k)
  / (growth annual_rate payments_per_year n - 1).

(** The loan parameters the data model calls valid, with a positive rate. *)
Definition valid_loan (principal annual_rate : Q) (years payments_per_year : Z)
  : Prop :=
  0 < principal /\ 0 < annual_rate /\ (0 < years)%Z /\ (0 < payments_per_year)%Z.

(** ** The projectors' tables, column by column *)

(** The columns of the table the generalized projector returns, when the
    payment is [pay]: each derived column in terms of the columns it is
    computed from. *)
Definition general_columns (p : Params) (h : Z) (pay : Q)
    (out : TestPropertyCalc.Outlook) : Prop :=
  let sched := generate_amortization_schedule (loan_amount p) (interest_rate p)
                 (loan_term p) (payment_frequency p) pay in
  let len := Z.of_nat (length (fst (fst sched))) in
  let pf := payment_frequency p in
  let years := np_arange 1 (h + 1) in
  let esc := np_power (1 + annual_expense_increase p) years in
  TestPropertyCalc.Year out = years /\
  TestPropertyCalc.Rental_Income out = rental_income_array p h /\
  (TestPropertyCalc.Interest_Payment out, TestPropertyCalc.Principal_Payment out) =
    TestPropertyCalc.year_loop (snd (fst sched)) (snd sched) pf
      (len / pf)%Z (len mod pf)%Z (range h)
      (repeat 0 (Z.to_nat h)) (repeat 0 (Z.to_nat h)) /\
  TestPropertyCalc.Other_Expenses out =
    np_add_scalar
      (np_add
         (np_add
            (np_add
               (np_add_scalar
                  (np_add (np_scale (council_rates p) esc)
                     (np_scale (water_rates p) esc))
                  (land_tax p))
               (np_scale (strata_fees p) esc))
            (np_scale (insurance p) esc))
         (np_scale (property_manager_rate p) (TestPropertyCalc.Rental_Income out)))
      (repairs_and_maintenance p) /\
  TestPropertyCalc.Total_Cash_Outflows out =
    np_add (np_add (TestPropertyCalc.Interest_Payment out)
              (TestPropertyCalc.Principal_Payment out))
      (TestPropertyCalc.Other_Expenses out) /\
  TestPropertyCalc.Net_Cash_Flow_Before_Tax out =
    np_sub (TestPropertyCalc.Rental_Income out)
      (TestPropertyCalc.Total_Cash_Outflows out) /\
  TestPropertyCalc.Taxable_Income out =
    np_sub (TestPropertyCalc.Rental_Income out)
      (np_add_scalar
         (np_add (TestPropertyCalc.Interest_Payment out)
            (TestPropertyCalc.Other_Expenses out))
         (depreciation p)) /\
  TestPropertyCalc.Tax_Benefit out =
    np_neg_times (TestPropertyCalc.Taxable_Income out) (marginal_tax_rate p) /\
  TestPropertyCalc.Net_Cash_Flow_After_Tax out =
    np_add (TestPropertyCalc.Net_Cash_Flow_Before_Tax out)
      (TestPropertyCalc.Tax_Benefit out) /\
  TestPropertyCalc.Capital_Gains out =
    py_slice
      (np_diff (np_scale (property_value p)
                  (np_power (1 + property_appreciation p) (np_arange 0 (h + 1)))))
      0 h /\
  TestPropertyCalc.Final_Net_Gain_Loss out =
    np_add (TestPropertyCalc.Net_Cash_Flow_After_Tax out)
      (TestPropertyCalc.Capital_Gains out).

(** The same for the simple projector. *)
Definition simple_columns (p : Params) (pay : Q) (out : PropertyCalc.Outlook)
  : Prop :=
  let sched := generate_amortization_schedule (loan_amount p) (interest_rate p)
                 (loan_term p) (payment_frequency p) pay in
  let pf := payment_frequency p in
  let h := loan_term p in
  let years := np_arange 1 (h + 1) in
  let esc := np_power (1 + annual_expense_increase p) years in
  PropertyCalc.Year out = years /\
  PropertyCalc.Rental_Income out = rental_income_array p h /\
  PropertyCalc.Interest_Payment out =
    map (fun i => np_sum (py_slice (snd (fst sched)) (i * pf) ((i + 1) * pf)))
      (range h) /\
  PropertyCalc.Principal_Payment out =
    map (fun i => np_sum (py_slice (snd sched) (i * pf) ((i + 1) * pf)))
      (range h) /\
  PropertyCalc.Total_Expenses_Depreciation out =
    np_add_scalar
      (np_add_scalar
         (np_add
            (np_add
               (np_add
                  (np_add_scalar
                     (np_add
                        (np_add (PropertyCalc.Interest_Payment out)
                           (np_scale (council_rates p) esc))
                        (np_scale (water_rates p) esc))
                     (land_tax p))
                  (np_scale (strata_fees p) esc))
               (np_scale (insurance p) esc))
            (np_scale (property_manager_rate p) (PropertyCalc.Rental_Income out)))
         (repairs_and_maintenance p))
      (depreciation p) /\
  PropertyCalc.Net_Rental_Loss out =
    np_sub (PropertyCalc.Rental_Income out)
      (PropertyCalc.Total_Expenses_Depreciation out) /\
  PropertyCalc.Tax_Benefit out =
    np_neg_times (PropertyCalc.Net_Rental_Loss out) (marginal_tax_rate p) /\
  PropertyCalc.Cashflow_after_Negative_Gearing out =
    np_add (PropertyCalc.Net_Rental_Loss out) (PropertyCalc.Tax_Benefit out) /\
  PropertyCalc.Capital_Gains out =
    py_slice
      (np_diff (np_scale (property_value p)
                  (np_power (1 + property_appreciation p) (np_arange 0 (h + 1)))))
      0 h /\
  PropertyCalc.Final_Net_Gain_Loss out =
    np_add (PropertyCalc.Cashflow_after_Negative_Gearing out)
      (PropertyCalc.Capital_Gains out).

(** Two tables of the generalized projector agree on year [i], in every
    column. *)
Definition same_year (o1 o2 : TestPropertyCalc.Outlook) (i : nat) : Prop :=
  nth i (TestPropertyCalc.Year o1) 0%Z = nth i (TestPropertyCalc.Year o2) 0%Z /\
  nth i (TestPropertyCalc.Rental_Income o1) 0 =
    nth i (TestPropertyCalc.Rental_Income o2) 0 /\
  nth i (TestPropertyCalc.Interest_Payment o1) 0 =
    nth i (TestPropertyCalc.Interest_Payment o2) 0 /\
  nth i (TestPropertyCalc.Principal_Payment o1) 0 =
    nth i (TestPropertyCalc.Principal_Payment o2) 0 /\
  nth i (TestPropertyCalc.Other_Expenses o1) 0 =
    nth i (TestPropertyCalc.Other_Expenses o2) 0 /\
  nth i (TestPropertyCalc.Total_Cash_Outflows o1) 0 =
    nth i (TestPropertyCalc.Total_Cash_Outflows o2) 0 /\
  nth i (TestPropertyCalc.Net_Cash_Flow_Before_Tax o1) 0 =
    nth i (TestPropertyCalc.Net_Cash_Flow_Before_Tax o2) 0 /\
  nth i (TestPropertyCalc.Taxable_Income o1) 0 =
    nth i (TestPropertyCalc.Taxable_Income o2) 0 /\
  nth i (TestPropertyCalc.Tax_Benefit o1) 0 =
    nth i (TestPropertyCalc.Tax_Benefit o2) 0 /\
  nth i (TestPropertyCalc.Net_Cash_Flow_After_Tax o1) 0 =
    nth i (TestPropertyCalc.Net_Cash_Flow_After_Tax o2) 0 /\
  nth i (TestPropertyCalc.Capital_Gains o1) 0 =
    nth i (TestPropertyCalc.Capital_Gains o2) 0 /\
  nth i (TestPropertyCalc.Final_Net_Gain_Loss o1) 0 =
    nth i (TestPropertyCalc.Final_Net_Gain_Loss o2) 0.

(** ** Sample inputs *)

(** A one-year loan paid twice a year. *)
Definition sample_params : Params :=
  mkParams 500000 1000 (1 # 10) 1 2 93600 (32 # 100) 400 (2 # 100) (2 # 100)
    (4 # 100) 700 550 0 500 1250 (7 # 100) 2000 7500.

(** The same property under another loan. *)
Definition sample_params_other_loan : Params :=
  mkParams 500000 2000 (1 # 20) 2 1 93600 (32 # 100) 400 (2 # 100) (2 # 100)
    (4 # 100) 700 550 0 500 1250 (7 # 100) 2000 7500.

(** The sample property with no tax and no appreciation. *)
Definition sample_params_no_tax : Params :=
  mkParams 500000 1000 (1 # 10) 1 2 93600 0 400 (2 # 100) (2 # 100)
    0 700 550 0 500 1250 (7 # 100) 2000 7500.

(** The sample property with a negative loan term. *)
Definition sample_params_no_term : Params :=
  mkParams 500000 1000 (1 # 10) (-1) 2 93600 (32 # 100) 400 (2 # 100) (2 # 100)
    (4 # 100) 700 550 0 500 1250 (7 # 100) 2000 7500.

Definition empty_general_outlook : TestPropertyCalc.Outlook :=
  TestPropertyCalc.mkOutlook [] [] [] [] [] [] [] [] [] [] [] [].

Definition empty_simple_outlook : PropertyCalc.Outlook :=
  PropertyCalc.mkOutlook [] [] [] [] [] [] [] [] [] [].

(** What a projector returned, for use at a sample input. *)
Definition general_result (m : Result TestPropertyCalc.Outlook)
  : TestPropertyCalc.Outlook :=
  match m with Ok o => o | Raise _ => empty_general_outlook end.

Definition simple_result (m : Result PropertyCalc.Outlook) : PropertyCalc.Outlook :=
  match m with Ok o => o | Raise _ => empty_simple_outlook end.

(** ** Basic facts *)

Lemma Qltb_true (x y : Q) : Qltb x y = true <-> x < y.
Proof.
  unfold Qltb. destruct (Qlt_le_dec x y) as [H|H]; split; intro H0; auto.
  - discriminate.
  - exfalso. apply (Qlt_irrefl x). eapply Qlt_le_trans; eauto.
Qed.

Lemma Qltb_false (x y : Q) : Qltb x y = false <-> y <= x.
Proof.
  unfold Qltb. destruct (Qlt_le_dec x y) as [H|H]; split; intro H0; auto.
  - discriminate.
  - exfalso. apply (Qlt_irrefl x). eapply Qlt_le_trans; eauto.
Qed.

Lemma Qeqb_true (x y : Q) : Qeqb x y = true <-> x == y.
Proof. apply Qeq_bool_iff. Qed.

Lemma Qeqb_false (x y : Q) : Qeqb x y = false <-> ~ x == y.
Proof.
  unfold Qeqb. split; intro H.
  - intro E. apply Qeq_bool_iff in E. congruence.
  - destruct (Qeq_bool x y) eqn:E; auto. apply Qeq_bool_iff in E. contradiction.
Qed.

Lemma loop_runs_frequency_nonzero (years payments_per_year : Z) :
  (0 < Z.to_nat (years * payments_per_year))%nat -> payments_per_year <> 0%Z.
Proof. intros H E. subst. rewrite Z.mul_0_r in H. simpl in H. lia. Qed.

(** ** The loop and the recurrence *)

Section LoopFacts.

Variables (annual_rate : Q) (payments_per_year : Z) (payment_amount : Q).

Let loop := for_range annual_rate payments_per_year payment_amount.
Let recs := records annual_rate payments_per_year payment_amount.
Let endb := end_balance annual_rate payments_per_year payment_amount.
Let next := next_balance annual_rate payments_per_year payment_amount.
Let rb := running_balance annual_rate payments_per_year payment_amount.

Lemma for_range_records (k : nat) (s : Schedule) :
  loop k s =
  mkSchedule (endb k (balance s))
    (payment_list s ++ map (fun t => fst (fst t)) (recs k (balance s)))
    (interest_list s ++ map (fun t => snd (fst t)) (recs k (balance s)))
    (principal_list s ++ map snd (recs k (balance s))).
Proof.
  subst loop recs endb. revert s. induction k as [|k IH]; intros s.
  - simpl. rewrite !app_nil_r. destruct s; reflexivity.
  - simpl. unfold loop_body.
    change (balance s - (payment_amount - balance s * (annual_rate / inject_Z payments_per_year)))
      with (next_balance annual_rate payments_per_year payment_amount (balance s)).
    destruct (Qltb (next_balance annual_rate payments_per_year payment_amount (balance s)) 0).
    + reflexivity.
    + rewrite IH. simpl. rewrite <- !app_assoc. reflexivity.
Qed.

Lemma running_balance_S (b : Q) (k : nat) :
  rb b (S k) = rb (next b) k.
Proof. subst rb next. unfold running_balance. apply Nat.iter_succ_r. Qed.

Lemma records_length_le (k : nat) (b : Q) : (length (recs k b) <= k)%nat.
Proof.
  subst recs. revert b. induction k as [|k IH]; intros b; simpl; [lia|].
  destruct (Qltb _ 0); simpl; [lia|]. specialize (IH (next_balance annual_rate payments_per_year payment_amount b)). lia.
Qed.

End LoopFacts.

Section RecordFacts.

Variables (annual_rate : Q) (payments_per_year : Z) (payment_amount : Q).

Local Abbreviation recs := (records annual_rate payments_per_year payment_amount).
Local Abbreviation endb := (end_balance annual_rate payments_per_year payment_amount).
Local Abbreviation next := (next_balance annual_rate payments_per_year payment_amount).
Local Abbreviation rb := (running_balance annual_rate payments_per_year payment_amount).
Local Abbreviation payoff := (payoff_period annual_rate payments_per_year payment_amount).

Lemma running_balance_1 (b : Q) : rb b 1%nat = next b.
Proof. reflexivity. Qed.

(** A record is only emitted when no earlier period went below zero. *)
Lemma records_before_nonneg (k : nat) (b : Q) (i j : nat) :
  (i < length (recs k b))%nat -> (1 <= j <= i)%nat -> 0 <= rb b j.
Proof.
  revert b i j. induction k as [|k IH]; intros b i j Hi Hj; simpl in Hi; [lia|].
  destruct (Qltb (next b) 0) eqn:E; simpl in Hi; [lia|].
  apply Qltb_false in E.
  destruct j as [|j]; [lia|]. rewrite running_balance_S.
  destruct j as [|j]; [exact E|].
  destruct i as [|i]; [lia|].
  apply (IH (next b) i (S j)); lia.
Qed.

Lemma records_nth (k : nat) (b : Q) (i : nat) :
  (i < length (recs k b))%nat ->
  let t := nth i (recs k b) (0, 0, 0) in
  snd (fst t) = rb b i * (annual_rate / inject_Z payments_per_year) /\
  (0 <= rb b (S i) ->
     fst (fst t) = payment_amount /\ snd t = payment_amount - snd (fst t)) /\
  (rb b (S i) < 0 ->
     S i = length (recs k b) /\
     snd t = payment_amount - snd (fst t) + rb b (S i) /\
     fst (fst t) = snd t + snd (fst t)).
Proof.
  revert b i. induction k as [|k IH]; intros b i Hi; simpl in Hi; [lia|].
  simpl. destruct (Qltb (next b) 0) eqn:E.
  - simpl in Hi. assert (i = 0%nat) by lia. subst i. simpl.
    apply Qltb_true in E. split; [reflexivity|]. split.
    + intro H. exfalso.
      apply (Qlt_irrefl 0); eapply Qle_lt_trans; [exact H|exact E].
    + intro H. repeat split; reflexivity.
  - simpl in Hi. apply Qltb_false in E. destruct i as [|i].
    + simpl. split; [reflexivity|]. split.
      * intro H. split; reflexivity.
      * intro H. exfalso.
        apply (Qlt_irrefl 0); eapply Qle_lt_trans; [exact E|exact H].
    + cbn [nth length]. rewrite !(running_balance_S _ _ _ b).
      destruct (IH (next b) i ltac:(lia)) as (H1 & H2 & H3).
      split; [exact H1|]. split; [exact H2|].
      intro H. destruct (H3 H) as (H4 & H5 & H6).
      split; [lia|]. split; assumption.
Qed.

Lemma records_length_payoff (k : nat) (b : Q) (j : nat) :
  payoff b j -> length (recs k b) = Nat.min k j.
Proof.
  revert b j. induction k as [|k IH]; intros b j (Hj & Hneg & Hpos); [reflexivity|].
  simpl. destruct (Qltb (next b) 0) eqn:E.
  - apply Qltb_true in E. destruct j as [|[|j]]; [lia|simpl; rewrite Nat.min_0_r; reflexivity|].
    exfalso. specialize (Hpos 1%nat ltac:(lia)). rewrite running_balance_1 in Hpos.
    apply (Qlt_irrefl 0); eapply Qle_lt_trans; eauto.
  - apply Qltb_false in E. destruct j as [|[|j]]; [lia| |].
    + exfalso. rewrite running_balance_1 in Hneg.
      apply (Qlt_irrefl 0); eapply Qle_lt_trans; eauto.
    + cbn [length]. rewrite (IH (next b) (S j)); [reflexivity|].
      split; [lia|]. split.
      * rewrite <- running_balance_S. exact Hneg.
      * intros i Hi. rewrite <- running_balance_S. apply Hpos. lia.
Qed.

Lemma records_length_full (k : nat) (b : Q) :
  (forall j, (1 <= j <= k)%nat -> 0 <= rb b j) -> length (recs k b) = k.
Proof.
  revert b. induction k as [|k IH]; intros b H; [reflexivity|].
  simpl. destruct (Qltb (next b) 0) eqn:E.
  - apply Qltb_true in E. exfalso.
    specialize (H 1%nat ltac:(lia)). rewrite running_balance_1 in H.
    apply (Qlt_irrefl 0); eapply Qle_lt_trans; eauto.
  - simpl. f_equal. apply IH. intros j Hj.
    rewrite <- running_balance_S. apply H. lia.
Qed.

Lemma end_balance_full (k : nat) (b : Q) :
  (forall j, (1 <= j <= k)%nat -> 0 <= rb b j) -> endb k b = rb b k.
Proof.
  revert b. induction k as [|k IH]; intros b H; [reflexivity|].
  simpl end_balance. destruct (Qltb (next b) 0) eqn:E.
  - apply Qltb_true in E. exfalso.
    specialize (H 1%nat ltac:(lia)). rewrite running_balance_1 in H.
    apply (Qlt_irrefl 0); eapply Qle_lt_trans; eauto.
  - rewrite running_balance_S. apply IH. intros j Hj.
    rewrite <- running_balance_S. apply H. lia.
Qed.

Lemma end_balance_payoff (k : nat) (b : Q) (j : nat) :
  payoff b j -> (j <= k)%nat -> endb k b = 0.
Proof.
  revert b j. induction k as [|k IH]; intros b j (Hj & Hneg & Hpos) Hle; [lia|].
  simpl end_balance. destruct (Qltb (next b) 0) eqn:E; [reflexivity|].
  apply Qltb_false in E. destruct j as [|[|j]]; [lia| |].
  - exfalso. rewrite running_balance_1 in Hneg.
    apply (Qlt_irrefl 0); eapply Qle_lt_trans; eauto.
  - apply (IH (next b) (S j)); [|lia].
    split; [lia|]. split.
    + rewrite <- running_balance_S. exact Hneg.
    + intros i Hi. rewrite <- running_balance_S. apply Hpos. lia.
Qed.

End RecordFacts.

Lemma amortization_after_records
    (principal annual_rate : Q) (payments_per_year : Z) (payment_amount : Q)
    (k : nat) :
  amortization_after principal annual_rate payments_per_year payment_amount k =
  mkSchedule
    (end_balance annual_rate payments_per_year payment_amount k principal)
    (map (fun t => fst (fst t))
       (records annual_rate payments_per_year payment_amount k principal))
    (map (fun t => snd (fst t))
       (records annual_rate payments_per_year payment_amount k principal))
    (map snd (records annual_rate payments_per_year payment_amount k principal)).
Proof. unfold amortization_after. rewrite for_range_records. reflexivity. Qed.

Lemma amortization_final_after
    (principal annual_rate : Q) (years payments_per_year : Z) (payment_amount : Q) :
  amortization_final principal annual_rate years payments_per_year payment_amount =
  amortization_after principal annual_rate payments_per_year payment_amount
    (Z.to_nat (years * payments_per_year)).
Proof. reflexivity. Qed.

(** ** C1: the schedule follows the recurrence and stops at payoff *)

(** C1. [generate_amortization_schedule] keeps a running balance that
    starts at [principal]; period [i] has interest
    [balance * (annual_rate / payments_per_year)] and principal
    [payment_amount - interest], and the balance drops by that principal.
    There are at most [years * payments_per_year] periods. In the period
    whose balance update goes below zero the principal portion is reduced by
    the overshoot, the balance is set to 0, that record is the last one.
    The number of records is the minimum of [years * payments_per_year] and
    the payoff period (the whole term when the balance never goes below
    zero). This holds for every input, in particular for the valid ones. *)
Theorem generate_schedule_follows_recurrence
    (principal annual_rate : Q) (years payments_per_year : Z) (payment_amount : Q) :
  let n := Z.to_nat (years * payments_per_year) in
  let s := amortization_final principal annual_rate years payments_per_year
             payment_amount in
  let bal := running_balance annual_rate payments_per_year payment_amount principal in
  let len := length (payment_list s) in
  generate_amortization_schedule principal annual_rate years payments_per_year
    payment_amount = (payment_list s, interest_list s, principal_list s) /\
  bal 0%nat = principal /\
  (forall k, bal (S k) =
     bal k - (payment_amount - bal k * (annual_rate / inject_Z payments_per_year))) /\
  length (interest_list s) = len /\ length (principal_list s) = len /\
  (len <= n)%nat /\
  (forall i, (i < len)%nat ->
     nth i (interest_list s) 0 = bal i * (annual_rate / inject_Z payments_per_year) /\
     (0 <= bal (S i) ->
        nth i (payment_list s) 0 = payment_amount /\
        nth i (principal_list s) 0 = payment_amount - nth i (interest_list s) 0 /\
        balance (amortization_after principal annual_rate payments_per_year
                   payment_amount (S i)) = bal (S i)) /\
     (bal (S i) < 0 ->
        S i = len /\
        nth i (principal_list s) 0 =
          payment_amount - nth i (interest_list s) 0 + bal (S i) /\
        nth i (payment_list s) 0 =
          nth i (principal_list s) 0 + nth i (interest_list s) 0 /\
        balance s = 0)) /\
  (forall k, payoff_period annual_rate payments_per_year payment_amount principal k ->
     len = Nat.min n k) /\
  ((forall k, (1 <= k <= n)%nat -> 0 <= bal k) -> len = n).
Proof.
  intros n s bal len.
  assert (Hs : s = mkSchedule
            (end_balance annual_rate payments_per_year payment_amount n principal)
            (map (fun t => fst (fst t))
               (records annual_rate payments_per_year payment_amount n principal))
            (map (fun t => snd (fst t))
               (records annual_rate payments_per_year payment_amount n principal))
            (map snd (records annual_rate payments_per_year payment_amount n principal))).
  { subst s. rewrite amortization_final_after. apply amortization_after_records. }
  assert (Hlen : len = length (records annual_rate payments_per_year payment_amount n principal)).
  { subst len. rewrite Hs. simpl. apply length_map. }
  split; [reflexivity|]. split; [reflexivity|]. split; [intro k; reflexivity|].
  split; [rewrite Hlen, Hs; simpl; apply length_map|].
  split; [rewrite Hlen, Hs; simpl; apply length_map|].
  split; [rewrite Hlen; apply records_length_le|].
  split; [|split].
  - intros i Hi. rewrite Hlen in Hi.
    pose proof (records_nth annual_rate payments_per_year payment_amount n principal i Hi)
      as (H1 & H2 & H3).
    assert (Ni : nth i (interest_list s) 0 =
                 snd (fst (nth i (records annual_rate payments_per_year payment_amount n principal) (0,0,0)))).
    { rewrite Hs. simpl. exact (map_nth (fun t : Q * Q * Q => snd (fst t)) _ (0,0,0) i). }
    assert (Np : nth i (payment_list s) 0 =
                 fst (fst (nth i (records annual_rate payments_per_year payment_amount n principal) (0,0,0)))).
    { rewrite Hs. simpl. exact (map_nth (fun t : Q * Q * Q => fst (fst t)) _ (0,0,0) i). }
    assert (Nr : nth i (principal_list s) 0 =
                 snd (nth i (records annual_rate payments_per_year payment_amount n principal) (0,0,0))).
    { rewrite Hs. simpl. exact (map_nth (@snd (Q * Q) Q) _ (0,0,0) i). }
    rewrite Ni, Np, Nr. split; [exact H1|]. split.
    + intro Hpos. destruct (H2 Hpos) as (H4 & H5). split; [exact H4|]. split; [exact H5|].
      rewrite amortization_after_records. cbn [balance].
      apply end_balance_full. intros j Hj.
      destruct (Nat.eq_dec j (S i)) as [->|Hne]; [exact Hpos|].
      apply (records_before_nonneg annual_rate payments_per_year payment_amount
               n principal i j Hi). lia.
    + intro Hneg. destruct (H3 Hneg) as (H4 & H5 & H6).
      split; [rewrite Hlen; exact H4|]. split; [exact H5|]. split; [exact H6|].
      rewrite Hs. cbn [balance].
      apply (end_balance_payoff annual_rate payments_per_year payment_amount
               n principal (S i));
        [|pose proof (records_length_le annual_rate payments_per_year
                        payment_amount n principal); lia].
      split; [lia|]. split; [exact Hneg|]. intros j Hj.
      apply (records_before_nonneg annual_rate payments_per_year payment_amount
               n principal i j Hi). lia.
  - intros k Hk. rewrite Hlen. apply records_length_payoff. exact Hk.
  - intros Hall. rewrite Hlen. apply records_length_full. exact Hall.
Qed.

(** ** Sums *)

Lemma fold_left_Qplus_acc (l : list Q) (a : Q) :
  fold_left Qplus l a == a + np_sum l.
Proof.
  unfold np_sum. revert a. induction l as [|x l IH]; intros a; simpl.
  - ring.
  - rewrite (IH (a + x)), (IH (0 + x)). ring.
Qed.

Lemma np_sum_cons (x : Q) (l : list Q) : np_sum (x :: l) == x + np_sum l.
Proof. unfold np_sum at 1. simpl. rewrite fold_left_Qplus_acc. ring. Qed.

Lemma np_sum_nil : np_sum [] = 0.
Proof. reflexivity. Qed.

(** Whatever the payment, the principal portions emitted so far add up to
    what the balance has lost. *)
Lemma records_principal_sum
    (annual_rate : Q) (payments_per_year : Z) (payment_amount : Q)
    (k : nat) (b : Q) :
  np_sum (map snd (records annual_rate payments_per_year payment_amount k b)) ==
  b - end_balance annual_rate payments_per_year payment_amount k b.
Proof.
  revert b. induction k as [|k IH]; intros b.
  - simpl. rewrite np_sum_nil. ring.
  - simpl. destruct (Qltb _ 0).
    + cbn [map snd]. rewrite np_sum_cons, np_sum_nil. unfold next_balance. ring.
    + cbn [map snd]. rewrite np_sum_cons, IH. unfold next_balance. ring.
Qed.

(** ** The annuity payment retires the loan exactly at the end of the term *)

Section Annuity.

Variables (principal annual_rate : Q) (years payments_per_year : Z).
Hypothesis valid : valid_loan principal annual_rate years payments_per_year.

Local Abbreviation r := (annual_rate / inject_Z payments_per_year).
Local Abbreviation n := (Z.to_nat (years * payments_per_year)).
Local Abbreviation g := (growth annual_rate payments_per_year).
Local Abbreviation payment :=
  (principal * (r * (1 + r) ^ (years * payments_per_year))
   / ((1 + r) ^ (years * payments_per_year) - 1)).

Lemma frequency_pos : 0 < inject_Z payments_per_year.
Proof. destruct valid as (_ & _ & _ & H). unfold Qlt. simpl. lia. Qed.

Lemma period_rate_pos : 0 < r.
Proof.
  destruct valid as (_ & H & _ & _). unfold Qdiv.
  apply Qmult_lt_0_compat; [exact H|].
  apply Qinv_lt_0_compat. exact frequency_pos.
Qed.

Lemma periods_pos : (1 <= n)%nat /\ Z.of_nat n = (years * payments_per_year)%Z.
Proof.
  destruct valid as (_ & _ & Hy & Hp).
  assert (0 < years * payments_per_year)%Z by (apply Z.mul_pos_pos; assumption).
  split; [lia|]. apply Z2Nat.id. lia.
Qed.

Lemma one_plus_rate_pos : 0 < 1 + r.
Proof.
  pose proof period_rate_pos as H.
  set (x := annual_rate / inject_Z payments_per_year) in *. lra.
Qed.

Lemma one_plus_rate_nonzero : ~ 1 + r == 0.
Proof.
  pose proof one_plus_rate_pos as H. intro E. rewrite E in H.
  exact (Qlt_irrefl 0 H).
Qed.

Lemma growth_0 : g 0%nat == 1.
Proof. unfold growth. simpl. reflexivity. Qed.

Lemma growth_S (k : nat) : g (S k) == g k * (1 + r).
Proof.
  unfold growth. rewrite Nat2Z.inj_succ. unfold Z.succ.
  rewrite Qpower_plus.
  - rewrite Qpower_1_r. reflexivity.
  - exact one_plus_rate_nonzero.
Qed.

Lemma growth_pos (k : nat) : 0 < g k.
Proof.
  unfold growth. apply Qpower_0_lt. exact one_plus_rate_pos.
Qed.

Lemma growth_lt_S (k : nat) : g k < g (S k).
Proof.
  rewrite growth_S. pose proof (growth_pos k) as Hg. pose proof period_rate_pos as Hr.
  assert (H : 0 < g k * r) by (apply Qmult_lt_0_compat; assumption).
  set (x := annual_rate / inject_Z payments_per_year) in *.
  set (y := growth annual_rate payments_per_year k) in *.
  setoid_replace (y * (1 + x)) with (y + y * x) by ring.
  lra.
Qed.

Lemma growth_le (j k : nat) : (j <= k)%nat -> g j <= g k.
Proof.
  induction 1 as [|k Hle IH].
  - apply Qle_refl.
  - pose proof (growth_lt_S k) as H.
    apply Qle_trans with (g k); [exact IH|]. apply Qlt_le_weak. exact H.
Qed.

Lemma growth_term_gt_1 : 1 < g n.
Proof.
  destruct periods_pos as (Hn & _).
  pose proof (growth_le 1 n Hn) as H1. pose proof (growth_lt_S 0) as H2.
  pose proof growth_0 as H0. rewrite H0 in H2.
  eapply Qlt_le_trans; eauto.
Qed.

Lemma growth_term : (1 + r) ^ (years * payments_per_year) = g n.
Proof. unfold growth. destruct periods_pos as (_ & ->). reflexivity. Qed.

(** [calculate_mortgage_payment] returns the annuity payment. *)
Lemma calculate_mortgage_payment_valid :
  calculate_mortgage_payment principal annual_rate years payments_per_year
  = Ok payment.
Proof.
  unfold calculate_mortgage_payment, py_div at 1.
  assert (E1 : Qeqb (inject_Z payments_per_year) 0 = false).
  { apply Qeqb_false. pose proof frequency_pos. intro E. lra. }
  rewrite E1. cbn [bind]. unfold py_pow.
  assert (E2 : Qeqb (1 + r) 0 = false).
  { apply Qeqb_false. exact one_plus_rate_nonzero. }
  rewrite E2. cbn [andb bind]. unfold py_div.
  assert (E3 : Qeqb ((1 + r) ^ (years * payments_per_year) - 1) 0 = false).
  { apply Qeqb_false. rewrite growth_term. pose proof growth_term_gt_1 as H.
    set (y := growth annual_rate payments_per_year _) in *. intro E. lra. }
  rewrite E3. reflexivity.
Qed.

Lemma payment_eq :
  payment == principal * (r * g n) / (g n - 1).
Proof. rewrite growth_term. reflexivity. Qed.

Lemma payment_pos : 0 < payment.
Proof.
  rewrite payment_eq. destruct valid as (HP & _).
  pose proof period_rate_pos. pose proof (growth_pos n). pose proof growth_term_gt_1.
  unfold Qdiv. apply Qmult_lt_0_compat.
  - apply Qmult_lt_0_compat; [exact HP|]. apply Qmult_lt_0_compat; assumption.
  - apply Qinv_lt_0_compat.
    set (y := growth annual_rate payments_per_year _) in *. lra.
Qed.

End Annuity.

Section AnnuityBalance.

Variables (principal annual_rate : Q) (years payments_per_year : Z).
Hypothesis valid : valid_loan principal annual_rate years payments_per_year.

Local Abbreviation r := (annual_rate / inject_Z payments_per_year).
Local Abbreviation n := (Z.to_nat (years * payments_per_year)).
Local Abbreviation g := (growth annual_rate payments_per_year).
Local Abbreviation payment :=
  (principal * (r * (1 + r) ^ (years * payments_per_year))
   / ((1 + r) ^ (years * payments_per_year) - 1)).
Local Abbreviation ab := (annuity_balance principal annual_rate payments_per_year n).
Local Abbreviation rb := (running_balance annual_rate payments_per_year payment principal).
Local Abbreviation recs := (records annual_rate payments_per_year payment).
Local Abbreviation endb := (end_balance annual_rate payments_per_year payment).

Lemma denominator_pos : 0 < g n - 1.
Proof.
  pose proof (growth_term_gt_1 _ _ _ _ valid) as H.
  set (y := growth annual_rate payments_per_year _) in *. lra.
Qed.

Lemma next_balance_compat (p b b' : Q) :
  b == b' ->
  next_balance annual_rate payments_per_year p b ==
  next_balance annual_rate payments_per_year p b'.
Proof. intro E. unfold next_balance. rewrite E. reflexivity. Qed.

Lemma annuity_balance_step (k : nat) :
  next_balance annual_rate payments_per_year payment (ab k) == ab (S k).
Proof.
  unfold next_balance, annuity_balance.
  rewrite (growth_S _ _ _ _ valid k), (growth_term _ _ _ _ valid).
  pose proof denominator_pos as HD.
  set (G := growth annual_rate payments_per_year (Z.to_nat _)) in *.
  set (Gk := growth annual_rate payments_per_year k).
  set (x := annual_rate / inject_Z payments_per_year).
  field. intro E. lra.
Qed.

(** The running balance has the closed form of an annuity. *)
Lemma running_balance_closed (k : nat) : rb k == ab k.
Proof.
  induction k as [|k IH].
  - unfold running_balance, annuity_balance. simpl Nat.iter.
    rewrite (growth_0 annual_rate payments_per_year).
    pose proof denominator_pos as HD.
    set (G := growth annual_rate payments_per_year _) in *.
    field. intro E. lra.
  - unfold running_balance. simpl Nat.iter.
    fold (running_balance annual_rate payments_per_year payment principal k).
    rewrite (next_balance_compat _ _ _ IH). apply annuity_balance_step.
Qed.

Lemma annuity_balance_nonneg (k : nat) : (k <= n)%nat -> 0 <= ab k.
Proof.
  intro Hk. pose proof (growth_le _ _ _ _ valid k n Hk) as Hg.
  pose proof denominator_pos as HD. destruct valid as (HP & _).
  unfold annuity_balance, Qdiv.
  apply Qmult_le_0_compat; [apply Qmult_le_0_compat|].
  - apply Qlt_le_weak. exact HP.
  - set (G := growth annual_rate payments_per_year (Z.to_nat _)) in *.
    set (Gk := growth annual_rate payments_per_year k) in *. lra.
  - apply Qinv_le_0_compat. apply Qlt_le_weak. exact HD.
Qed.

Lemma annuity_balance_end : ab n == 0.
Proof.
  unfold annuity_balance. pose proof denominator_pos as HD.
  set (G := growth annual_rate payments_per_year _) in *.
  field. intro E. lra.
Qed.

Lemma annuity_balance_drop (k : nat) :
  ab k - ab (S k) == principal * (g (S k) - g k) / (g n - 1).
Proof.
  unfold annuity_balance. pose proof denominator_pos as HD.
  set (G := growth annual_rate payments_per_year (Z.to_nat _)) in *.
  set (Gk := growth annual_rate payments_per_year k).
  set (Gk' := growth annual_rate payments_per_year (S k)).
  field. intro E. lra.
Qed.

Lemma annuity_balance_decreasing (k : nat) : ab (S k) <= ab k.
Proof.
  assert (H : 0 <= ab k - ab (S k)).
  { rewrite annuity_balance_drop.
    pose proof (growth_lt_S _ _ _ _ valid k) as Hg.
    pose proof denominator_pos as HD. destruct valid as (HP & _).
    unfold Qdiv. apply Qmult_le_0_compat; [apply Qmult_le_0_compat|].
    - apply Qlt_le_weak. exact HP.
    - set (Gk := growth annual_rate payments_per_year k) in *.
      set (Gk' := growth annual_rate payments_per_year (S k)) in *. lra.
    - apply Qinv_le_0_compat. apply Qlt_le_weak. exact HD. }
  set (a := annuity_balance _ _ _ _ k) in *.
  set (b := annuity_balance _ _ _ _ (S k)) in *. lra.
Qed.

Lemma running_balance_nonneg (k : nat) : (k <= n)%nat -> 0 <= rb k.
Proof.
  intro Hk. rewrite running_balance_closed. apply annuity_balance_nonneg. exact Hk.
Qed.

(** Under the annuity payment the loop never breaks: it emits one record
    per contractual period. *)
Lemma annuity_records_length (k : nat) :
  (k <= n)%nat -> length (recs k principal) = k.
Proof.
  intro Hk. apply records_length_full. intros j Hj.
  apply running_balance_nonneg. lia.
Qed.

Lemma annuity_end_balance (k : nat) :
  (k <= n)%nat -> endb k principal = rb k.
Proof.
  intro Hk. apply end_balance_full. intros j Hj.
  apply running_balance_nonneg. lia.
Qed.

End AnnuityBalance.

(** ** C2, C3, C7: the schedule under the computed payment *)

(** C2. For valid loan parameters with a positive rate, the payment of
    [calculate_mortgage_payment] makes [generate_amortization_schedule]
    emit the whole term, and its principal portions add up to the original
    principal (exact arithmetic). *)
Theorem principal_portions_sum_to_principal
    (principal annual_rate : Q) (years payments_per_year : Z) :
  valid_loan principal annual_rate years payments_per_year ->
  exists payment,
    calculate_mortgage_payment principal annual_rate years payments_per_year
      = Ok payment /\
    let '(_, _, principals) :=
      generate_amortization_schedule principal annual_rate years
        payments_per_year payment in
    length principals = Z.to_nat (years * payments_per_year) /\
    np_sum principals == principal.
Proof.
  intro valid. eexists. split.
  - apply calculate_mortgage_payment_valid. exact valid.
  - unfold generate_amortization_schedule.
    rewrite amortization_final_after, amortization_after_records.
    cbn [principal_list]. split.
    + rewrite length_map. apply annuity_records_length; [exact valid|lia].
    + rewrite records_principal_sum.
      rewrite (annuity_end_balance _ _ _ _ valid) by lia.
      rewrite (running_balance_closed _ _ _ _ valid).
      rewrite (annuity_balance_end _ _ _ _ valid). ring.
Qed.

(** C3, in exact arithmetic. For valid loan parameters with a positive
    rate and the computed payment, the running balance is not negative
    after any period of the loop, every contractual period is emitted, and
    the balance left after the last one is 0. On binary64 the last balance
    need not be 0: see [binary64_final_balance_not_zero]. *)
Theorem balance_never_negative_ends_at_zero
    (principal annual_rate : Q) (years payments_per_year : Z) :
  valid_loan principal annual_rate years payments_per_year ->
  exists payment,
    calculate_mortgage_payment principal annual_rate years payments_per_year
      = Ok payment /\
    let final := amortization_final principal annual_rate years
                   payments_per_year payment in
    length (payment_list final) = Z.to_nat (years * payments_per_year) /\
    (forall k, (k <= Z.to_nat (years * payments_per_year))%nat ->
       length (payment_list (amortization_after principal annual_rate
                               payments_per_year payment k)) = k /\
       0 <= balance (amortization_after principal annual_rate
                       payments_per_year payment k)) /\
    balance final == 0.
Proof.
  intro valid. eexists. split.
  - apply calculate_mortgage_payment_valid. exact valid.
  - cbv zeta. rewrite amortization_final_after. split; [|split].
    + rewrite amortization_after_records. cbn [payment_list].
      rewrite length_map. apply annuity_records_length; [exact valid|lia].
    + intros k Hk. rewrite amortization_after_records.
      cbn [payment_list balance]. split.
      * rewrite length_map. apply annuity_records_length; assumption.
      * rewrite (annuity_end_balance _ _ _ _ valid) by exact Hk.
        apply running_balance_nonneg; assumption.
    + rewrite amortization_after_records. cbn [balance].
      rewrite (annuity_end_balance _ _ _ _ valid) by lia.
      rewrite (running_balance_closed _ _ _ _ valid).
      apply annuity_balance_end. exact valid.
Qed.

(** C7, in exact arithmetic. For valid loan parameters with a positive
    rate and the computed payment, every emitted record has
    payment = interest + principal (the last one included), and its
    payment, interest and principal are not negative. On binary64 the
    equation can fail in the last place for a record that is not clamped:
    see [binary64_payment_differs_from_split]. *)
Theorem records_split_and_nonnegative
    (principal annual_rate : Q) (years payments_per_year : Z) :
  valid_loan principal annual_rate years payments_per_year ->
  exists payment,
    calculate_mortgage_payment principal annual_rate years payments_per_year
      = Ok payment /\
    let '(payments, interests, principals) :=
      generate_amortization_schedule principal annual_rate years
        payments_per_year payment in
    length interests = length payments /\
    length principals = length payments /\
    forall i, (i < length payments)%nat ->
      nth i payments 0 == nth i interests 0 + nth i principals 0 /\
      0 <= nth i payments 0 /\
      0 <= nth i interests 0 /\
      0 <= nth i principals 0.
Proof.
  intro valid. eexists. split.
  - apply calculate_mortgage_payment_valid. exact valid.
  - unfold generate_amortization_schedule.
    rewrite amortization_final_after, amortization_after_records.
    cbn [payment_list interest_list principal_list].
    rewrite !length_map. split; [reflexivity|]. split; [reflexivity|].
    intros i Hi.
    set (pay := principal * _ / _) in *.
    set (n := Z.to_nat (years * payments_per_year)) in *.
    pose proof (records_nth annual_rate payments_per_year pay n principal i Hi)
      as (H1 & H2 & _).
    assert (Hn : (length (records annual_rate payments_per_year pay n principal) = n)%nat).
    { apply annuity_records_length; [exact valid|lia]. }
    rewrite Hn in Hi.
    assert (Hb : 0 <= running_balance annual_rate payments_per_year pay principal i).
    { apply running_balance_nonneg; [exact valid|]. fold n. lia. }
    assert (Hb' : 0 <= running_balance annual_rate payments_per_year pay principal (S i)).
    { apply running_balance_nonneg; [exact valid|]. fold n. lia. }
    destruct (H2 Hb') as (H3 & H4).
    rewrite (map_nth (fun t : Q * Q * Q => fst (fst t)) _ (0,0,0) i).
    rewrite (map_nth (fun t : Q * Q * Q => snd (fst t)) _ (0,0,0) i).
    rewrite (map_nth (@snd (Q * Q) Q) _ (0,0,0) i).
    rewrite H4, H3, H1.
    pose proof (period_rate_pos _ _ _ _ valid) as Hr.
    pose proof (payment_pos _ _ _ _ valid) as Hp. fold pay in Hp.
    assert (Hi0 : 0 <= running_balance annual_rate payments_per_year pay principal i
                       * (annual_rate / inject_Z payments_per_year)).
    { apply Qmult_le_0_compat; [exact Hb|]. apply Qlt_le_weak. exact Hr. }
    assert (Hdrop : running_balance annual_rate payments_per_year pay principal (S i)
                    <= running_balance annual_rate payments_per_year pay principal i).
    { unfold pay. rewrite !(running_balance_closed _ _ _ _ valid).
      apply annuity_balance_decreasing. exact valid. }
    assert (Hstep : running_balance annual_rate payments_per_year pay principal (S i)
                    = next_balance annual_rate payments_per_year pay
                        (running_balance annual_rate payments_per_year pay principal i))
      by reflexivity.
    rewrite Hstep in Hdrop. unfold next_balance in Hdrop.
    set (b := running_balance annual_rate payments_per_year pay principal i) in *.
    set (x := annual_rate / inject_Z payments_per_year) in *.
    set (bx := b * x) in *.
    split; [ring|]. split; [lra|]. split; [exact Hi0|]. lra.
Qed.

(** ** Arrays: lengths and entries *)

Lemma range_length (n : Z) : length (range n) = Z.to_nat n.
Proof. unfold range. rewrite length_map, length_seq. reflexivity. Qed.

Lemma range_nth (n : Z) (i : nat) :
  (i < Z.to_nat n)%nat -> nth i (range n) 0%Z = Z.of_nat i.
Proof.
  intro Hi. unfold range.
  rewrite (nth_indep _ 0%Z (Z.of_nat 0)) by (rewrite length_map, length_seq; exact Hi).
  rewrite map_nth, seq_nth by exact Hi. reflexivity.
Qed.

Lemma np_arange_length (lo hi : Z) : length (np_arange lo hi) = Z.to_nat (hi - lo).
Proof. unfold np_arange. rewrite length_map, length_seq. reflexivity. Qed.

Lemma np_arange_nth (lo hi : Z) (i : nat) :
  (i < Z.to_nat (hi - lo))%nat -> nth i (np_arange lo hi) 0%Z = (lo + Z.of_nat i)%Z.
Proof.
  intro Hi. unfold np_arange.
  rewrite (nth_indep _ 0%Z ((fun k => (lo + Z.of_nat k)%Z) 0%nat))
    by (rewrite length_map, length_seq; exact Hi).
  rewrite (map_nth (fun k => (lo + Z.of_nat k)%Z)), seq_nth by exact Hi. reflexivity.
Qed.

Lemma map_nth_in {A : Type} (f : A -> Q) (l : list A) (d : A) (i : nat) :
  (i < length l)%nat -> nth i (map f l) 0 = f (nth i l d).
Proof.
  intro Hi. rewrite (nth_indep _ 0 (f d)) by (rewrite length_map; exact Hi).
  apply map_nth.
Qed.

Lemma zip_with_length (f : Q -> Q -> Q) (a b : list Q) (m : nat) :
  length a = m -> length b = m -> length (zip_with f a b) = m.
Proof.
  revert b m. induction a as [|x a IH]; intros [|y b] m Ha Hb; simpl in *; try lia.
  destruct m as [|m]; [lia|]. f_equal. apply IH; lia.
Qed.

Lemma zip_with_nth (f : Q -> Q -> Q) (a b : list Q) (i : nat) :
  (i < length a)%nat -> (i < length b)%nat ->
  nth i (zip_with f a b) 0 = f (nth i a 0) (nth i b 0).
Proof.
  revert b i. induction a as [|x a IH]; intros [|y b] i Ha Hb; simpl in *; try lia.
  destruct i as [|i]; [reflexivity|]. apply IH; lia.
Qed.

Lemma np_diff_length (a : list Q) : length (np_diff a) = (length a - 1)%nat.
Proof.
  induction a as [|x [|y t] IH]; try reflexivity.
  change (S (length (np_diff (y :: t))) = (length (x :: y :: t) - 1)%nat).
  rewrite IH. simpl. lia.
Qed.

Lemma np_diff_nth (a : list Q) (i : nat) :
  (S i < length a)%nat -> nth i (np_diff a) 0 = nth (S i) a 0 - nth i a 0.
Proof.
  revert i. induction a as [|x [|y t] IH]; intros i Hi; simpl in Hi; try lia.
  destruct i as [|i]; [reflexivity|].
  change (nth i (np_diff (y :: t)) 0 = nth (S i) (y :: t) 0 - nth i (y :: t) 0).
  apply IH. simpl. lia.
Qed.

(** [a[:h]] keeps an array of length [h] whole. *)
Lemma py_slice_whole {A : Type} (l : list A) (h : Z) :
  Z.of_nat (length l) = h -> py_slice l 0 h = l.
Proof.
  intro H. unfold py_slice, slice_bound. rewrite H.
  assert (0 <= h)%Z by lia.
  replace (0 <? 0)%Z with false by reflexivity.
  replace (h <? 0)%Z with false by (symmetry; apply Z.ltb_ge; lia).
  rewrite Z.min_id, Z.min_l by lia. simpl skipn.
  replace (Z.to_nat (h - 0)) with (length l) by lia. apply firstn_all.
Qed.

(** The capital gains column: year [i] gains
    [property_value * (1 + appreciation)^i * appreciation]. *)
Lemma capital_gains_column (pv a : Q) (h : Z) :
  (0 <= h)%Z ->
  let col := py_slice (np_diff (np_scale pv (np_power (1 + a) (np_arange 0 (h + 1))))) 0 h in
  length col = Z.to_nat h /\
  forall i, (i < Z.to_nat h)%nat ->
    nth i col 0 == pv * (1 + a) ^ Z.of_nat i * a.
Proof.
  intros Hh col. subst col.
  assert (Hlen : length (np_scale pv (np_power (1 + a) (np_arange 0 (h + 1))))
                 = S (Z.to_nat h)).
  { unfold np_scale, np_power. rewrite !length_map, np_arange_length. lia. }
  rewrite py_slice_whole by (rewrite np_diff_length, Hlen; lia).
  split; [rewrite np_diff_length, Hlen; lia|].
  intros i Hi. rewrite np_diff_nth by (rewrite Hlen; lia).
  unfold np_scale, np_power.
  rewrite !(map_nth_in (Qmult pv) _ 0) by (rewrite length_map, np_arange_length; lia).
  rewrite !(map_nth_in (Qpower (1 + a)) _ 0%Z) by (rewrite np_arange_length; lia).
  rewrite !np_arange_nth by lia.
  rewrite !Z.add_0_l, Nat2Z.inj_succ. unfold Z.succ.
  destruct (Qeq_dec (1 + a) 0) as [E|E].
  - rewrite E. destruct i as [|i].
    + simpl. setoid_replace a with (-(1)) by lra. ring.
    + rewrite !Qpower_0 by lia. ring.
  - rewrite Qpower_plus by exact E. rewrite Qpower_1_r. ring.
Qed.

(** ** The projectors, turned into equations on their columns *)

Lemma payment_ok_frequency_nonzero
    (principal annual_rate : Q) (years payments_per_year : Z) (pay : Q) :
  calculate_mortgage_payment principal annual_rate years payments_per_year = Ok pay ->
  payments_per_year <> 0%Z.
Proof.
  unfold calculate_mortgage_payment, py_div at 1. intros H E. subst.
  simpl in H. discriminate.
Qed.

Lemma general_outlook_inv (p : Params) (h : Z) (out : TestPropertyCalc.Outlook) :
  TestPropertyCalc.calculate_investment_outlook p h = Ok out ->
  exists pay,
    calculate_mortgage_payment (loan_amount p) (interest_rate p) (loan_term p)
      (payment_frequency p) = Ok pay /\
    (0 <= h)%Z /\ payment_frequency p <> 0%Z /\ general_columns p h pay out.
Proof.
  unfold TestPropertyCalc.calculate_investment_outlook.
  destruct (calculate_mortgage_payment _ _ _ _) as [pay|e] eqn:Epay; [|discriminate].
  cbn [bind]. intro H. exists pay. split; [reflexivity|].
  revert H. unfold general_columns.
  destruct (generate_amortization_schedule _ _ _ _ pay) as [[pm it] pr].
  unfold np_zeros. destruct (h <? 0)%Z eqn:Eh; [discriminate|]. cbn [bind].
  unfold py_floordiv, py_mod.
  destruct (payment_frequency p =? 0)%Z eqn:Epf; [discriminate|]. cbn [bind fst snd].
  destruct (TestPropertyCalc.year_loop _ _ _ _ _ _ _ _) as [ai ap].
  intro H. injection H as <-.
  split; [apply Z.ltb_ge; exact Eh|].
  split; [apply Z.eqb_neq; exact Epf|].
  cbn. repeat split; reflexivity.
Qed.

Lemma general_outlook_returns (p : Params) (h : Z) (pay : Q) :
  calculate_mortgage_payment (loan_amount p) (interest_rate p) (loan_term p)
    (payment_frequency p) = Ok pay ->
  (0 <= h)%Z ->
  returns (TestPropertyCalc.calculate_investment_outlook p h).
Proof.
  intros Hpay Hh. pose proof (payment_ok_frequency_nonzero _ _ _ _ _ Hpay) as Hpf.
  unfold TestPropertyCalc.calculate_investment_outlook, returns.
  rewrite Hpay. cbn [bind].
  destruct (generate_amortization_schedule _ _ _ _ pay) as [[pm it] pr].
  unfold np_zeros. replace (h <? 0)%Z with false by (symmetry; apply Z.ltb_ge; exact Hh).
  cbn [bind]. unfold py_floordiv, py_mod.
  replace (payment_frequency p =? 0)%Z with false by (symmetry; apply Z.eqb_neq; exact Hpf).
  cbn [bind].
  destruct (TestPropertyCalc.year_loop _ _ _ _ _ _ _ _) as [ai ap].
  eexists. reflexivity.
Qed.

(** For a valid loan with a positive rate the generalized projector
    returns a table, whatever the non-negative investment period. *)
Lemma general_outlook_returns_valid (p : Params) (h : Z) :
  valid_loan (loan_amount p) (interest_rate p) (loan_term p) (payment_frequency p) ->
  (0 <= h)%Z ->
  returns (TestPropertyCalc.calculate_investment_outlook p h).
Proof.
  intros Hv Hh. eapply general_outlook_returns; [|exact Hh].
  apply calculate_mortgage_payment_valid. exact Hv.
Qed.

Lemma simple_outlook_inv (p : Params) (out : PropertyCalc.Outlook) :
  PropertyCalc.calculate_investment_outlook p = Ok out ->
  exists pay,
    calculate_mortgage_payment (loan_amount p) (interest_rate p) (loan_term p)
      (payment_frequency p) = Ok pay /\
    simple_columns p pay out.
Proof.
  unfold PropertyCalc.calculate_investment_outlook.
  destruct (calculate_mortgage_payment _ _ _ _) as [pay|e] eqn:Epay; [|discriminate].
  cbn [bind]. intro H. exists pay. split; [reflexivity|].
  revert H. unfold simple_columns.
  destruct (generate_amortization_schedule _ _ _ _ pay) as [[pm it] pr].
  intro H. injection H as <-. cbn. repeat split; reflexivity.
Qed.

(** ** numpy arithmetic, entry by entry *)

Lemma np_add_length (a b : list Q) (m : nat) :
  length a = m -> length b = m -> length (np_add a b) = m.
Proof. apply zip_with_length. Qed.

Lemma np_sub_length (a b : list Q) (m : nat) :
  length a = m -> length b = m -> length (np_sub a b) = m.
Proof. apply zip_with_length. Qed.

Lemma np_add_scalar_length (a : list Q) (c : Q) (m : nat) :
  length a = m -> length (np_add_scalar a c) = m.
Proof. intro H. unfold np_add_scalar. rewrite length_map. exact H. Qed.

Lemma np_scale_length (c : Q) (a : list Q) (m : nat) :
  length a = m -> length (np_scale c a) = m.
Proof. intro H. unfold np_scale. rewrite length_map. exact H. Qed.

Lemma np_neg_times_length (a : list Q) (c : Q) (m : nat) :
  length a = m -> length (np_neg_times a c) = m.
Proof. intro H. unfold np_neg_times. rewrite length_map. exact H. Qed.

Lemma np_power_length (b : Q) (exps : list Z) (m : nat) :
  length exps = m -> length (np_power b exps) = m.
Proof. intro H. unfold np_power. rewrite length_map. exact H. Qed.

Lemma years_length (h : Z) : length (np_arange 1 (h + 1)) = Z.to_nat h.
Proof. rewrite np_arange_length. f_equal. lia. Qed.

Lemma rental_income_array_length (p : Params) (h : Z) :
  length (rental_income_array p h) = Z.to_nat h.
Proof. unfold rental_income_array. rewrite length_map. apply range_length. Qed.

Create HintDb np_len.
#[local] Hint Resolve np_add_length np_sub_length np_add_scalar_length
  np_scale_length np_neg_times_length np_power_length years_length
  rental_income_array_length : np_len.

Lemma np_add_nth (a b : list Q) (m i : nat) :
  length a = m -> length b = m -> (i < m)%nat ->
  nth i (np_add a b) 0 = nth i a 0 + nth i b 0.
Proof. intros Ha Hb Hi. apply zip_with_nth; lia. Qed.

Lemma np_sub_nth (a b : list Q) (m i : nat) :
  length a = m -> length b = m -> (i < m)%nat ->
  nth i (np_sub a b) 0 = nth i a 0 - nth i b 0.
Proof. intros Ha Hb Hi. apply zip_with_nth; lia. Qed.

Lemma np_add_scalar_nth (a : list Q) (c : Q) (m i : nat) :
  length a = m -> (i < m)%nat -> nth i (np_add_scalar a c) 0 = nth i a 0 + c.
Proof.
  intros Ha Hi. unfold np_add_scalar.
  apply (map_nth_in (fun x => x + c) a 0 i). lia.
Qed.

Lemma np_scale_nth (c : Q) (a : list Q) (m i : nat) :
  length a = m -> (i < m)%nat -> nth i (np_scale c a) 0 = c * nth i a 0.
Proof. intros Ha Hi. unfold np_scale. apply (map_nth_in (Qmult c) a 0 i). lia. Qed.

Lemma np_neg_times_nth (a : list Q) (c : Q) (m i : nat) :
  length a = m -> (i < m)%nat -> nth i (np_neg_times a c) 0 = (- nth i a 0) * c.
Proof.
  intros Ha Hi. unfold np_neg_times.
  apply (map_nth_in (fun x => (- x) * c) a 0 i). lia.
Qed.

Lemma escalation_nth (b : Q) (h : Z) (i : nat) :
  (i < Z.to_nat h)%nat ->
  nth i (np_power b (np_arange 1 (h + 1))) 0 = b ^ (Z.of_nat i + 1).
Proof.
  intro Hi. unfold np_power.
  rewrite (map_nth_in (Qpower b) _ 0%Z) by (rewrite years_length; exact Hi).
  rewrite np_arange_nth by lia. f_equal. lia.
Qed.

Lemma rental_income_array_nth (p : Params) (h : Z) (i : nat) :
  (i < Z.to_nat h)%nat ->
  nth i (rental_income_array p h) 0 =
  weekly_rental_income p * 52 * (1 + annual_rental_increase p) ^ Z.of_nat i.
Proof.
  intro Hi. unfold rental_income_array.
  rewrite (map_nth_in _ _ 0%Z) by (rewrite range_length; exact Hi).
  rewrite range_nth by exact Hi. reflexivity.
Qed.

(** ** C9: capital gains *)

(** C9. In every table the generalized projector returns, the capital gain
    of year [i] (from 0 to horizon-1) is
    [property_value * (1 + property_appreciation)^i * property_appreciation]
    (exact arithmetic): a geometric sequence. *)
Theorem capital_gains_geometric (p : Params) (h : Z) (out : TestPropertyCalc.Outlook) :
  TestPropertyCalc.calculate_investment_outlook p h = Ok out ->
  length (TestPropertyCalc.Capital_Gains out) = Z.to_nat h /\
  forall i, (i < Z.to_nat h)%nat ->
    nth i (TestPropertyCalc.Capital_Gains out) 0 ==
    property_value p * (1 + property_appreciation p) ^ Z.of_nat i
    * property_appreciation p.
Proof.
  intro H. destruct (general_outlook_inv p h out H) as (pay & _ & Hh & _ & Hc).
  unfold general_columns in Hc. cbv zeta in Hc.
  destruct Hc as (_ & _ & _ & _ & _ & _ & _ & _ & _ & Hcg & _).
  rewrite Hcg. apply capital_gains_column. exact Hh.
Qed.

Lemma capital_gains_geometric_witness :
  length (TestPropertyCalc.Capital_Gains
            (general_result (TestPropertyCalc.calculate_investment_outlook
                               sample_params 3))) = 3%nat /\
  forall i, (i < 3)%nat ->
    nth i (TestPropertyCalc.Capital_Gains
             (general_result (TestPropertyCalc.calculate_investment_outlook
                                sample_params 3))) 0 ==
    500000 * (1 + (4 # 100)) ^ Z.of_nat i * (4 # 100).
Proof.
  apply (capital_gains_geometric sample_params 3). vm_compute. reflexivity.
Defined.

(** The simple projector has the same capital gains column, over the loan
    term. *)
Lemma simple_gains_form_geometric_sequence (p : Params) (out : PropertyCalc.Outlook) :
  PropertyCalc.calculate_investment_outlook p = Ok out ->
  forall i, (i < Z.to_nat (loan_term p))%nat ->
    nth i (PropertyCalc.Capital_Gains out) 0 ==
    property_value p * (1 + property_appreciation p) ^ Z.of_nat i
    * property_appreciation p.
Proof.
  intros H i Hi. destruct (simple_outlook_inv p out H) as (pay & _ & Hc).
  unfold simple_columns in Hc. cbv zeta in Hc.
  destruct Hc as (_ & _ & _ & _ & _ & _ & _ & _ & Hcg & _).
  rewrite Hcg. apply capital_gains_column; lia.
Qed.

(** ** C10: rental income and capital gains do not depend on the loan *)

(** C10. Two parameter sets with the same weekly rental income, annual
    rental increase, property value and property appreciation (whatever
    their loans and their other entries) get, over the same investment
    period, the same rental income column and the same capital gains
    column from the generalized projector. *)
Theorem rental_and_gains_ignore_loan
    (p1 p2 : Params) (h : Z) (out1 out2 : TestPropertyCalc.Outlook) :
  weekly_rental_income p1 = weekly_rental_income p2 ->
  annual_rental_increase p1 = annual_rental_increase p2 ->
  property_value p1 = property_value p2 ->
  property_appreciation p1 = property_appreciation p2 ->
  TestPropertyCalc.calculate_investment_outlook p1 h = Ok out1 ->
  TestPropertyCalc.calculate_investment_outlook p2 h = Ok out2 ->
  TestPropertyCalc.Rental_Income out1 = TestPropertyCalc.Rental_Income out2 /\
  TestPropertyCalc.Capital_Gains out1 = TestPropertyCalc.Capital_Gains out2.
Proof.
  intros Hw Hr Hv Ha H1 H2.
  destruct (general_outlook_inv p1 h out1 H1) as (pay1 & _ & _ & _ & Hc1).
  destruct (general_outlook_inv p2 h out2 H2) as (pay2 & _ & _ & _ & Hc2).
  unfold general_columns in Hc1, Hc2. cbv zeta in Hc1, Hc2.
  destruct Hc1 as (_ & Hr1 & _ & _ & _ & _ & _ & _ & _ & Hg1 & _).
  destruct Hc2 as (_ & Hr2 & _ & _ & _ & _ & _ & _ & _ & Hg2 & _).
  rewrite Hr1, Hr2, Hg1, Hg2. unfold rental_income_array.
  rewrite Hw, Hr, Hv, Ha. split; reflexivity.
Qed.

Lemma rental_and_gains_ignore_loan_witness :
  TestPropertyCalc.Rental_Income
    (general_result (TestPropertyCalc.calculate_investment_outlook sample_params 3)) =
  TestPropertyCalc.Rental_Income
    (general_result (TestPropertyCalc.calculate_investment_outlook
                       sample_params_other_loan 3)) /\
  TestPropertyCalc.Capital_Gains
    (general_result (TestPropertyCalc.calculate_investment_outlook sample_params 3)) =
  TestPropertyCalc.Capital_Gains
    (general_result (TestPropertyCalc.calculate_investment_outlook
                       sample_params_other_loan 3)).
Proof.
  apply (rental_and_gains_ignore_loan sample_params sample_params_other_loan 3);
    try reflexivity; vm_compute; reflexivity.
Defined.

(** ** C5: other expenses *)

(** The other-expenses column as an expression of the parameters it reads. *)
Lemma other_expenses_nth (p : Params) (h : Z) (rent : list Q) (i : nat) :
  length rent = Z.to_nat h -> (i < Z.to_nat h)%nat ->
  let esc := np_power (1 + annual_expense_increase p) (np_arange 1 (h + 1)) in
  nth i
    (np_add_scalar
       (np_add
          (np_add
             (np_add
                (np_add_scalar
                   (np_add (np_scale (council_rates p) esc)
                      (np_scale (water_rates p) esc))
                   (land_tax p))
                (np_scale (strata_fees p) esc))
             (np_scale (insurance p) esc))
          (np_scale (property_manager_rate p) rent))
       (repairs_and_maintenance p)) 0
  == council_rates p * (1 + annual_expense_increase p) ^ (Z.of_nat i + 1)
     + water_rates p * (1 + annual_expense_increase p) ^ (Z.of_nat i + 1)
     + strata_fees p * (1 + annual_expense_increase p) ^ (Z.of_nat i + 1)
     + insurance p * (1 + annual_expense_increase p) ^ (Z.of_nat i + 1)
     + land_tax p + repairs_and_maintenance p
     + property_manager_rate p * nth i rent 0.
Proof.
  intros Hrent Hi esc.
  assert (Hesc : length esc = Z.to_nat h) by (subst esc; auto with np_len).
  rewrite (np_add_scalar_nth _ _ (Z.to_nat h)) by auto 10 with np_len.
  rewrite (np_add_nth _ _ (Z.to_nat h)) by auto 10 with np_len.
  rewrite (np_add_nth _ _ (Z.to_nat h)) by auto 10 with np_len.
  rewrite (np_add_nth _ _ (Z.to_nat h)) by auto 10 with np_len.
  rewrite (np_add_scalar_nth _ _ (Z.to_nat h)) by auto 10 with np_len.
  rewrite (np_add_nth _ _ (Z.to_nat h)) by auto 10 with np_len.
  rewrite !(np_scale_nth _ _ (Z.to_nat h)) by auto 10 with np_len.
  subst esc. rewrite escalation_nth by exact Hi. ring.
Qed.

(** C5. In every table the generalized projector returns, for every year
    [i]: the rental income is
    [weekly_rental_income * 52 * (1 + annual_rental_increase)^i]; the other
    expenses are council rates, water rates, strata fees and insurance, each
    times [(1 + annual_expense_increase)^(i+1)], plus the flat land tax and
    repairs and maintenance, plus [property_manager_rate] times the rental
    income of the year. Interest, principal and depreciation are no part of
    it: another parameter set with the same cost items, rates of increase
    and rental income gets the same column, whatever its loan and its
    depreciation. *)
Theorem other_expenses_formula (p : Params) (h : Z) (out : TestPropertyCalc.Outlook) :
  TestPropertyCalc.calculate_investment_outlook p h = Ok out ->
  length (TestPropertyCalc.Rental_Income out) = Z.to_nat h /\
  length (TestPropertyCalc.Other_Expenses out) = Z.to_nat h /\
  (forall i, (i < Z.to_nat h)%nat ->
     nth i (TestPropertyCalc.Rental_Income out) 0 ==
       weekly_rental_income p * 52 * (1 + annual_rental_increase p) ^ Z.of_nat i /\
     nth i (TestPropertyCalc.Other_Expenses out) 0 ==
       council_rates p * (1 + annual_expense_increase p) ^ (Z.of_nat i + 1)
       + water_rates p * (1 + annual_expense_increase p) ^ (Z.of_nat i + 1)
       + strata_fees p * (1 + annual_expense_increase p) ^ (Z.of_nat i + 1)
       + insurance p * (1 + annual_expense_increase p) ^ (Z.of_nat i + 1)
       + land_tax p + repairs_and_maintenance p
       + property_manager_rate p * nth i (TestPropertyCalc.Rental_Income out) 0) /\
  (forall p' out',
     TestPropertyCalc.calculate_investment_outlook p' h = Ok out' ->
     council_rates p' = council_rates p -> water_rates p' = water_rates p ->
     strata_fees p' = strata_fees p -> insurance p' = insurance p ->
     land_tax p' = land_tax p ->
     repairs_and_maintenance p' = repairs_and_maintenance p ->
     property_manager_rate p' = property_manager_rate p ->
     annual_expense_increase p' = annual_expense_increase p ->
     weekly_rental_income p' = weekly_rental_income p ->
     annual_rental_increase p' = annual_rental_increase p ->
     TestPropertyCalc.Other_Expenses out' = TestPropertyCalc.Other_Expenses out).
Proof.
  intro H. destruct (general_outlook_inv p h out H) as (pay & _ & Hh & _ & Hc).
  unfold general_columns in Hc. cbv zeta in Hc.
  destruct Hc as (_ & Hrent & _ & Hoth & _).
  assert (Hlen : length (TestPropertyCalc.Rental_Income out) = Z.to_nat h)
    by (rewrite Hrent; apply rental_income_array_length).
  split; [exact Hlen|]. split; [rewrite Hoth; auto 10 with np_len|].
  split.
  - intros i Hi. split.
    + rewrite Hrent, rental_income_array_nth by exact Hi. reflexivity.
    + rewrite Hoth. apply other_expenses_nth; assumption.
  - intros p' out' H' E1 E2 E3 E4 E5 E6 E7 E8 E9 E10.
    destruct (general_outlook_inv p' h out' H') as (pay' & _ & _ & _ & Hc').
    unfold general_columns in Hc'. cbv zeta in Hc'.
    destruct Hc' as (_ & Hrent' & _ & Hoth' & _).
    rewrite Hoth', Hoth, Hrent', Hrent. unfold rental_income_array.
    rewrite E1, E2, E3, E4, E5, E6, E7, E8, E9, E10. reflexivity.
Qed.

Lemma other_expenses_formula_witness :
  nth 1 (TestPropertyCalc.Other_Expenses
           (general_result (TestPropertyCalc.calculate_investment_outlook
                              sample_params 3))) 0 ==
  700 * (1 + (2 # 100)) ^ 2 + 550 * (1 + (2 # 100)) ^ 2
  + 500 * (1 + (2 # 100)) ^ 2 + 1250 * (1 + (2 # 100)) ^ 2
  + 0 + 2000
  + (7 # 100) * nth 1 (TestPropertyCalc.Rental_Income
                         (general_result (TestPropertyCalc.calculate_investment_outlook
                                            sample_params 3))) 0.
Proof.
  assert (E : TestPropertyCalc.calculate_investment_outlook sample_params 3 =
              Ok (general_result (TestPropertyCalc.calculate_investment_outlook
                                    sample_params 3)))
    by (vm_compute; reflexivity).
  destruct (other_expenses_formula sample_params 3 _ E) as (_ & _ & Hf & _).
  destruct (Hf 1%nat ltac:(simpl; lia)) as (_ & Ho). exact Ho.
Defined.

(** ** The yearly aggregation loop *)

Lemma set_item_length (l : list Q) (i : nat) (v : Q) :
  length (set_item l i v) = length l.
Proof.
  revert i. induction l as [|x l IH]; intros [|i]; simpl; try reflexivity.
  f_equal. apply IH.
Qed.

Lemma set_item_nth_same (l : list Q) (i : nat) (v : Q) :
  (i < length l)%nat -> nth i (set_item l i v) 0 = v.
Proof.
  revert i. induction l as [|x l IH]; intros [|i] Hi; simpl in *; try lia.
  - reflexivity.
  - apply IH. lia.
Qed.

Lemma set_item_nth_other (l : list Q) (i j : nat) (v : Q) :
  i <> j -> nth j (set_item l i v) 0 = nth j l 0.
Proof.
  revert i j. induction l as [|x l IH]; intros [|i] [|j] Hij; simpl; try reflexivity.
  - lia.
  - apply IH. lia.
Qed.

Lemma repeat_nth_zero (m j : nat) : nth j (repeat 0 m) 0 = 0.
Proof.
  revert j. induction m as [|m IH]; intros [|j]; simpl; try reflexivity. apply IH.
Qed.

Section YearLoopFacts.

Variables (interests principals : list Q).
Variables (pf ny rem : Z).

Local Abbreviation yb := (TestPropertyCalc.year_bounds pf ny rem).
Local Abbreviation loop := (TestPropertyCalc.year_loop interests principals pf ny rem).

Lemma year_loop_length (idx : list Z) (ai ap : list Q) :
  length (fst (loop idx ai ap)) = length ai /\
  length (snd (loop idx ai ap)) = length ap.
Proof.
  revert ai ap. induction idx as [|i idx IH]; intros ai ap; simpl; [tauto|].
  destruct (yb i) as [[s e]|]; [|simpl; tauto].
  destruct (IH (set_item ai (Z.to_nat i) (np_sum (py_slice interests s e)))
               (set_item ap (Z.to_nat i) (np_sum (py_slice principals s e))))
    as (H1 & H2).
  rewrite H1, H2, !set_item_length. tauto.
Qed.

(** An entry the loop does not visit, or visits only after its [break],
    keeps its value. *)
Lemma year_loop_untouched (l : list nat) (ai ap : list Q) (j : nat) :
  ~ In j l \/ yb (Z.of_nat j) = None ->
  nth j (fst (loop (map Z.of_nat l) ai ap)) 0 = nth j ai 0 /\
  nth j (snd (loop (map Z.of_nat l) ai ap)) 0 = nth j ap 0.
Proof.
  revert ai ap. induction l as [|i l IH]; intros ai ap Hj; simpl; [tauto|].
  destruct (yb (Z.of_nat i)) as [[s e]|] eqn:E; [|simpl; tauto].
  assert (Hij : i <> j).
  { intro Eq. subst j. destruct Hj as [Hj|Hj]; [apply Hj; left; reflexivity|congruence]. }
  assert (Hj' : ~ In j l \/ yb (Z.of_nat j) = None).
  { destruct Hj as [Hj|Hj]; [left; intro; apply Hj; right; assumption|right; exact Hj]. }
  destruct (IH (set_item ai (Z.to_nat (Z.of_nat i)) (np_sum (py_slice interests s e)))
               (set_item ap (Z.to_nat (Z.of_nat i)) (np_sum (py_slice principals s e)))
               Hj') as (H1 & H2).
  rewrite H1, H2, Nat2Z.id, !set_item_nth_other by exact Hij. tauto.
Qed.

(** An entry the loop reaches before any [break] gets the sums of its
    slice. *)
Lemma year_loop_visited (m a : nat) (ai ap : list Q) (j : nat) (s e : Z) :
  (a <= j < a + m)%nat ->
  (forall i, (a <= i <= j)%nat -> yb (Z.of_nat i) <> None) ->
  yb (Z.of_nat j) = Some (s, e) ->
  (j < length ai)%nat -> (j < length ap)%nat ->
  nth j (fst (loop (map Z.of_nat (seq a m)) ai ap)) 0
    = np_sum (py_slice interests s e) /\
  nth j (snd (loop (map Z.of_nat (seq a m)) ai ap)) 0
    = np_sum (py_slice principals s e).
Proof.
  revert a ai ap. induction m as [|m IH]; intros a ai ap Hj Hall Hyb Hai Hap; [lia|].
  simpl. destruct (yb (Z.of_nat a)) as [[s0 e0]|] eqn:E.
  - destruct (Nat.eq_dec j a) as [->|Hne].
    + assert (Es : (s0, e0) = (s, e)) by congruence. injection Es as -> ->.
      destruct (year_loop_untouched (seq (S a) m)
                  (set_item ai (Z.to_nat (Z.of_nat a)) (np_sum (py_slice interests s e)))
                  (set_item ap (Z.to_nat (Z.of_nat a)) (np_sum (py_slice principals s e)))
                  a) as (H1 & H2).
      { left. rewrite in_seq. lia. }
      rewrite H1, H2, Nat2Z.id, !set_item_nth_same by assumption. tauto.
    + apply IH; try assumption; try lia.
      * intros i Hi. apply Hall. lia.
      * rewrite set_item_length. exact Hai.
      * rewrite set_item_length. exact Hap.
  - exfalso. apply (Hall a); [lia|exact E].
Qed.

End YearLoopFacts.

(** The loop never emits more records than the term has periods. *)
Lemma schedule_lengths
    (principal annual_rate : Q) (years payments_per_year : Z) (pay : Q) :
  let '(payments, interests, principals) :=
    generate_amortization_schedule principal annual_rate years payments_per_year pay in
  length interests = length payments /\
  length principals = length payments /\
  (length payments <= Z.to_nat (years * payments_per_year))%nat.
Proof.
  unfold generate_amortization_schedule.
  rewrite amortization_final_after, amortization_after_records.
  cbn [payment_list interest_list principal_list]. rewrite !length_map.
  split; [reflexivity|]. split; [reflexivity|]. apply records_length_le.
Qed.

(** From the loan term on, the aggregation loop has reached its [break]. *)
Lemma year_bounds_after_term (pf term len i : Z) :
  pf <> 0%Z -> (0 <= len <= Z.max 0 (term * pf))%Z -> (term <= i)%Z -> (0 <= i)%Z ->
  TestPropertyCalc.year_bounds pf (len / pf) (len mod pf) i = None.
Proof.
  intros Hpf Hlen Hterm Hi. unfold TestPropertyCalc.year_bounds.
  pose proof (Z.div_mod len pf Hpf) as Hdm.
  assert (Hcase : (0 < pf \/ pf < 0)%Z) by lia.
  destruct Hcase as [Hpos|Hneg].
  - pose proof (Z.mod_pos_bound len pf Hpos) as Hb.
    destruct (i <? len / pf)%Z eqn:E1.
    + exfalso. apply Z.ltb_lt in E1. nia.
    + destruct (i =? len / pf)%Z eqn:E2; [|reflexivity].
      destruct (0 <? len mod pf)%Z eqn:E3; [|reflexivity].
      exfalso. apply Z.eqb_eq in E2. apply Z.ltb_lt in E3. nia.
  - pose proof (Z.mod_neg_bound len pf Hneg) as Hb.
    destruct (i <? len / pf)%Z eqn:E1.
    + exfalso. apply Z.ltb_lt in E1. nia.
    + destruct (i =? len / pf)%Z eqn:E2; [|reflexivity].
      destruct (0 <? len mod pf)%Z eqn:E3; [|reflexivity].
      exfalso. apply Z.ltb_lt in E3. lia.
Qed.

Lemma py_slice_tail {A : Type} (l : list A) (s e : Z) :
  (0 <= s <= Z.of_nat (length l))%Z -> e = Z.of_nat (length l) ->
  py_slice l s e = skipn (Z.to_nat s) l.
Proof.
  intros Hs ->. unfold py_slice, slice_bound.
  replace (s <? 0)%Z with false by (symmetry; apply Z.ltb_ge; lia).
  replace (Z.of_nat (length l) <? 0)%Z with false by (symmetry; apply Z.ltb_ge; lia).
  rewrite Z.min_id, Z.min_l by lia.
  apply firstn_all2. rewrite length_skipn. lia.
Qed.

Lemma general_loan_columns (p : Params) (h : Z) (pay : Q)
    (out : TestPropertyCalc.Outlook) :
  general_columns p h pay out ->
  let sched := generate_amortization_schedule (loan_amount p) (interest_rate p)
                 (loan_term p) (payment_frequency p) pay in
  let len := Z.of_nat (length (fst (fst sched))) in
  let pf := payment_frequency p in
  let looped :=
    TestPropertyCalc.year_loop (snd (fst sched)) (snd sched) pf
      (len / pf)%Z (len mod pf)%Z (map Z.of_nat (seq 0 (Z.to_nat h)))
      (repeat 0 (Z.to_nat h)) (repeat 0 (Z.to_nat h)) in
  TestPropertyCalc.Interest_Payment out = fst looped /\
  TestPropertyCalc.Principal_Payment out = snd looped /\
  length (TestPropertyCalc.Interest_Payment out) = Z.to_nat h /\
  length (TestPropertyCalc.Principal_Payment out) = Z.to_nat h.
Proof.
  intros Hc sched len pf looped. unfold general_columns in Hc. cbv zeta in Hc.
  destruct Hc as (_ & _ & Hloop & _). fold sched len pf in Hloop.
  unfold range in Hloop. fold looped in Hloop.
  assert (H1 : TestPropertyCalc.Interest_Payment out = fst looped)
    by (rewrite <- Hloop; reflexivity).
  assert (H2 : TestPropertyCalc.Principal_Payment out = snd looped)
    by (rewrite <- Hloop; reflexivity).
  split; [exact H1|]. split; [exact H2|].
  rewrite H1, H2. subst looped.
  destruct (year_loop_length (snd (fst sched)) (snd sched) pf (len / pf)%Z
              (len mod pf)%Z (map Z.of_nat (seq 0 (Z.to_nat h)))
              (repeat 0 (Z.to_nat h)) (repeat 0 (Z.to_nat h))) as (L1 & L2).
  rewrite L1, L2, repeat_length. tauto.
Qed.

(** ** C6: the years after the loan *)

(** C6. In every table the generalized projector returns for an investment
    period longer than the loan term, every year of index [>= loan_term]
    has interest 0 and principal 0, so its total cash outflow is its other
    expenses. And when the schedule stops inside a year (the number of
    payments made leaves a remainder), the boundary year gets the sums of
    exactly those remaining periods. *)
Theorem years_after_term_have_no_loan_payments
    (p : Params) (h : Z) (out : TestPropertyCalc.Outlook) :
  TestPropertyCalc.calculate_investment_outlook p h = Ok out ->
  (loan_term p < h)%Z ->
  (forall i, (loan_term p <= Z.of_nat i)%Z -> (i < Z.to_nat h)%nat ->
     nth i (TestPropertyCalc.Interest_Payment out) 0 = 0 /\
     nth i (TestPropertyCalc.Principal_Payment out) 0 = 0 /\
     nth i (TestPropertyCalc.Total_Cash_Outflows out) 0 ==
       nth i (TestPropertyCalc.Other_Expenses out) 0) /\
  (forall pay payments interests principals,
     calculate_mortgage_payment (loan_amount p) (interest_rate p) (loan_term p)
       (payment_frequency p) = Ok pay ->
     generate_amortization_schedule (loan_amount p) (interest_rate p) (loan_term p)
       (payment_frequency p) pay = (payments, interests, principals) ->
     let len := Z.of_nat (length payments) in
     let pf := payment_frequency p in
     forall i, Z.of_nat i = (len / pf)%Z -> (0 < len mod pf)%Z ->
       (i < Z.to_nat h)%nat ->
       nth i (TestPropertyCalc.Interest_Payment out) 0 =
         np_sum (skipn (Z.to_nat (Z.of_nat i * pf)) interests) /\
       nth i (TestPropertyCalc.Principal_Payment out) 0 =
         np_sum (skipn (Z.to_nat (Z.of_nat i * pf)) principals) /\
       length (skipn (Z.to_nat (Z.of_nat i * pf)) interests) = Z.to_nat (len mod pf) /\
       length (skipn (Z.to_nat (Z.of_nat i * pf)) principals) = Z.to_nat (len mod pf)).
Proof.
  intros H Hlt.
  destruct (general_outlook_inv p h out H) as (pay & Hpay & Hh & Hpf & Hc).
  pose proof (general_loan_columns p h pay out Hc) as Hl. cbv zeta in Hl.
  destruct Hl as (HI & HP & LI & LP).
  pose proof (schedule_lengths (loan_amount p) (interest_rate p) (loan_term p)
                (payment_frequency p) pay) as Hs.
  destruct (generate_amortization_schedule _ _ _ _ pay) as [[pm it] pr] eqn:Es.
  cbn [fst snd] in HI, HP. destruct Hs as (Lit & Lpr & Lpm).
  split.
  - intros i Hi1 Hi2.
    assert (Hnone : TestPropertyCalc.year_bounds (payment_frequency p)
                      (Z.of_nat (length pm) / payment_frequency p)
                      (Z.of_nat (length pm) mod payment_frequency p)
                      (Z.of_nat i) = None).
    { apply (year_bounds_after_term _ (loan_term p)); try assumption; lia. }
    destruct (year_loop_untouched it pr (payment_frequency p)
                (Z.of_nat (length pm) / payment_frequency p)
                (Z.of_nat (length pm) mod payment_frequency p)
                (seq 0 (Z.to_nat h)) (repeat 0 (Z.to_nat h)) (repeat 0 (Z.to_nat h))
                i (or_intror Hnone)) as (Z1 & Z2).
    rewrite repeat_nth_zero in Z1, Z2. rewrite <- HI in Z1. rewrite <- HP in Z2.
    split; [exact Z1|]. split; [exact Z2|].
    unfold general_columns in Hc. cbv zeta in Hc.
    destruct Hc as (_ & Hrent & _ & Hoth & Htot & _).
    assert (LO : length (TestPropertyCalc.Other_Expenses out) = Z.to_nat h).
    { rewrite Hoth, Hrent. auto 10 with np_len. }
    rewrite Htot.
    rewrite (np_add_nth _ _ (Z.to_nat h)) by auto with np_len.
    rewrite (np_add_nth _ _ (Z.to_nat h)) by auto with np_len.
    rewrite Z1, Z2. ring.
  - intros pay' payments interests principals Hpay' Hs' len pf i Hi Hrem Hih.
    assert (pay' = pay) by congruence. subst pay'.
    rewrite Es in Hs'. injection Hs' as <- <- <-. subst len pf.
    set (len := Z.of_nat (length pm)) in *. set (pf := payment_frequency p) in *.
    pose proof (Z.div_mod len pf Hpf) as Hdm.
    assert (Hpos : (0 < pf)%Z).
    { destruct (Z_lt_le_dec 0 pf) as [Hp|Hn]; [exact Hp|].
      pose proof (Z.mod_neg_bound len pf ltac:(lia)). lia. }
    pose proof (Z.mod_pos_bound len pf Hpos) as Hb.
    assert (Hyb : TestPropertyCalc.year_bounds pf (len / pf) (len mod pf) (Z.of_nat i)
                  = Some ((Z.of_nat i * pf)%Z, (Z.of_nat i * pf + len mod pf)%Z)).
    { unfold TestPropertyCalc.year_bounds.
      replace (Z.of_nat i <? len / pf)%Z with false by (symmetry; apply Z.ltb_ge; lia).
      replace (Z.of_nat i =? len / pf)%Z with true by (symmetry; apply Z.eqb_eq; lia).
      replace (0 <? len mod pf)%Z with true by (symmetry; apply Z.ltb_lt; lia).
      reflexivity. }
    assert (Hall : forall j, (0 <= j <= i)%nat ->
              TestPropertyCalc.year_bounds pf (len / pf) (len mod pf) (Z.of_nat j)
              <> None).
    { intros j Hj. destruct (Nat.eq_dec j i) as [->|Hne]; [rewrite Hyb; discriminate|].
      unfold TestPropertyCalc.year_bounds.
      replace (Z.of_nat j <? len / pf)%Z with true by (symmetry; apply Z.ltb_lt; lia).
      discriminate. }
    destruct (year_loop_visited it pr pf (len / pf)%Z (len mod pf)%Z (Z.to_nat h) 0
                (repeat 0 (Z.to_nat h)) (repeat 0 (Z.to_nat h)) i
                (Z.of_nat i * pf)%Z (Z.of_nat i * pf + len mod pf)%Z
                ltac:(lia) Hall Hyb) as (V1 & V2);
      try (rewrite repeat_length; exact Hih).
    rewrite <- HI in V1. rewrite <- HP in V2.
    assert (Hend : (Z.of_nat i * pf + len mod pf)%Z = len) by lia.
    rewrite py_slice_tail in V1 by (fold len; rewrite Lit; fold len; lia).
    rewrite py_slice_tail in V2 by (fold len; rewrite Lpr; fold len; lia).
    split; [exact V1|]. split; [exact V2|].
    rewrite !length_skipn, Lit, Lpr. fold len. lia.
Qed.

Lemma years_after_term_have_no_loan_payments_witness :
  nth 1 (TestPropertyCalc.Interest_Payment
           (general_result (TestPropertyCalc.calculate_investment_outlook
                              sample_params 3))) 0 = 0 /\
  nth 1 (TestPropertyCalc.Principal_Payment
           (general_result (TestPropertyCalc.calculate_investment_outlook
                              sample_params 3))) 0 = 0 /\
  nth 1 (TestPropertyCalc.Total_Cash_Outflows
           (general_result (TestPropertyCalc.calculate_investment_outlook
                              sample_params 3))) 0 ==
  nth 1 (TestPropertyCalc.Other_Expenses
           (general_result (TestPropertyCalc.calculate_investment_outlook
                              sample_params 3))) 0.
Proof.
  assert (E : TestPropertyCalc.calculate_investment_outlook sample_params 3 =
              Ok (general_result (TestPropertyCalc.calculate_investment_outlook
                                    sample_params 3)))
    by (vm_compute; reflexivity).
  destruct (years_after_term_have_no_loan_payments sample_params 3 _ E
              ltac:(reflexivity)) as (Hz & _).
  apply (Hz 1%nat); [simpl; lia|simpl; lia].
Defined.

(** ** C8: the simple projector against the generalized one *)

Lemma py_slice_to_end {A : Type} (l : list A) (s e : Z) :
  (0 <= s <= Z.of_nat (length l))%Z -> (Z.of_nat (length l) <= e)%Z ->
  py_slice l s e = skipn (Z.to_nat s) l.
Proof.
  intros Hs He. unfold py_slice, slice_bound.
  replace (s <? 0)%Z with false by (symmetry; apply Z.ltb_ge; lia).
  replace (e <? 0)%Z with false by (symmetry; apply Z.ltb_ge; lia).
  rewrite (Z.min_l s), (Z.min_r e) by lia.
  apply firstn_all2. rewrite length_skipn. lia.
Qed.

Lemma py_slice_beyond {A : Type} (l : list A) (s e : Z) :
  (Z.of_nat (length l) <= s)%Z -> py_slice l s e = [].
Proof.
  intros Hs. unfold py_slice, slice_bound.
  replace (s <? 0)%Z with false by (symmetry; apply Z.ltb_ge; lia).
  rewrite (Z.min_r s) by lia.
  replace (Z.to_nat _) with 0%nat; [reflexivity|].
  destruct (e <? 0)%Z eqn:E; [apply Z.ltb_lt in E|apply Z.ltb_ge in E]; lia.
Qed.

Lemma py_slice_nil {A : Type} (s e : Z) : py_slice (@nil A) s e = [].
Proof. unfold py_slice. rewrite skipn_nil, firstn_nil. reflexivity. Qed.

(** Over zero-initialised arrays, the aggregation loop of the generalized
    projector computes the year slices the simple projector sums. *)
Lemma year_loop_entry (it pr : list Q) (pf : Z) (m j : nat) :
  pf <> 0%Z -> length pr = length it ->
  (0 < pf)%Z \/ it = [] ->
  (j < m)%nat ->
  let len := Z.of_nat (length it) in
  let looped :=
    TestPropertyCalc.year_loop it pr pf (len / pf)%Z (len mod pf)%Z
      (map Z.of_nat (seq 0 m)) (repeat 0 m) (repeat 0 m) in
  nth j (fst looped) 0 =
    np_sum (py_slice it (Z.of_nat j * pf) ((Z.of_nat j + 1) * pf)) /\
  nth j (snd looped) 0 =
    np_sum (py_slice pr (Z.of_nat j * pf) ((Z.of_nat j + 1) * pf)).
Proof.
  intros Hpf Hlen Hcase Hj len looped. subst looped.
  pose proof (Z.div_mod len pf Hpf) as Hdm.
  destruct (TestPropertyCalc.year_bounds pf (len / pf) (len mod pf) (Z.of_nat j))
    as [[s e]|] eqn:Hyb.
  - (* the year is visited *)
    assert (Hall : forall i, (0 <= i <= j)%nat ->
              TestPropertyCalc.year_bounds pf (len / pf) (len mod pf) (Z.of_nat i)
              <> None).
    { intros i Hi. destruct (Nat.eq_dec i j) as [->|Hne]; [rewrite Hyb; discriminate|].
      revert Hyb. unfold TestPropertyCalc.year_bounds.
      destruct (Z.of_nat j <? len / pf)%Z eqn:E1.
      - intros _. apply Z.ltb_lt in E1.
        replace (Z.of_nat i <? len / pf)%Z with true by (symmetry; apply Z.ltb_lt; lia).
        discriminate.
      - destruct (Z.of_nat j =? len / pf)%Z eqn:E2; [|discriminate].
        intros _. apply Z.eqb_eq in E2.
        replace (Z.of_nat i <? len / pf)%Z with true by (symmetry; apply Z.ltb_lt; lia).
        discriminate. }
    destruct (year_loop_visited it pr pf (len / pf)%Z (len mod pf)%Z m 0
                (repeat 0 m) (repeat 0 m) j s e ltac:(lia) Hall Hyb) as (V1 & V2);
      try (rewrite repeat_length; exact Hj).
    rewrite V1, V2. revert Hyb. unfold TestPropertyCalc.year_bounds.
    destruct (Z.of_nat j <? len / pf)%Z eqn:E1.
    + intro E. injection E as <- <-. split; reflexivity.
    + destruct (Z.of_nat j =? len / pf)%Z eqn:E2; [|discriminate].
      destruct (0 <? len mod pf)%Z eqn:E3; [|discriminate].
      cbn [andb]. intro E. injection E as <- <-.
      apply Z.eqb_eq in E2. apply Z.ltb_lt in E3.
      assert (Hpos : (0 < pf)%Z).
      { destruct (Z_lt_le_dec 0 pf) as [Hp|Hn]; [exact Hp|].
        pose proof (Z.mod_neg_bound len pf ltac:(lia)). lia. }
      pose proof (Z.mod_pos_bound len pf Hpos) as Hb.
      rewrite !(py_slice_to_end it), !(py_slice_to_end pr)
        by (rewrite ?Hlen; fold len; nia).
      split; reflexivity.
  - (* the loop has stopped before this year *)
    destruct (year_loop_untouched it pr pf (len / pf)%Z (len mod pf)%Z (seq 0 m)
                (repeat 0 m) (repeat 0 m) j (or_intror Hyb)) as (U1 & U2).
    rewrite U1, U2, !repeat_nth_zero.
    destruct Hcase as [Hpos|Hnil].
    + pose proof (Z.mod_pos_bound len pf Hpos) as Hb.
      assert (Hs : (len <= Z.of_nat j * pf)%Z).
      { revert Hyb. unfold TestPropertyCalc.year_bounds.
        destruct (Z.of_nat j <? len / pf)%Z eqn:E1; [discriminate|].
        apply Z.ltb_ge in E1.
        destruct (Z.of_nat j =? len / pf)%Z eqn:E2.
        - destruct (0 <? len mod pf)%Z eqn:E3; [discriminate|].
          intros _. apply Z.eqb_eq in E2. apply Z.ltb_ge in E3. nia.
        - intros _. apply Z.eqb_neq in E2. nia. }
      rewrite (py_slice_beyond it), (py_slice_beyond pr)
        by (rewrite ?Hlen; fold len; exact Hs).
      split; reflexivity.
    + assert (pr = []) by (destruct pr; [reflexivity|subst it; discriminate]).
      subst it pr. rewrite !py_slice_nil. split; reflexivity.
Qed.

(** The expenses column of the simple projector: interest, the other
    expenses, and depreciation. *)
Lemma simple_total_nth (p : Params) (h : Z) (ai rent : list Q) (i : nat) :
  length ai = Z.to_nat h -> length rent = Z.to_nat h -> (i < Z.to_nat h)%nat ->
  let esc := np_power (1 + annual_expense_increase p) (np_arange 1 (h + 1)) in
  nth i
    (np_add_scalar
       (np_add_scalar
          (np_add
             (np_add
                (np_add
                   (np_add_scalar
                      (np_add
                         (np_add ai (np_scale (council_rates p) esc))
                         (np_scale (water_rates p) esc))
                      (land_tax p))
                   (np_scale (strata_fees p) esc))
                (np_scale (insurance p) esc))
             (np_scale (property_manager_rate p) rent))
          (repairs_and_maintenance p))
       (depreciation p)) 0
  == nth i ai 0
     + (council_rates p * (1 + annual_expense_increase p) ^ (Z.of_nat i + 1)
        + water_rates p * (1 + annual_expense_increase p) ^ (Z.of_nat i + 1)
        + strata_fees p * (1 + annual_expense_increase p) ^ (Z.of_nat i + 1)
        + insurance p * (1 + annual_expense_increase p) ^ (Z.of_nat i + 1)
        + land_tax p + repairs_and_maintenance p
        + property_manager_rate p * nth i rent 0)
     + depreciation p.
Proof.
  intros Hai Hrent Hi esc.
  assert (Hesc : length esc = Z.to_nat h) by (subst esc; auto with np_len).
  rewrite (np_add_scalar_nth _ _ (Z.to_nat h)) by auto 12 with np_len.
  rewrite (np_add_scalar_nth _ _ (Z.to_nat h)) by auto 12 with np_len.
  rewrite (np_add_nth _ _ (Z.to_nat h)) by auto 12 with np_len.
  rewrite (np_add_nth _ _ (Z.to_nat h)) by auto 12 with np_len.
  rewrite (np_add_nth _ _ (Z.to_nat h)) by auto 12 with np_len.
  rewrite (np_add_scalar_nth _ _ (Z.to_nat h)) by auto 12 with np_len.
  rewrite (np_add_nth _ _ (Z.to_nat h)) by auto 12 with np_len.
  rewrite (np_add_nth _ _ (Z.to_nat h)) by auto 12 with np_len.
  rewrite !(np_scale_nth _ _ (Z.to_nat h)) by auto 12 with np_len.
  subst esc. rewrite escalation_nth by exact Hi. ring.
Qed.

(** C8, as the code has it. When the investment period is the loan term,
    the two projectors return the same years, rental income, interest,
    principal and capital gains columns (the same computations), with or
    without a remainder of periods. In exact arithmetic they also return
    the same tax benefit (the two add the expenses in different orders, so
    nothing is claimed of its last place on binary64). Their final net gain/loss
    differs: the generalized projector takes the principal repayments out
    of the cash flow where the simple one takes the depreciation out, so in
    exact arithmetic, each year,
    final(generalized) = final(simple) + depreciation - principal paid. *)
Theorem simple_projector_special_case
    (p : Params) (outS : PropertyCalc.Outlook) (outG : TestPropertyCalc.Outlook) :
  PropertyCalc.calculate_investment_outlook p = Ok outS ->
  TestPropertyCalc.calculate_investment_outlook p (loan_term p) = Ok outG ->
  PropertyCalc.Year outS = TestPropertyCalc.Year outG /\
  PropertyCalc.Rental_Income outS = TestPropertyCalc.Rental_Income outG /\
  PropertyCalc.Interest_Payment outS = TestPropertyCalc.Interest_Payment outG /\
  PropertyCalc.Principal_Payment outS = TestPropertyCalc.Principal_Payment outG /\
  PropertyCalc.Capital_Gains outS = TestPropertyCalc.Capital_Gains outG /\
  length (PropertyCalc.Tax_Benefit outS) = Z.to_nat (loan_term p) /\
  length (TestPropertyCalc.Tax_Benefit outG) = Z.to_nat (loan_term p) /\
  length (PropertyCalc.Final_Net_Gain_Loss outS) = Z.to_nat (loan_term p) /\
  length (TestPropertyCalc.Final_Net_Gain_Loss outG) = Z.to_nat (loan_term p) /\
  forall i, (i < Z.to_nat (loan_term p))%nat ->
    nth i (PropertyCalc.Tax_Benefit outS) 0 ==
      nth i (TestPropertyCalc.Tax_Benefit outG) 0 /\
    nth i (TestPropertyCalc.Final_Net_Gain_Loss outG) 0 ==
      nth i (PropertyCalc.Final_Net_Gain_Loss outS) 0 + depreciation p
      - nth i (TestPropertyCalc.Principal_Payment outG) 0.
Proof.
  intros HS HG.
  destruct (simple_outlook_inv p outS HS) as (pay & Hpay & Hs).
  destruct (general_outlook_inv p _ outG HG) as (pay' & Hpay' & Hh & Hpf & Hg).
  assert (pay' = pay) by congruence. subst pay'.
  pose proof (general_loan_columns p _ pay outG Hg) as Hl. cbv zeta in Hl.
  destruct Hl as (GI & GP & LGI & LGP).
  unfold simple_columns in Hs. unfold general_columns in Hg. cbv zeta in Hs, Hg.
  destruct Hs as (SY & SR & SI & SP & ST & SN & STB & SC & SCG & SF).
  destruct Hg as (GY & GR & _ & GO & GT & GB & GTI & GTB & GA & GCG & GF).
  pose proof (schedule_lengths (loan_amount p) (interest_rate p) (loan_term p)
                (payment_frequency p) pay) as Hsl.
  destruct (generate_amortization_schedule _ _ _ _ pay) as [[pm it] pr].
  cbn [fst snd] in *. destruct Hsl as (Lit & Lpr & Lpm).
  set (h := loan_term p) in *. set (pf := payment_frequency p) in *.
  set (H := Z.to_nat h) in *.
  assert (LSI : length (PropertyCalc.Interest_Payment outS) = H)
    by (rewrite SI, length_map; apply range_length).
  assert (LSP : length (PropertyCalc.Principal_Payment outS) = H)
    by (rewrite SP, length_map; apply range_length).
  assert (Hentry : forall j, (j < H)%nat ->
            nth j (PropertyCalc.Interest_Payment outS) 0 =
              nth j (TestPropertyCalc.Interest_Payment outG) 0 /\
            nth j (PropertyCalc.Principal_Payment outS) 0 =
              nth j (TestPropertyCalc.Principal_Payment outG) 0).
  { intros j Hj. rewrite SI, SP, GI, GP.
    rewrite !(map_nth_in _ (range h) 0%Z) by (rewrite range_length; exact Hj).
    rewrite range_nth by exact Hj.
    assert (Hcase : (0 < pf)%Z \/ it = []).
    { destruct (Z_lt_le_dec 0 pf) as [Hp|Hn]; [left; exact Hp|right].
      assert (length it = 0)%nat by (subst H; nia).
      destruct it; [reflexivity|discriminate]. }
    rewrite <- Lit.
    destruct (year_loop_entry it pr pf H j Hpf ltac:(lia) Hcase Hj) as (E1 & E2).
    rewrite E1, E2. split; reflexivity. }
  assert (EI : PropertyCalc.Interest_Payment outS = TestPropertyCalc.Interest_Payment outG).
  { apply (nth_ext _ _ 0 0); [lia|]. intros j Hj. apply Hentry. lia. }
  assert (EP : PropertyCalc.Principal_Payment outS = TestPropertyCalc.Principal_Payment outG).
  { apply (nth_ext _ _ 0 0); [lia|]. intros j Hj. apply Hentry. lia. }
  assert (ER : PropertyCalc.Rental_Income outS = TestPropertyCalc.Rental_Income outG)
    by congruence.
  assert (LR : length (TestPropertyCalc.Rental_Income outG) = H)
    by (rewrite GR; apply rental_income_array_length).
  assert (LO : length (TestPropertyCalc.Other_Expenses outG) = H)
    by (rewrite GO; subst H; auto 12 with np_len).
  assert (LST : length (PropertyCalc.Total_Expenses_Depreciation outS) = H)
    by (rewrite ST, ER, EI; subst H; auto 14 with np_len).
  assert (LCG : length (TestPropertyCalc.Capital_Gains outG) = H)
    by (rewrite GCG; apply capital_gains_column; exact Hh).
  assert (ECG : PropertyCalc.Capital_Gains outS = TestPropertyCalc.Capital_Gains outG)
    by congruence.
  split; [congruence|]. split; [exact ER|]. split; [exact EI|]. split; [exact EP|].
  split; [exact ECG|].
  assert (LSN : length (PropertyCalc.Net_Rental_Loss outS) = H)
    by (rewrite SN; apply np_sub_length; congruence).
  assert (LSTB : length (PropertyCalc.Tax_Benefit outS) = H)
    by (rewrite STB; apply np_neg_times_length; exact LSN).
  assert (LGT : length (TestPropertyCalc.Total_Cash_Outflows outG) = H)
    by (rewrite GT; auto with np_len).
  assert (LGB : length (TestPropertyCalc.Net_Cash_Flow_Before_Tax outG) = H)
    by (rewrite GB; auto with np_len).
  assert (LGTI : length (TestPropertyCalc.Taxable_Income outG) = H)
    by (rewrite GTI; auto 6 with np_len).
  assert (LGTB : length (TestPropertyCalc.Tax_Benefit outG) = H)
    by (rewrite GTB; auto with np_len).
  assert (LSC : length (PropertyCalc.Cashflow_after_Negative_Gearing outS) = H)
    by (rewrite SC; auto with np_len).
  assert (LGA : length (TestPropertyCalc.Net_Cash_Flow_After_Tax outG) = H)
    by (rewrite GA; auto with np_len).
  split; [exact LSTB|]. split; [exact LGTB|].
  split; [rewrite SF; apply np_add_length; congruence|].
  split; [rewrite GF; apply np_add_length; congruence|].
  intros i Hi.
  assert (TS : nth i (PropertyCalc.Tax_Benefit outS) 0 ==
               - (nth i (TestPropertyCalc.Rental_Income outG) 0
                  - (nth i (TestPropertyCalc.Interest_Payment outG) 0
                     + nth i (TestPropertyCalc.Other_Expenses outG) 0
                     + depreciation p)) * marginal_tax_rate p).
  { rewrite STB, (np_neg_times_nth _ _ H) by assumption.
    rewrite SN, (np_sub_nth _ _ H) by congruence.
    rewrite ST, ER, EI.
    rewrite (simple_total_nth p h) by assumption.
    rewrite GO. rewrite (other_expenses_nth p h) by assumption.
    reflexivity. }
  assert (TG : nth i (TestPropertyCalc.Tax_Benefit outG) 0 ==
               - (nth i (TestPropertyCalc.Rental_Income outG) 0
                  - (nth i (TestPropertyCalc.Interest_Payment outG) 0
                     + nth i (TestPropertyCalc.Other_Expenses outG) 0
                     + depreciation p)) * marginal_tax_rate p).
  { rewrite GTB, (np_neg_times_nth _ _ H) by assumption.
    rewrite GTI, (np_sub_nth _ _ H) by auto with np_len.
    rewrite (np_add_scalar_nth _ _ H) by auto with np_len.
    rewrite (np_add_nth _ _ H) by assumption. reflexivity. }
  split; [rewrite TS, TG; reflexivity|].
  rewrite GF, (np_add_nth _ _ H) by assumption.
  rewrite GA, (np_add_nth _ _ H) by assumption.
  rewrite GB, (np_sub_nth _ _ H) by assumption.
  rewrite GT, (np_add_nth _ _ H) by auto with np_len.
  rewrite (np_add_nth _ _ H) by assumption.
  rewrite SF, (np_add_nth _ _ H) by congruence.
  rewrite SC, (np_add_nth _ _ H) by assumption.
  rewrite TS, TG.
  rewrite SN, (np_sub_nth _ _ H) by congruence.
  rewrite ST, ER, EI, (simple_total_nth p h) by assumption.
  rewrite GO. rewrite (other_expenses_nth p h) by assumption.
  rewrite ECG. ring.
Qed.

Lemma simple_projector_special_case_witness :
  nth 0 (TestPropertyCalc.Final_Net_Gain_Loss
           (general_result (TestPropertyCalc.calculate_investment_outlook
                              sample_params 1))) 0 ==
  nth 0 (PropertyCalc.Final_Net_Gain_Loss
           (simple_result (PropertyCalc.calculate_investment_outlook
                             sample_params))) 0
  + 7500
  - nth 0 (TestPropertyCalc.Principal_Payment
             (general_result (TestPropertyCalc.calculate_investment_outlook
                                sample_params 1))) 0.
Proof.
  assert (ES : PropertyCalc.calculate_investment_outlook sample_params =
               Ok (simple_result (PropertyCalc.calculate_investment_outlook
                                    sample_params)))
    by (vm_compute; reflexivity).
  assert (EG : TestPropertyCalc.calculate_investment_outlook sample_params
                 (loan_term sample_params) =
               Ok (general_result (TestPropertyCalc.calculate_investment_outlook
                                     sample_params 1)))
    by (vm_compute; reflexivity).
  destruct (simple_projector_special_case sample_params _ _ ES EG)
    as (_ & _ & _ & _ & _ & _ & _ & _ & _ & Hf).
  destruct (Hf 0%nat ltac:(simpl; lia)) as (_ & Hfin). exact Hfin.
Defined.

(** C8 as stated fails. For a one-year loan paid twice a year (two
    payments made, no remainder, investment period = loan term) both
    projectors return, and their final net gain/loss of the first year
    differ. *)
Lemma simple_and_general_finals_differ :
  PropertyCalc.calculate_investment_outlook sample_params =
    Ok (simple_result (PropertyCalc.calculate_investment_outlook sample_params)) /\
  TestPropertyCalc.calculate_investment_outlook sample_params (loan_term sample_params) =
    Ok (general_result (TestPropertyCalc.calculate_investment_outlook
                          sample_params (loan_term sample_params))) /\
  match calculate_mortgage_payment (loan_amount sample_params)
          (interest_rate sample_params) (loan_term sample_params)
          (payment_frequency sample_params) with
  | Ok payment =>
      let '(payments, _, _) :=
        generate_amortization_schedule (loan_amount sample_params)
          (interest_rate sample_params) (loan_term sample_params)
          (payment_frequency sample_params) payment in
      length payments = 2%nat /\
      (Z.of_nat (length payments) mod payment_frequency sample_params = 0)%Z
  | Raise _ => False
  end /\
  ~ nth 0 (PropertyCalc.Final_Net_Gain_Loss
             (simple_result (PropertyCalc.calculate_investment_outlook
                               sample_params))) 0 ==
    nth 0 (TestPropertyCalc.Final_Net_Gain_Loss
             (general_result (TestPropertyCalc.calculate_investment_outlook
                                sample_params (loan_term sample_params)))) 0.
Proof.
  split; [vm_compute; reflexivity|]. split; [vm_compute; reflexivity|].
  split; [vm_compute; split; reflexivity|].
  intro H. vm_compute in H. discriminate.
Qed.

(** ** C4: which inputs raise *)

Lemma raises_Raise {A : Type} (e : PyError) : raises (@Raise A e).
Proof. exists e. reflexivity. Qed.

Lemma not_raises_Ok {A : Type} (a : A) : ~ raises (Ok a).
Proof. intros (e & H). discriminate. Qed.

Lemma returns_not_raises {A : Type} (m : Result A) : returns m <-> ~ raises m.
Proof.
  destruct m as [a|e]; split.
  - intros _. apply not_raises_Ok.
  - intros _. exists a. reflexivity.
  - intros (a & H). discriminate.
  - intro H. exfalso. apply H. apply raises_Raise.
Qed.

Lemma inject_Z_zero (z : Z) : inject_Z z == 0 <-> z = 0%Z.
Proof. unfold Qeq. simpl. lia. Qed.

(** When [calculate_mortgage_payment] raises, in exact arithmetic. *)
Lemma payment_raises_iff (principal annual_rate : Q) (years payments_per_year : Z) :
  raises (calculate_mortgage_payment principal annual_rate years payments_per_year)
  <->
  (payments_per_year = 0%Z \/
   (1 + annual_rate / inject_Z payments_per_year == 0 /\
    (years * payments_per_year < 0)%Z) \/
   (1 + annual_rate / inject_Z payments_per_year) ^ (years * payments_per_year) == 1).
Proof.
  unfold calculate_mortgage_payment, py_div at 1.
  destruct (Qeqb (inject_Z payments_per_year) 0) eqn:E1.
  - apply Qeqb_true in E1. apply (proj1 (inject_Z_zero _)) in E1. cbn [bind]. split.
    + intros _. left. exact E1.
    + intros _. apply raises_Raise.
  - apply Qeqb_false in E1. rewrite inject_Z_zero in E1. cbn [bind]. unfold py_pow.
    destruct (Qeqb (1 + annual_rate / inject_Z payments_per_year) 0) eqn:E2;
      [apply Qeqb_true in E2|apply Qeqb_false in E2];
      (destruct (years * payments_per_year <? 0)%Z eqn:E3;
       [apply Z.ltb_lt in E3|apply Z.ltb_ge in E3]); cbn [andb bind].
    + split; [intros _; right; left; split; assumption|intros _; apply raises_Raise].
    + unfold py_div.
      destruct (Qeqb (_ - 1) 0) eqn:E4;
        [apply Qeqb_true in E4|apply Qeqb_false in E4].
      * split; [intros _|intros _; apply raises_Raise].
        right; right.
        set (y := _ ^ _) in *. lra.
      * split; [intro H; exfalso; exact (not_raises_Ok _ H)|].
        intros [H|[(_ & H)|H]]; [contradiction|lia|].
        exfalso. apply E4. rewrite H. reflexivity.
    + unfold py_div.
      destruct (Qeqb (_ - 1) 0) eqn:E4;
        [apply Qeqb_true in E4|apply Qeqb_false in E4].
      * split; [intros _|intros _; apply raises_Raise].
        right; right.
        set (y := _ ^ _) in *. lra.
      * split; [intro H; exfalso; exact (not_raises_Ok _ H)|].
        intros [H|[(H & _)|H]]; [contradiction|contradiction|].
        exfalso. apply E4. rewrite H. reflexivity.
    + unfold py_div.
      destruct (Qeqb (_ - 1) 0) eqn:E4;
        [apply Qeqb_true in E4|apply Qeqb_false in E4].
      * split; [intros _|intros _; apply raises_Raise].
        right; right.
        set (y := _ ^ _) in *. lra.
      * split; [intro H; exfalso; exact (not_raises_Ok _ H)|].
        intros [H|[(H & _)|H]]; [contradiction|contradiction|].
        exfalso. apply E4. rewrite H. reflexivity.
Qed.

Lemma payment_raises_zero_rate
    (principal annual_rate : Q) (years payments_per_year : Z) :
  annual_rate == 0 ->
  raises (calculate_mortgage_payment principal annual_rate years payments_per_year).
Proof.
  intro H0. apply payment_raises_iff. right; right.
  assert (E : 1 + annual_rate / inject_Z payments_per_year == 1).
  { rewrite H0. unfold Qdiv. ring. }
  rewrite E. apply Qpower_1.
Qed.

(** When the generalized projector raises, in exact arithmetic. *)
Lemma general_raises_iff (p : Params) (h : Z) :
  raises (TestPropertyCalc.calculate_investment_outlook p h) <->
  (raises (calculate_mortgage_payment (loan_amount p) (interest_rate p)
             (loan_term p) (payment_frequency p)) \/ (h < 0)%Z).
Proof.
  destruct (calculate_mortgage_payment (loan_amount p) (interest_rate p)
              (loan_term p) (payment_frequency p)) as [pay|e] eqn:Epay.
  - destruct (Z_lt_le_dec h 0) as [Hneg|Hpos].
    + split; [intros _; right; exact Hneg|]. intros _.
      unfold TestPropertyCalc.calculate_investment_outlook. rewrite Epay. cbn [bind].
      destruct (generate_amortization_schedule _ _ _ _ pay) as [[pm it] pr].
      unfold np_zeros. replace (h <? 0)%Z with true by (symmetry; apply Z.ltb_lt; exact Hneg).
      cbn [bind]. apply raises_Raise.
    + split.
      * intro H. exfalso.
        pose proof (general_outlook_returns p h pay Epay Hpos) as Hr.
        apply returns_not_raises in Hr. exact (Hr H).
      * intros [H|H]; [exfalso; exact (not_raises_Ok _ H)|lia].
  - split; [intros _; left; apply raises_Raise|]. intros _.
    unfold TestPropertyCalc.calculate_investment_outlook. rewrite Epay. cbn [bind].
    apply raises_Raise.
Qed.

(** C4 as stated fails: a negative principal, a negative term and a
    negative payment frequency are each accepted by
    [calculate_mortgage_payment], and the generalized projector accepts an
    investment period of 0. *)
Lemma nonpositive_inputs_do_not_raise :
  (-100 <= 0 /\ ~ raises (calculate_mortgage_payment (-100) (1 # 10) 1 1)) /\
  ((-1 <= 0)%Z /\ ~ raises (calculate_mortgage_payment 100 (1 # 10) (-1) 1)) /\
  ((-1 <= 0)%Z /\ ~ raises (calculate_mortgage_payment 100 (1 # 10) 1 (-1))) /\
  ((0 < 1)%Z /\ ~ raises (TestPropertyCalc.calculate_investment_outlook sample_params 0)).
Proof.
  repeat split; try (vm_compute; discriminate);
    intros (e & H); vm_compute in H; discriminate.
Qed.

(** ** The theorems at sample inputs *)

Lemma generate_schedule_follows_recurrence_witness :
  length (payment_list (amortization_final 100 (1 # 10) 1 3 60)) = 2%nat.
Proof.
  destruct (generate_schedule_follows_recurrence 100 (1 # 10) 1 3 60)
    as (_ & _ & _ & _ & _ & _ & _ & Hpayoff & _).
  apply (Hpayoff 2%nat). unfold payoff_period. split; [lia|]. split.
  - vm_compute. reflexivity.
  - intros j Hj. assert (j = 1%nat) by lia. subst j. vm_compute. discriminate.
Defined.

Lemma principal_portions_sum_to_principal_witness :
  exists payment,
    calculate_mortgage_payment 1000 (1 # 10) 1 2 = Ok payment /\
    let '(_, _, principals) :=
      generate_amortization_schedule 1000 (1 # 10) 1 2 payment in
    length principals = Z.to_nat (1 * 2) /\
    np_sum principals == 1000.
Proof.
  apply (principal_portions_sum_to_principal 1000 (1 # 10) 1 2).
  unfold valid_loan. repeat split; reflexivity.
Defined.

Lemma balance_never_negative_ends_at_zero_witness :
  exists payment,
    calculate_mortgage_payment 1000 (1 # 10) 1 2 = Ok payment /\
    let final := amortization_final 1000 (1 # 10) 1 2 payment in
    length (payment_list final) = Z.to_nat (1 * 2) /\
    (forall k, (k <= Z.to_nat (1 * 2))%nat ->
       length (payment_list (amortization_after 1000 (1 # 10) 2 payment k)) = k /\
       0 <= balance (amortization_after 1000 (1 # 10) 2 payment k)) /\
    balance final == 0.
Proof.
  apply (balance_never_negative_ends_at_zero 1000 (1 # 10) 1 2).
  unfold valid_loan. repeat split; reflexivity.
Defined.

Lemma records_split_and_nonnegative_witness :
  exists payment,
    calculate_mortgage_payment 1000 (1 # 10) 1 2 = Ok payment /\
    let '(payments, interests, principals) :=
      generate_amortization_schedule 1000 (1 # 10) 1 2 payment in
    length interests = length payments /\
    length principals = length payments /\
    forall i, (i < length payments)%nat ->
      nth i payments 0 == nth i interests 0 + nth i principals 0 /\
      0 <= nth i payments 0 /\
      0 <= nth i interests 0 /\
      0 <= nth i principals 0.
Proof.
  apply (records_split_and_nonnegative 1000 (1 # 10) 1 2).
  unfold valid_loan. repeat split; reflexivity.
Defined.

(** The schedule of the sample loan, evaluated: two payments of 22050/41,
    interest 50 and 1050/41, principal adding up to 1000. *)
Example sample_schedule :
  match calculate_mortgage_payment 1000 (1 # 10) 1 2 with
  | Ok payment =>
      let '(payments, interests, principals) :=
        generate_amortization_schedule 1000 (1 # 10) 1 2 payment in
      map Qred payments = [22050 # 41; 22050 # 41] /\
      map Qred interests = [50; 1050 # 41] /\
      map Qred principals = [20000 # 41; 21000 # 41]
  | Raise _ => False
  end.
Proof. vm_compute. repeat split; reflexivity. Qed.

(** A payment larger than needed: the loop stops at the payoff period with
    a shortened last record. *)
Example early_payoff_schedule :
  let '(payments, interests, principals) :=
    generate_amortization_schedule 100 (1 # 10) 1 3 60 in
  map Qred payments = [60; 403 # 9] /\
  map Qred interests = [10 # 3; 13 # 9] /\
  map Qred principals = [170 # 3; 130 # 3].
Proof. vm_compute. repeat split; reflexivity. Qed.

(** Whatever the payment and the rate, the clamp keeps the running balance
    of a loan with a non-negative principal from ever being negative. *)
Lemma balance_nonneg_after_any_period
    (principal annual_rate : Q) (payments_per_year : Z) (payment_amount : Q)
    (k : nat) :
  0 <= principal ->
  0 <= balance (amortization_after principal annual_rate payments_per_year
                  payment_amount k).
Proof.
  rewrite amortization_after_records. cbn [balance].
  revert principal. induction k as [|k IH]; intros b Hb; [exact Hb|].
  simpl end_balance. destruct (Qltb _ 0) eqn:E.
  - apply Qle_refl.
  - apply IH. apply Qltb_false in E. exact E.
Qed.

(** The payoff period is the one whose update goes below zero. A balance
    that reaches exactly 0 before the end of the term does not stop the
    loop: the next pass emits a record of zeros and stops there. *)
Example exact_payoff_emits_zero_record :
  let '(payments, interests, principals) :=
    generate_amortization_schedule 100 0 1 3 50 in
  map Qred payments = [50; 50; 0] /\
  map Qred interests = [0; 0; 0] /\
  map Qred principals = [50; 50; 0].
Proof. vm_compute. repeat split; reflexivity. Qed.

(** * Further properties of the amortization engine *)

Lemma np_sum_app (a b : list Q) : np_sum (a ++ b) == np_sum a + np_sum b.
Proof.
  induction a as [|x a IH].
  - simpl. rewrite np_sum_nil. ring.
  - simpl app. rewrite !np_sum_cons, IH. ring.
Qed.

Lemma np_sum_repeat (x : Q) (m : nat) :
  np_sum (repeat x m) == inject_Z (Z.of_nat m) * x.
Proof.
  induction m as [|m IH].
  - simpl. rewrite np_sum_nil. ring.
  - simpl repeat. rewrite np_sum_cons, IH, Nat2Z.inj_succ. unfold Z.succ.
    rewrite inject_Z_plus. ring.
Qed.

Lemma np_sum_nonneg (l : list Q) :
  (forall x, In x l -> 0 <= x) -> 0 <= np_sum l.
Proof.
  induction l as [|x l IH]; intro H.
  - rewrite np_sum_nil. apply Qle_refl.
  - rewrite np_sum_cons.
    assert (0 <= x) by (apply H; left; reflexivity).
    assert (0 <= np_sum l) by (apply IH; intros y Hy; apply H; right; exact Hy).
    set (t := np_sum l) in *. lra.
Qed.

(** Every triple the loop emits splits its payment into interest and
    principal, the clamped last one too. *)
Lemma records_split
    (annual_rate : Q) (payments_per_year : Z) (payment_amount : Q)
    (k : nat) (b : Q) :
  Forall (fun t : Q * Q * Q => fst (fst t) == snd (fst t) + snd t)
    (records annual_rate payments_per_year payment_amount k b).
Proof.
  revert b. induction k as [|k IH]; intros b; simpl; [constructor|].
  destruct (Qltb _ 0).
  - constructor; [|constructor]. simpl. ring.
  - constructor; [|apply IH]. simpl. ring.
Qed.

Lemma triples_sum_split (l : list (Q * Q * Q)) :
  Forall (fun t : Q * Q * Q => fst (fst t) == snd (fst t) + snd t) l ->
  np_sum (map (fun t => fst (fst t)) l) ==
  np_sum (map (fun t => snd (fst t)) l) + np_sum (map snd l).
Proof.
  induction 1 as [|t l Ht Hl IH]; simpl map.
  - rewrite np_sum_nil. ring.
  - rewrite !np_sum_cons, IH, Ht. ring.
Qed.

(** A loop that stopped before the end of its range stopped on a clamp,
    which leaves a balance of 0. *)
Lemma early_stop_end_balance
    (annual_rate : Q) (payments_per_year : Z) (payment_amount : Q)
    (k : nat) (b : Q) :
  (length (records annual_rate payments_per_year payment_amount k b) < k)%nat ->
  end_balance annual_rate payments_per_year payment_amount k b = 0.
Proof.
  revert b. induction k as [|k IH]; intros b; simpl; [lia|].
  destruct (Qltb _ 0); [reflexivity|]. simpl. intro H. apply IH. lia.
Qed.

Lemma end_balance_nonneg
    (annual_rate : Q) (payments_per_year : Z) (payment_amount : Q)
    (k : nat) (b : Q) :
  0 <= b -> 0 <= end_balance annual_rate payments_per_year payment_amount k b.
Proof.
  revert b. induction k as [|k IH]; intros b Hb; [exact Hb|].
  simpl. destruct (Qltb _ 0) eqn:E; [apply Qle_refl|].
  apply IH. apply Qltb_false in E. exact E.
Qed.

(** X1. For every input, the clamped last record included, each emitted
    record has payment = interest + principal, and so the payments add up
    to the interest plus the principal repaid. *)
Theorem schedule_payment_splits_for_every_input
    (principal annual_rate : Q) (years payments_per_year : Z) (payment_amount : Q) :
  let '(payments, interests, principals) :=
    generate_amortization_schedule principal annual_rate years payments_per_year
      payment_amount in
  (forall i, (i < length payments)%nat ->
     nth i payments 0 == nth i interests 0 + nth i principals 0) /\
  np_sum payments == np_sum interests + np_sum principals.
Proof.
  unfold generate_amortization_schedule.
  rewrite amortization_final_after, amortization_after_records.
  cbn [payment_list interest_list principal_list].
  pose proof (records_split annual_rate payments_per_year payment_amount
                (Z.to_nat (years * payments_per_year)) principal) as HF.
  split; [|apply triples_sum_split; exact HF].
  intros i Hi. rewrite length_map in Hi.
  rewrite (map_nth (fun t : Q * Q * Q => fst (fst t)) _ (0,0,0) i).
  rewrite (map_nth (fun t : Q * Q * Q => snd (fst t)) _ (0,0,0) i).
  rewrite (map_nth (@snd (Q * Q) Q) _ (0,0,0) i).
  rewrite Forall_forall in HF. apply HF. apply nth_In. exact Hi.
Qed.

(** X2, in exact arithmetic. Whatever the payment, a loan with a
    non-negative principal is never repaid more than its principal: the
    principal portions add up to the principal minus the balance left,
    which is not negative; and when the loop stops before the end of the
    term they add up to the principal. *)
Theorem principal_repaid_never_exceeds_principal
    (principal annual_rate : Q) (years payments_per_year : Z) (payment_amount : Q) :
  0 <= principal ->
  let s := amortization_final principal annual_rate years payments_per_year
             payment_amount in
  np_sum (principal_list s) == principal - balance s /\
  0 <= balance s /\
  np_sum (principal_list s) <= principal /\
  ((length (payment_list s) < Z.to_nat (years * payments_per_year))%nat ->
   np_sum (principal_list s) == principal).
Proof.
  intros HP s. subst s.
  rewrite amortization_final_after, amortization_after_records.
  cbn [payment_list principal_list balance].
  pose proof (records_principal_sum annual_rate payments_per_year payment_amount
                (Z.to_nat (years * payments_per_year)) principal) as Hsum.
  pose proof (end_balance_nonneg annual_rate payments_per_year payment_amount
                (Z.to_nat (years * payments_per_year)) principal HP) as Hnn.
  split; [exact Hsum|]. split; [exact Hnn|]. split.
  - rewrite Hsum. set (e := end_balance _ _ _ _ _) in *. lra.
  - rewrite length_map. intro Hlt. rewrite Hsum.
    rewrite (early_stop_end_balance _ _ _ _ _ Hlt). ring.
Qed.

Lemma principal_repaid_never_exceeds_principal_witness :
  np_sum (principal_list (amortization_final 100 (1 # 10) 1 3 60)) == 100.
Proof.
  destruct (principal_repaid_never_exceeds_principal 100 (1 # 10) 1 3 60)
    as (_ & _ & _ & H); [vm_compute; discriminate|].
  apply H. vm_compute. lia.
Defined.

(** X5, in exact arithmetic. The payment is proportional to the
    principal: for the same rate, term and frequency, two principals get
    payments in the ratio of the principals. *)
Theorem payment_proportional_to_principal
    (principal principal' annual_rate : Q) (years payments_per_year : Z)
    (pay pay' : Q) :
  calculate_mortgage_payment principal annual_rate years payments_per_year = Ok pay ->
  calculate_mortgage_payment principal' annual_rate years payments_per_year = Ok pay' ->
  pay * principal' == pay' * principal.
Proof.
  unfold calculate_mortgage_payment, py_div at 1 3.
  destruct (Qeqb (inject_Z payments_per_year) 0); [discriminate|]. cbn [bind].
  unfold py_pow. destruct (_ && _); [discriminate|]. cbn [bind]. unfold py_div.
  destruct (Qeqb _ 0); [discriminate|].
  intros H H'. injection H as <-. injection H' as <-.
  unfold Qdiv. ring.
Qed.

Lemma payment_proportional_to_principal_witness :
  match calculate_mortgage_payment 1000 (1 # 10) 1 2,
        calculate_mortgage_payment 3000 (1 # 10) 1 2 with
  | Ok pay, Ok pay' => pay * 3000 == pay' * 1000
  | _, _ => False
  end.
Proof.
  destruct (calculate_mortgage_payment 1000 (1 # 10) 1 2) as [pay|e] eqn:E1;
    [|vm_compute in E1; discriminate].
  destruct (calculate_mortgage_payment 3000 (1 # 10) 1 2) as [pay'|e] eqn:E2;
    [|vm_compute in E2; discriminate].
  exact (payment_proportional_to_principal 1000 3000 (1 # 10) 1 2 pay pay' E1 E2).
Defined.

Section AnnuityRecords.

Variables (principal annual_rate : Q) (years payments_per_year : Z).
Hypothesis valid : valid_loan principal annual_rate years payments_per_year.

Local Abbreviation r := (annual_rate / inject_Z payments_per_year).
Local Abbreviation n := (Z.to_nat (years * payments_per_year)).
Local Abbreviation g := (growth annual_rate payments_per_year).
Local Abbreviation payment :=
  (principal * (r * (1 + r) ^ (years * payments_per_year))
   / ((1 + r) ^ (years * payments_per_year) - 1)).
Local Abbreviation ab := (annuity_balance principal annual_rate payments_per_year n).
Local Abbreviation rb := (running_balance annual_rate payments_per_year payment principal).
Local Abbreviation recs := (records annual_rate payments_per_year payment).

(** Under the annuity payment, record [i] is the full payment, the
    interest on the running balance, and the rest. *)
Lemma annuity_record_nth (i : nat) :
  (i < n)%nat ->
  nth i (recs n principal) (0, 0, 0) = (payment, rb i * r, payment - rb i * r).
Proof.
  intro Hi.
  assert (Hlen : length (recs n principal) = n)
    by (apply annuity_records_length; [exact valid|lia]).
  pose proof (records_nth annual_rate payments_per_year payment n principal i
                ltac:(rewrite Hlen; exact Hi)) as (H1 & H2 & _).
  destruct (H2 (running_balance_nonneg _ _ _ _ valid (S i) ltac:(lia))) as (H3 & H4).
  destruct (nth i (recs n principal) (0, 0, 0)) as [[a b] c].
  simpl in *. subst. reflexivity.
Qed.

Lemma annuity_principal_portion (i : nat) :
  payment - rb i * r == principal * (r * g i) / (g n - 1).
Proof.
  assert (E : payment - rb i * r == rb i - rb (S i)).
  { change (rb (S i)) with
      (next_balance annual_rate payments_per_year payment (rb i)).
    unfold next_balance. ring. }
  rewrite E, !(running_balance_closed _ _ _ _ valid).
  rewrite (annuity_balance_drop _ _ _ _ valid), (growth_S _ _ _ _ valid).
  pose proof (denominator_pos _ _ _ _ valid) as HD.
  set (G := growth annual_rate payments_per_year (Z.to_nat _)) in *.
  set (Gi := growth annual_rate payments_per_year i).
  set (x := annual_rate / inject_Z payments_per_year).
  field. intro E0. lra.
Qed.

Lemma annuity_balance_strictly_decreasing (k : nat) : rb (S k) < rb k.
Proof.
  assert (H : 0 < rb k - rb (S k)).
  { rewrite !(running_balance_closed _ _ _ _ valid).
    rewrite (annuity_balance_drop _ _ _ _ valid).
    pose proof (growth_lt_S _ _ _ _ valid k) as Hg.
    pose proof (denominator_pos _ _ _ _ valid) as HD. destruct valid as (HP & _).
    unfold Qdiv. apply Qmult_lt_0_compat; [apply Qmult_lt_0_compat|].
    - exact HP.
    - set (Gk := growth annual_rate payments_per_year k) in *.
      set (Gk' := growth annual_rate payments_per_year (S k)) in *. lra.
    - apply Qinv_lt_0_compat. exact HD. }
  set (a := running_balance _ _ _ _ k) in *.
  set (b := running_balance _ _ _ _ (S k)) in *. lra.
Qed.

Lemma annuity_payments_repeat :
  map (fun t : Q * Q * Q => fst (fst t)) (recs n principal) = repeat payment n.
Proof.
  assert (Hlen : length (recs n principal) = n)
    by (apply annuity_records_length; [exact valid|lia]).
  apply (nth_ext _ _ 0 0).
  - rewrite length_map, repeat_length. exact Hlen.
  - intros i Hi. rewrite length_map, Hlen in Hi.
    rewrite (map_nth (fun t : Q * Q * Q => fst (fst t)) _ (0,0,0) i).
    rewrite (annuity_record_nth i Hi). cbn [fst].
    symmetry. apply nth_repeat_lt. exact Hi.
Qed.

Lemma annuity_principal_sum :
  np_sum (map snd (recs n principal)) == principal.
Proof.
  rewrite records_principal_sum.
  rewrite (annuity_end_balance _ _ _ _ valid) by lia.
  rewrite (running_balance_closed _ _ _ _ valid).
  rewrite (annuity_balance_end _ _ _ _ valid). ring.
Qed.

Lemma annuity_interest_sum_pos :
  0 < np_sum (map (fun t : Q * Q * Q => snd (fst t)) (recs n principal)).
Proof.
  destruct (periods_pos _ _ _ _ valid) as (Hn & _).
  assert (Hlen : length (recs n principal) = n)
    by (apply annuity_records_length; [exact valid|lia]).
  pose proof (annuity_record_nth 0 ltac:(lia)) as H0.
  destruct (recs n principal) as [|t l] eqn:El; [simpl in Hlen; lia|].
  simpl in H0. subst t. simpl map. rewrite np_sum_cons. cbn [fst snd].
  assert (Hfirst : 0 < principal * r).
  { destruct valid as (HP & _). apply Qmult_lt_0_compat; [exact HP|].
    apply period_rate_pos with principal years. exact valid. }
  assert (Hrest : 0 <= np_sum (map (fun t : Q * Q * Q => snd (fst t)) l)).
  { apply np_sum_nonneg. intros x Hx. apply in_map_iff in Hx.
    destruct Hx as (t & <- & Ht).
    destruct (In_nth _ _ (0,0,0) Ht) as (j & Hj & Ej).
    assert (Hj' : (S j < n)%nat) by (simpl in Hlen; lia).
    pose proof (annuity_record_nth (S j) Hj') as HS.
    rewrite El in HS. cbn [nth] in HS. rewrite Ej in HS. rewrite HS. cbn [fst snd].
    apply Qmult_le_0_compat.
    - apply running_balance_nonneg; [exact valid|lia].
    - apply Qlt_le_weak. apply period_rate_pos with principal years. exact valid. }
  change (running_balance annual_rate payments_per_year payment principal 0)
    with principal.
  set (a := principal * r) in *. set (b := np_sum _) in *. lra.
Qed.

End AnnuityRecords.

(** X3. For a valid loan with a positive rate and the computed payment,
    the principal portion of period [i] is
    [P * r * (1+r)^i / ((1+r)^n - 1)]: it is positive and grows by the
    factor [1 + r] from one period to the next, while the interest portion
    strictly decreases (exact arithmetic). *)
Theorem annuity_principal_portions_grow
    (principal annual_rate : Q) (years payments_per_year : Z) :
  valid_loan principal annual_rate years payments_per_year ->
  exists payment,
    calculate_mortgage_payment principal annual_rate years payments_per_year
      = Ok payment /\
    let '(_, interests, principals) :=
      generate_amortization_schedule principal annual_rate years
        payments_per_year payment in
    forall i, (i < Z.to_nat (years * payments_per_year))%nat ->
      nth i principals 0 ==
        principal * (annual_rate / inject_Z payments_per_year
                     * (1 + annual_rate / inject_Z payments_per_year) ^ Z.of_nat i)
        / ((1 + annual_rate / inject_Z payments_per_year)
             ^ (years * payments_per_year) - 1) /\
      0 < nth i principals 0 /\
      ((S i < Z.to_nat (years * payments_per_year))%nat ->
       nth (S i) principals 0 ==
         nth i principals 0 * (1 + annual_rate / inject_Z payments_per_year) /\
       nth (S i) interests 0 < nth i interests 0).
Proof.
  intro valid. eexists. split.
  - apply calculate_mortgage_payment_valid. exact valid.
  - unfold generate_amortization_schedule.
    rewrite amortization_final_after, amortization_after_records.
    cbn [interest_list principal_list].
    assert (Hentry : forall j, (j < Z.to_nat (years * payments_per_year))%nat ->
              nth j (map snd (records annual_rate payments_per_year
                                (principal * (annual_rate / inject_Z payments_per_year *
                                   (1 + annual_rate / inject_Z payments_per_year)
                                     ^ (years * payments_per_year)) /
                                 ((1 + annual_rate / inject_Z payments_per_year)
                                    ^ (years * payments_per_year) - 1))
                                (Z.to_nat (years * payments_per_year)) principal)) 0
              == principal * (annual_rate / inject_Z payments_per_year
                              * (1 + annual_rate / inject_Z payments_per_year)
                                  ^ Z.of_nat j)
                 / ((1 + annual_rate / inject_Z payments_per_year)
                      ^ (years * payments_per_year) - 1)).
    { intros j Hj.
      rewrite (map_nth (@snd (Q * Q) Q) _ (0,0,0) j).
      rewrite (annuity_record_nth _ _ _ _ valid j Hj). cbn [snd].
      rewrite (annuity_principal_portion _ _ _ _ valid).
      unfold growth. rewrite (proj2 (periods_pos _ _ _ _ valid)). reflexivity. }
    intros i Hi.
    pose proof (denominator_pos _ _ _ _ valid) as HD.
    rewrite <- (growth_term _ _ _ _ valid) in HD.
    pose proof (period_rate_pos _ _ _ _ valid) as Hr.
    pose proof (growth_pos _ _ _ _ valid i) as Hg. unfold growth in Hg.
    pose proof (growth_S _ _ _ _ valid i) as HS. unfold growth in HS.
    split; [apply Hentry; exact Hi|]. split.
    + rewrite (Hentry i Hi). destruct valid as (HP & _).
      unfold Qdiv. apply Qmult_lt_0_compat; [apply Qmult_lt_0_compat|].
      * exact HP.
      * apply Qmult_lt_0_compat; assumption.
      * apply Qinv_lt_0_compat. exact HD.
    + intro HSi. split.
      * rewrite (Hentry (S i) HSi), (Hentry i Hi), HS.
        set (G := _ ^ (years * payments_per_year)) in *.
        set (Gi := _ ^ Z.of_nat i) in *.
        set (x := annual_rate / inject_Z payments_per_year) in *.
        field. intro E0. lra.
      * rewrite !(map_nth (fun t : Q * Q * Q => snd (fst t)) _ (0,0,0)).
        rewrite (annuity_record_nth _ _ _ _ valid i Hi).
        rewrite (annuity_record_nth _ _ _ _ valid (S i) HSi). cbn [fst snd].
        pose proof (annuity_balance_strictly_decreasing _ _ _ _ valid i) as Hdec.
        apply Qmult_lt_compat_r; assumption.
Qed.

Lemma annuity_principal_portions_grow_witness :
  exists payment,
    calculate_mortgage_payment 1000 (1 # 10) 1 2 = Ok payment /\
    let '(_, interests, principals) :=
      generate_amortization_schedule 1000 (1 # 10) 1 2 payment in
    forall i, (i < Z.to_nat (1 * 2))%nat ->
      nth i principals 0 ==
        1000 * ((1 # 10) / inject_Z 2 * (1 + (1 # 10) / inject_Z 2) ^ Z.of_nat i)
        / ((1 + (1 # 10) / inject_Z 2) ^ (1 * 2) - 1) /\
      0 < nth i principals 0 /\
      ((S i < Z.to_nat (1 * 2))%nat ->
       nth (S i) principals 0 ==
         nth i principals 0 * (1 + (1 # 10) / inject_Z 2) /\
       nth (S i) interests 0 < nth i interests 0).
Proof.
  apply (annuity_principal_portions_grow 1000 (1 # 10) 1 2).
  unfold valid_loan. repeat split; reflexivity.
Defined.

(** X4. For a valid loan with a positive rate and the computed payment:
    the payment is positive, every period pays it in full, the payments
    add up to [n] times the payment, and the interest adds up to that
    minus the principal, which is positive (exact arithmetic). *)
Theorem annuity_totals
    (principal annual_rate : Q) (years payments_per_year : Z) :
  valid_loan principal annual_rate years payments_per_year ->
  exists payment,
    calculate_mortgage_payment principal annual_rate years payments_per_year
      = Ok payment /\
    0 < payment /\
    let '(payments, interests, _) :=
      generate_amortization_schedule principal annual_rate years
        payments_per_year payment in
    payments = repeat payment (Z.to_nat (years * payments_per_year)) /\
    np_sum payments == inject_Z (years * payments_per_year) * payment /\
    np_sum interests == inject_Z (years * payments_per_year) * payment - principal /\
    0 < np_sum interests.
Proof.
  intro valid. eexists. split; [|split].
  - apply calculate_mortgage_payment_valid. exact valid.
  - apply payment_pos. exact valid.
  - unfold generate_amortization_schedule.
    rewrite amortization_final_after, amortization_after_records.
    cbn [payment_list interest_list].
    destruct (periods_pos _ _ _ _ valid) as (_ & Hn).
    pose proof (annuity_payments_repeat _ _ _ _ valid) as Hrep.
    pose proof (triples_sum_split _ (records_split annual_rate payments_per_year
                  (principal * (annual_rate / inject_Z payments_per_year *
                     (1 + annual_rate / inject_Z payments_per_year)
                       ^ (years * payments_per_year)) /
                   ((1 + annual_rate / inject_Z payments_per_year)
                      ^ (years * payments_per_year) - 1))
                  (Z.to_nat (years * payments_per_year)) principal)) as Hsplit.
    pose proof (annuity_principal_sum _ _ _ _ valid) as Hps.
    pose proof (annuity_interest_sum_pos _ _ _ _ valid) as Hpos.
    rewrite Hps in Hsplit. rewrite Hrep in Hsplit |- *.
    rewrite np_sum_repeat, Hn in Hsplit.
    split; [reflexivity|]. split; [rewrite np_sum_repeat, Hn; reflexivity|].
    split; [|exact Hpos].
    set (si := np_sum (map _ _)) in *. set (tot := inject_Z _ * _) in *. lra.
Qed.

Lemma annuity_totals_witness :
  exists payment,
    calculate_mortgage_payment 1000 (1 # 10) 1 2 = Ok payment /\
    0 < payment /\
    let '(payments, interests, _) :=
      generate_amortization_schedule 1000 (1 # 10) 1 2 payment in
    payments = repeat payment (Z.to_nat (1 * 2)) /\
    np_sum payments == inject_Z (1 * 2) * payment /\
    np_sum interests == inject_Z (1 * 2) * payment - 1000 /\
    0 < np_sum interests.
Proof.
  apply (annuity_totals 1000 (1 # 10) 1 2).
  unfold valid_loan. repeat split; reflexivity.
Defined.

(** * Further properties of the projectors *)

(** Every column of the generalized table has one entry per year. *)
Lemma general_columns_lengths (p : Params) (h : Z) (pay : Q)
    (out : TestPropertyCalc.Outlook) :
  general_columns p h pay out -> (0 <= h)%Z ->
  length (TestPropertyCalc.Year out) = Z.to_nat h /\
  length (TestPropertyCalc.Rental_Income out) = Z.to_nat h /\
  length (TestPropertyCalc.Interest_Payment out) = Z.to_nat h /\
  length (TestPropertyCalc.Principal_Payment out) = Z.to_nat h /\
  length (TestPropertyCalc.Other_Expenses out) = Z.to_nat h /\
  length (TestPropertyCalc.Total_Cash_Outflows out) = Z.to_nat h /\
  length (TestPropertyCalc.Net_Cash_Flow_Before_Tax out) = Z.to_nat h /\
  length (TestPropertyCalc.Taxable_Income out) = Z.to_nat h /\
  length (TestPropertyCalc.Tax_Benefit out) = Z.to_nat h /\
  length (TestPropertyCalc.Net_Cash_Flow_After_Tax out) = Z.to_nat h /\
  length (TestPropertyCalc.Capital_Gains out) = Z.to_nat h /\
  length (TestPropertyCalc.Final_Net_Gain_Loss out) = Z.to_nat h.
Proof.
  intros Hc Hh.
  pose proof (general_loan_columns p h pay out Hc) as Hl. cbv zeta in Hl.
  destruct Hl as (_ & _ & LI & LP).
  unfold general_columns in Hc. cbv zeta in Hc.
  destruct Hc as (GY & GR & _ & GO & GT & GB & GTI & GTB & GA & GCG & GF).
  assert (LY : length (TestPropertyCalc.Year out) = Z.to_nat h)
    by (rewrite GY; apply years_length).
  assert (LR : length (TestPropertyCalc.Rental_Income out) = Z.to_nat h)
    by (rewrite GR; apply rental_income_array_length).
  assert (LO : length (TestPropertyCalc.Other_Expenses out) = Z.to_nat h)
    by (rewrite GO; auto 12 with np_len).
  assert (LT : length (TestPropertyCalc.Total_Cash_Outflows out) = Z.to_nat h)
    by (rewrite GT; auto with np_len).
  assert (LB : length (TestPropertyCalc.Net_Cash_Flow_Before_Tax out) = Z.to_nat h)
    by (rewrite GB; auto with np_len).
  assert (LTI : length (TestPropertyCalc.Taxable_Income out) = Z.to_nat h)
    by (rewrite GTI; auto 6 with np_len).
  assert (LTB : length (TestPropertyCalc.Tax_Benefit out) = Z.to_nat h)
    by (rewrite GTB; auto with np_len).
  assert (LA : length (TestPropertyCalc.Net_Cash_Flow_After_Tax out) = Z.to_nat h)
    by (rewrite GA; auto with np_len).
  assert (LCG : length (TestPropertyCalc.Capital_Gains out) = Z.to_nat h)
    by (rewrite GCG; apply capital_gains_column; exact Hh).
  assert (LF : length (TestPropertyCalc.Final_Net_Gain_Loss out) = Z.to_nat h)
    by (rewrite GF; auto with np_len).
  tauto.
Qed.

(** What the aggregation loop leaves in entry [j] of zero-initialised
    arrays: the sums of the year's slice if the year is reached, 0 after
    the [break]. *)
Lemma year_loop_nth (it pr : list Q) (pf ny rem : Z) (m j : nat) :
  (j < m)%nat ->
  let looped :=
    TestPropertyCalc.year_loop it pr pf ny rem
      (map Z.of_nat (seq 0 m)) (repeat 0 m) (repeat 0 m) in
  nth j (fst looped) 0 =
    match TestPropertyCalc.year_bounds pf ny rem (Z.of_nat j) with
    | Some (s, e) => np_sum (py_slice it s e)
    | None => 0
    end /\
  nth j (snd looped) 0 =
    match TestPropertyCalc.year_bounds pf ny rem (Z.of_nat j) with
    | Some (s, e) => np_sum (py_slice pr s e)
    | None => 0
    end.
Proof.
  intros Hj looped. subst looped.
  destruct (TestPropertyCalc.year_bounds pf ny rem (Z.of_nat j)) as [[s e]|] eqn:Hyb.
  - assert (Hall : forall i, (0 <= i <= j)%nat ->
              TestPropertyCalc.year_bounds pf ny rem (Z.of_nat i) <> None).
    { intros i Hi. destruct (Nat.eq_dec i j) as [->|Hne]; [rewrite Hyb; discriminate|].
      revert Hyb. unfold TestPropertyCalc.year_bounds.
      destruct (Z.of_nat j <? ny)%Z eqn:E1.
      - intros _. apply Z.ltb_lt in E1.
        replace (Z.of_nat i <? ny)%Z with true by (symmetry; apply Z.ltb_lt; lia).
        discriminate.
      - destruct (Z.of_nat j =? ny)%Z eqn:E2; [|discriminate].
        intros _. apply Z.eqb_eq in E2.
        replace (Z.of_nat i <? ny)%Z with true by (symmetry; apply Z.ltb_lt; lia).
        discriminate. }
    apply (year_loop_visited it pr pf ny rem m 0 (repeat 0 m) (repeat 0 m) j s e);
      try assumption; try lia; rewrite repeat_length; exact Hj.
  - destruct (year_loop_untouched it pr pf ny rem (seq 0 m)
                (repeat 0 m) (repeat 0 m) j (or_intror Hyb)) as (U1 & U2).
    rewrite U1, U2, !repeat_nth_zero. split; reflexivity.
Qed.

(** The table of the generalized projector, entry by entry: year [i] of
    every column as the scalar formula of that year. *)
Lemma general_entries (p : Params) (h : Z) (pay : Q)
    (out : TestPropertyCalc.Outlook) (i : nat) :
  general_columns p h pay out -> (0 <= h)%Z -> (i < Z.to_nat h)%nat ->
  let sched := generate_amortization_schedule (loan_amount p) (interest_rate p)
                 (loan_term p) (payment_frequency p) pay in
  let len := Z.of_nat (length (fst (fst sched))) in
  let pf := payment_frequency p in
  let esc := (1 + annual_expense_increase p) ^ (Z.of_nat i + 1) in
  let rent := nth i (TestPropertyCalc.Rental_Income out) 0 in
  let interest := nth i (TestPropertyCalc.Interest_Payment out) 0 in
  let princ := nth i (TestPropertyCalc.Principal_Payment out) 0 in
  let other := nth i (TestPropertyCalc.Other_Expenses out) 0 in
  nth i (TestPropertyCalc.Year out) 0%Z = (1 + Z.of_nat i)%Z /\
  rent = weekly_rental_income p * 52 * (1 + annual_rental_increase p) ^ Z.of_nat i /\
  interest =
    match TestPropertyCalc.year_bounds pf (len / pf) (len mod pf) (Z.of_nat i) with
    | Some (s, e) => np_sum (py_slice (snd (fst sched)) s e)
    | None => 0
    end /\
  princ =
    match TestPropertyCalc.year_bounds pf (len / pf) (len mod pf) (Z.of_nat i) with
    | Some (s, e) => np_sum (py_slice (snd sched) s e)
    | None => 0
    end /\
  other =
    council_rates p * esc + water_rates p * esc + land_tax p
    + strata_fees p * esc + insurance p * esc
    + property_manager_rate p * rent + repairs_and_maintenance p /\
  nth i (TestPropertyCalc.Total_Cash_Outflows out) 0 = interest + princ + other /\
  nth i (TestPropertyCalc.Net_Cash_Flow_Before_Tax out) 0 =
    rent - nth i (TestPropertyCalc.Total_Cash_Outflows out) 0 /\
  nth i (TestPropertyCalc.Taxable_Income out) 0 =
    rent - (interest + other + depreciation p) /\
  nth i (TestPropertyCalc.Tax_Benefit out) 0 =
    - nth i (TestPropertyCalc.Taxable_Income out) 0 * marginal_tax_rate p /\
  nth i (TestPropertyCalc.Net_Cash_Flow_After_Tax out) 0 =
    nth i (TestPropertyCalc.Net_Cash_Flow_Before_Tax out) 0
    + nth i (TestPropertyCalc.Tax_Benefit out) 0 /\
  nth i (TestPropertyCalc.Capital_Gains out) 0 =
    property_value p * (1 + property_appreciation p) ^ Z.of_nat (S i)
    - property_value p * (1 + property_appreciation p) ^ Z.of_nat i /\
  nth i (TestPropertyCalc.Final_Net_Gain_Loss out) 0 =
    nth i (TestPropertyCalc.Net_Cash_Flow_After_Tax out) 0
    + nth i (TestPropertyCalc.Capital_Gains out) 0.
Proof.
  intros Hc Hh Hi sched len pf esc rent interest princ other.
  pose proof (general_columns_lengths p h pay out Hc Hh) as
    (LY & LR & LI & LP & LO & LT & LB & LTI & LTB & LA & LCG & LF).
  pose proof (general_loan_columns p h pay out Hc) as Hl. cbv zeta in Hl.
  destruct Hl as (GI & GP & _ & _).
  unfold general_columns in Hc. cbv zeta in Hc.
  destruct Hc as (GY & GR & _ & GO & GT & GB & GTI & GTB & GA & GCG & GF).
  set (H := Z.to_nat h) in *.
  assert (Lesc : length (np_power (1 + annual_expense_increase p)
                           (np_arange 1 (h + 1))) = H)
    by (subst H; auto with np_len).
  split; [rewrite GY; apply np_arange_nth; lia|].
  split; [subst rent; rewrite GR; apply rental_income_array_nth; exact Hi|].
  destruct (year_loop_nth (snd (fst sched)) (snd sched) pf (len / pf)%Z
              (len mod pf)%Z H i Hi) as (E1 & E2).
  split; [subst interest; rewrite GI; exact E1|].
  split; [subst princ; rewrite GP; exact E2|].
  split.
  { subst other rent. rewrite GO.
    rewrite (np_add_scalar_nth _ _ H) by (subst H; auto 12 with np_len).
    rewrite (np_add_nth _ _ H) by (subst H; auto 12 with np_len).
    rewrite (np_add_nth _ _ H) by (subst H; auto 12 with np_len).
    rewrite (np_add_nth _ _ H) by (subst H; auto 12 with np_len).
    rewrite (np_add_scalar_nth _ _ H) by (subst H; auto 12 with np_len).
    rewrite (np_add_nth _ _ H) by (subst H; auto 12 with np_len).
    rewrite !(np_scale_nth _ _ H) by (subst H; auto 12 with np_len).
    rewrite escalation_nth by exact Hi. reflexivity. }
  split.
  { rewrite GT. rewrite (np_add_nth _ _ H) by (subst H; auto with np_len).
    rewrite (np_add_nth _ _ H) by assumption. reflexivity. }
  split; [rewrite GB; apply (np_sub_nth _ _ H); assumption|].
  split.
  { rewrite GTI. rewrite (np_sub_nth _ _ H) by (subst H; auto 6 with np_len).
    rewrite (np_add_scalar_nth _ _ H) by (subst H; auto with np_len).
    rewrite (np_add_nth _ _ H) by assumption. reflexivity. }
  split; [rewrite GTB; apply (np_neg_times_nth _ _ H); assumption|].
  split; [rewrite GA; apply (np_add_nth _ _ H); assumption|].
  split; [|rewrite GF; apply (np_add_nth _ _ H); assumption].
  rewrite GCG.
  assert (Lpv : length (np_scale (property_value p)
                          (np_power (1 + property_appreciation p)
                             (np_arange 0 (h + 1)))) = S H).
  { unfold np_scale, np_power. rewrite !length_map, np_arange_length. lia. }
  rewrite py_slice_whole by (rewrite np_diff_length, Lpv; lia).
  rewrite np_diff_nth by (rewrite Lpv; lia).
  unfold np_scale, np_power.
  rewrite !(map_nth_in (Qmult (property_value p)) _ 0)
    by (rewrite length_map, np_arange_length; lia).
  rewrite !(map_nth_in (Qpower (1 + property_appreciation p)) _ 0%Z)
    by (rewrite np_arange_length; lia).
  rewrite !np_arange_nth by lia. rewrite !Z.add_0_l. reflexivity.
Qed.

(** X6. Every table the generalized projector returns is rectangular: each
    of its twelve columns has exactly one entry per year of the investment
    period, so no array operation of the projector ever meets arrays of
    different lengths. *)
Theorem general_table_is_rectangular
    (p : Params) (h : Z) (out : TestPropertyCalc.Outlook) :
  TestPropertyCalc.calculate_investment_outlook p h = Ok out ->
  length (TestPropertyCalc.Year out) = Z.to_nat h /\
  length (TestPropertyCalc.Rental_Income out) = Z.to_nat h /\
  length (TestPropertyCalc.Interest_Payment out) = Z.to_nat h /\
  length (TestPropertyCalc.Principal_Payment out) = Z.to_nat h /\
  length (TestPropertyCalc.Other_Expenses out) = Z.to_nat h /\
  length (TestPropertyCalc.Total_Cash_Outflows out) = Z.to_nat h /\
  length (TestPropertyCalc.Net_Cash_Flow_Before_Tax out) = Z.to_nat h /\
  length (TestPropertyCalc.Taxable_Income out) = Z.to_nat h /\
  length (TestPropertyCalc.Tax_Benefit out) = Z.to_nat h /\
  length (TestPropertyCalc.Net_Cash_Flow_After_Tax out) = Z.to_nat h /\
  length (TestPropertyCalc.Capital_Gains out) = Z.to_nat h /\
  length (TestPropertyCalc.Final_Net_Gain_Loss out) = Z.to_nat h.
Proof.
  intro H. destruct (general_outlook_inv p h out H) as (pay & _ & Hh & _ & Hc).
  exact (general_columns_lengths p h pay out Hc Hh).
Qed.

Lemma general_table_is_rectangular_witness :
  length (TestPropertyCalc.Final_Net_Gain_Loss
            (general_result (TestPropertyCalc.calculate_investment_outlook
                               sample_params 3))) = 3%nat.
Proof.
  assert (E : TestPropertyCalc.calculate_investment_outlook sample_params 3 =
              Ok (general_result (TestPropertyCalc.calculate_investment_outlook
                                    sample_params 3)))
    by (vm_compute; reflexivity).
  destruct (general_table_is_rectangular sample_params 3 _ E)
    as (_ & _ & _ & _ & _ & _ & _ & _ & _ & _ & _ & HF).
  exact HF.
Defined.

(** X7. A longer investment period only adds years: the tables the
    generalized projector returns for two periods [h1 <= h2] agree, in
    every column, on every year of the shorter one. *)
Theorem longer_horizon_keeps_earlier_years
    (p : Params) (h1 h2 : Z) (o1 o2 : TestPropertyCalc.Outlook) :
  TestPropertyCalc.calculate_investment_outlook p h1 = Ok o1 ->
  TestPropertyCalc.calculate_investment_outlook p h2 = Ok o2 ->
  (h1 <= h2)%Z ->
  forall i, (i < Z.to_nat h1)%nat -> same_year o1 o2 i.
Proof.
  intros H1 H2 Hle i Hi.
  destruct (general_outlook_inv p h1 o1 H1) as (pay & Hpay & Hh1 & _ & Hc1).
  destruct (general_outlook_inv p h2 o2 H2) as (pay' & Hpay' & Hh2 & _ & Hc2).
  assert (pay' = pay) by congruence. subst pay'.
  pose proof (general_entries p h1 pay o1 i Hc1 Hh1 Hi) as E1.
  pose proof (general_entries p h2 pay o2 i Hc2 Hh2 ltac:(lia)) as E2.
  cbv zeta in E1, E2.
  destruct E1 as (A1 & A2 & A3 & A4 & A5 & A6 & A7 & A8 & A9 & A10 & A11 & A12).
  destruct E2 as (B1 & B2 & B3 & B4 & B5 & B6 & B7 & B8 & B9 & B10 & B11 & B12).
  unfold same_year.
  assert (C2 : nth i (TestPropertyCalc.Rental_Income o1) 0 =
               nth i (TestPropertyCalc.Rental_Income o2) 0) by congruence.
  assert (C3 : nth i (TestPropertyCalc.Interest_Payment o1) 0 =
               nth i (TestPropertyCalc.Interest_Payment o2) 0) by congruence.
  assert (C4 : nth i (TestPropertyCalc.Principal_Payment o1) 0 =
               nth i (TestPropertyCalc.Principal_Payment o2) 0) by congruence.
  assert (C5 : nth i (TestPropertyCalc.Other_Expenses o1) 0 =
               nth i (TestPropertyCalc.Other_Expenses o2) 0)
    by (rewrite A5, B5, C2; reflexivity).
  assert (C6 : nth i (TestPropertyCalc.Total_Cash_Outflows o1) 0 =
               nth i (TestPropertyCalc.Total_Cash_Outflows o2) 0)
    by (rewrite A6, B6, C3, C4, C5; reflexivity).
  assert (C7 : nth i (TestPropertyCalc.Net_Cash_Flow_Before_Tax o1) 0 =
               nth i (TestPropertyCalc.Net_Cash_Flow_Before_Tax o2) 0)
    by (rewrite A7, B7, C2, C6; reflexivity).
  assert (C8 : nth i (TestPropertyCalc.Taxable_Income o1) 0 =
               nth i (TestPropertyCalc.Taxable_Income o2) 0)
    by (rewrite A8, B8, C2, C3, C5; reflexivity).
  assert (C9 : nth i (TestPropertyCalc.Tax_Benefit o1) 0 =
               nth i (TestPropertyCalc.Tax_Benefit o2) 0)
    by (rewrite A9, B9, C8; reflexivity).
  assert (C10 : nth i (TestPropertyCalc.Net_Cash_Flow_After_Tax o1) 0 =
                nth i (TestPropertyCalc.Net_Cash_Flow_After_Tax o2) 0)
    by (rewrite A10, B10, C7, C9; reflexivity).
  assert (C11 : nth i (TestPropertyCalc.Capital_Gains o1) 0 =
                nth i (TestPropertyCalc.Capital_Gains o2) 0) by congruence.
  assert (C12 : nth i (TestPropertyCalc.Final_Net_Gain_Loss o1) 0 =
                nth i (TestPropertyCalc.Final_Net_Gain_Loss o2) 0)
    by (rewrite A12, B12, C10, C11; reflexivity).
  assert (C1 : nth i (TestPropertyCalc.Year o1) 0%Z =
               nth i (TestPropertyCalc.Year o2) 0%Z) by congruence.
  tauto.
Qed.

Lemma longer_horizon_keeps_earlier_years_witness :
  same_year
    (general_result (TestPropertyCalc.calculate_investment_outlook sample_params 2))
    (general_result (TestPropertyCalc.calculate_investment_outlook sample_params 3))
    1.
Proof.
  apply (longer_horizon_keeps_earlier_years sample_params 2 3);
    [vm_compute; reflexivity|vm_compute; reflexivity|lia|simpl; lia].
Defined.

(** X8. In every table the generalized projector returns, each year's
    taxable income is the cash flow before tax plus the principal repaid
    minus the depreciation, the cash flow after tax is the cash flow before
    tax minus the tax on the taxable income, and the final net gain/loss is
    rent - interest - principal - other expenses + tax benefit + capital
    gain (exact arithmetic). *)
Theorem yearly_accounting_identities
    (p : Params) (h : Z) (out : TestPropertyCalc.Outlook) :
  TestPropertyCalc.calculate_investment_outlook p h = Ok out ->
  forall i, (i < Z.to_nat h)%nat ->
    nth i (TestPropertyCalc.Taxable_Income out) 0 ==
      nth i (TestPropertyCalc.Net_Cash_Flow_Before_Tax out) 0
      + nth i (TestPropertyCalc.Principal_Payment out) 0 - depreciation p /\
    nth i (TestPropertyCalc.Net_Cash_Flow_After_Tax out) 0 ==
      nth i (TestPropertyCalc.Net_Cash_Flow_Before_Tax out) 0
      - nth i (TestPropertyCalc.Taxable_Income out) 0 * marginal_tax_rate p /\
    nth i (TestPropertyCalc.Final_Net_Gain_Loss out) 0 ==
      nth i (TestPropertyCalc.Rental_Income out) 0
      - nth i (TestPropertyCalc.Interest_Payment out) 0
      - nth i (TestPropertyCalc.Principal_Payment out) 0
      - nth i (TestPropertyCalc.Other_Expenses out) 0
      + nth i (TestPropertyCalc.Tax_Benefit out) 0
      + nth i (TestPropertyCalc.Capital_Gains out) 0.
Proof.
  intros H i Hi.
  destruct (general_outlook_inv p h out H) as (pay & _ & Hh & _ & Hc).
  pose proof (general_entries p h pay out i Hc Hh Hi) as E. cbv zeta in E.
  destruct E as (_ & _ & _ & _ & _ & A6 & A7 & A8 & A9 & A10 & _ & A12).
  split; [|split].
  - rewrite A8, A7, A6. ring.
  - rewrite A10, A9. ring.
  - rewrite A12, A10, A7, A6. ring.
Qed.

Lemma yearly_accounting_identities_witness :
  nth 0 (TestPropertyCalc.Taxable_Income
           (general_result (TestPropertyCalc.calculate_investment_outlook
                              sample_params 3))) 0 ==
  nth 0 (TestPropertyCalc.Net_Cash_Flow_Before_Tax
           (general_result (TestPropertyCalc.calculate_investment_outlook
                              sample_params 3))) 0
  + nth 0 (TestPropertyCalc.Principal_Payment
             (general_result (TestPropertyCalc.calculate_investment_outlook
                                sample_params 3))) 0
  - 7500.
Proof.
  assert (E : TestPropertyCalc.calculate_investment_outlook sample_params 3 =
              Ok (general_result (TestPropertyCalc.calculate_investment_outlook
                                    sample_params 3)))
    by (vm_compute; reflexivity).
  destruct (yearly_accounting_identities sample_params 3 _ E 0%nat ltac:(simpl; lia))
    as (HT & _).
  exact HT.
Defined.

(** X9. With a marginal tax rate of 0 and no appreciation, every year of
    every returned table has tax benefit 0 and capital gain 0, and its final
    net gain/loss is its cash flow after tax, which is its cash flow before
    tax (exact arithmetic). *)
Theorem no_tax_no_appreciation
    (p : Params) (h : Z) (out : TestPropertyCalc.Outlook) :
  TestPropertyCalc.calculate_investment_outlook p h = Ok out ->
  marginal_tax_rate p == 0 -> property_appreciation p == 0 ->
  forall i, (i < Z.to_nat h)%nat ->
    nth i (TestPropertyCalc.Tax_Benefit out) 0 == 0 /\
    nth i (TestPropertyCalc.Capital_Gains out) 0 == 0 /\
    nth i (TestPropertyCalc.Final_Net_Gain_Loss out) 0 ==
      nth i (TestPropertyCalc.Net_Cash_Flow_After_Tax out) 0 /\
    nth i (TestPropertyCalc.Net_Cash_Flow_After_Tax out) 0 ==
      nth i (TestPropertyCalc.Net_Cash_Flow_Before_Tax out) 0.
Proof.
  intros H Hm Ha i Hi.
  destruct (general_outlook_inv p h out H) as (pay & _ & Hh & _ & Hc).
  pose proof (general_entries p h pay out i Hc Hh Hi) as E. cbv zeta in E.
  destruct E as (_ & _ & _ & _ & _ & _ & _ & _ & A9 & A10 & A11 & A12).
  assert (TB : nth i (TestPropertyCalc.Tax_Benefit out) 0 == 0)
    by (rewrite A9, Hm; ring).
  assert (CG : nth i (TestPropertyCalc.Capital_Gains out) 0 == 0).
  { rewrite A11.
    assert (E1 : 1 + property_appreciation p == 1) by (rewrite Ha; ring).
    rewrite E1, !Qpower_1. ring. }
  split; [exact TB|]. split; [exact CG|]. split.
  - rewrite A12, CG. ring.
  - rewrite A10, TB. ring.
Qed.

Lemma no_tax_no_appreciation_witness :
  nth 1 (TestPropertyCalc.Final_Net_Gain_Loss
           (general_result (TestPropertyCalc.calculate_investment_outlook
                              sample_params_no_tax 3))) 0 ==
  nth 1 (TestPropertyCalc.Net_Cash_Flow_After_Tax
           (general_result (TestPropertyCalc.calculate_investment_outlook
                              sample_params_no_tax 3))) 0.
Proof.
  assert (E : TestPropertyCalc.calculate_investment_outlook sample_params_no_tax 3 =
              Ok (general_result (TestPropertyCalc.calculate_investment_outlook
                                    sample_params_no_tax 3)))
    by (vm_compute; reflexivity).
  destruct (no_tax_no_appreciation sample_params_no_tax 3 _ E
              ltac:(reflexivity) ltac:(reflexivity) 1%nat ltac:(simpl; lia))
    as (_ & _ & HF & _).
  exact HF.
Defined.

(** ** Yearly sums and the schedule *)

Lemma py_slice_nonneg {A : Type} (l : list A) (s e : Z) :
  (0 <= s <= e)%Z ->
  py_slice l s e = firstn (Z.to_nat e - Z.to_nat s) (skipn (Z.to_nat s) l).
Proof.
  intros Hse. unfold py_slice, slice_bound.
  replace (s <? 0)%Z with false by (symmetry; apply Z.ltb_ge; lia).
  replace (e <? 0)%Z with false by (symmetry; apply Z.ltb_ge; lia).
  destruct (Z_le_gt_dec (Z.of_nat (length l)) s) as [Hbig|Hsmall].
  - rewrite (Z.min_r s), (Z.min_r e) by lia.
    rewrite Z.sub_diag. simpl firstn.
    rewrite (skipn_all2 l) by lia. rewrite firstn_nil. reflexivity.
  - rewrite (Z.min_l s) by lia.
    destruct (Z_le_gt_dec e (Z.of_nat (length l))) as [He|He].
    + rewrite (Z.min_l e) by lia. f_equal. lia.
    + rewrite (Z.min_r e) by lia.
      rewrite !firstn_all2; try reflexivity; rewrite length_skipn; lia.
Qed.

Lemma firstn_plus {A : Type} (a b : nat) (l : list A) :
  firstn (a + b) l = firstn a l ++ firstn b (skipn a l).
Proof.
  revert l. induction a as [|a IH]; intros l; [reflexivity|].
  destruct l as [|x l]; simpl.
  - rewrite firstn_nil. reflexivity.
  - f_equal. apply IH.
Qed.

(** Summing the sums of consecutive chunks of [q] entries is summing the
    entries. *)
Lemma chunks_sum (q : nat) (l : list Q) (m : nat) :
  np_sum (map (fun j => np_sum (firstn q (skipn (j * q) l))) (seq 0 m)) ==
  np_sum (firstn (m * q) l).
Proof.
  induction m as [|m IH].
  - simpl. reflexivity.
  - rewrite seq_S, map_app, np_sum_app, IH. simpl map.
    rewrite np_sum_cons, np_sum_nil.
    replace (S m * q)%nat with (m * q + q)%nat by lia.
    rewrite firstn_plus, np_sum_app. simpl plus. ring.
Qed.

(** A column of year slices of a schedule adds up to the schedule, once
    the years cover it. *)
Lemma year_slices_sum (l c : list Q) (pf : Z) (m : nat) :
  (0 < pf)%Z -> length c = m ->
  (forall j, (j < m)%nat ->
     nth j c 0 = np_sum (py_slice l (Z.of_nat j * pf) ((Z.of_nat j + 1) * pf))) ->
  (Z.of_nat (length l) <= Z.of_nat m * pf)%Z ->
  np_sum c == np_sum l.
Proof.
  intros Hpf Hlen Hnth Hcover.
  assert (Hc : c = map (fun j => np_sum (firstn (Z.to_nat pf)
                                           (skipn (j * Z.to_nat pf) l))) (seq 0 m)).
  { apply (nth_ext _ _ 0 0).
    - rewrite length_map, length_seq. exact Hlen.
    - intros j Hj. rewrite Hlen in Hj. rewrite (Hnth j Hj).
      rewrite (nth_indep _ 0 ((fun j => np_sum (firstn (Z.to_nat pf)
                                 (skipn (j * Z.to_nat pf) l))) 0%nat))
        by (rewrite length_map, length_seq; exact Hj).
      rewrite (map_nth (fun j => np_sum (firstn (Z.to_nat pf)
                                  (skipn (j * Z.to_nat pf) l)))).
      rewrite seq_nth by exact Hj. simpl plus.
      rewrite py_slice_nonneg by nia.
      replace (Z.to_nat (Z.of_nat j * pf)) with (j * Z.to_nat pf)%nat by nia.
      replace (Z.to_nat ((Z.of_nat j + 1) * pf) - j * Z.to_nat pf)%nat
        with (Z.to_nat pf) by nia.
      reflexivity. }
  rewrite Hc, chunks_sum. rewrite firstn_all2 by nia. reflexivity.
Qed.

(** X10. For a positive payment frequency, the three-way branch of the
    aggregation loop (full year, boundary year, after payoff) computes, for
    every year of every returned table, exactly the sum of the schedule's
    slice [i*f : (i+1)*f], clipped to the schedule as numpy clips it. *)
Theorem yearly_entries_are_year_slices
    (p : Params) (h : Z) (out : TestPropertyCalc.Outlook) :
  TestPropertyCalc.calculate_investment_outlook p h = Ok out ->
  (0 < payment_frequency p)%Z ->
  exists pay,
    calculate_mortgage_payment (loan_amount p) (interest_rate p) (loan_term p)
      (payment_frequency p) = Ok pay /\
    let '(_, interests, principals) :=
      generate_amortization_schedule (loan_amount p) (interest_rate p)
        (loan_term p) (payment_frequency p) pay in
    forall i, (i < Z.to_nat h)%nat ->
      nth i (TestPropertyCalc.Interest_Payment out) 0 =
        np_sum (py_slice interests (Z.of_nat i * payment_frequency p)
                  ((Z.of_nat i + 1) * payment_frequency p)) /\
      nth i (TestPropertyCalc.Principal_Payment out) 0 =
        np_sum (py_slice principals (Z.of_nat i * payment_frequency p)
                  ((Z.of_nat i + 1) * payment_frequency p)).
Proof.
  intros H Hpf.
  destruct (general_outlook_inv p h out H) as (pay & Hpay & Hh & Hnz & Hc).
  exists pay. split; [exact Hpay|].
  pose proof (general_loan_columns p h pay out Hc) as Hl. cbv zeta in Hl.
  destruct Hl as (GI & GP & _ & _).
  pose proof (schedule_lengths (loan_amount p) (interest_rate p) (loan_term p)
                (payment_frequency p) pay) as Hs.
  destruct (generate_amortization_schedule _ _ _ _ pay) as [[pm it] pr].
  cbn [fst snd] in GI, GP. destruct Hs as (Lit & Lpr & _).
  intros i Hi. rewrite GI, GP, <- Lit.
  apply year_loop_entry; try assumption; [lia|left; exact Hpf].
Qed.

Lemma yearly_entries_are_year_slices_witness :
  exists pay,
    calculate_mortgage_payment 1000 (1 # 10) 1 2 = Ok pay /\
    let '(_, interests, principals) :=
      generate_amortization_schedule 1000 (1 # 10) 1 2 pay in
    forall i, (i < Z.to_nat 3)%nat ->
      nth i (TestPropertyCalc.Interest_Payment
               (general_result (TestPropertyCalc.calculate_investment_outlook
                                  sample_params 3))) 0 =
        np_sum (py_slice interests (Z.of_nat i * 2) ((Z.of_nat i + 1) * 2)) /\
      nth i (TestPropertyCalc.Principal_Payment
               (general_result (TestPropertyCalc.calculate_investment_outlook
                                  sample_params 3))) 0 =
        np_sum (py_slice principals (Z.of_nat i * 2) ((Z.of_nat i + 1) * 2)).
Proof.
  apply (yearly_entries_are_year_slices sample_params 3).
  - vm_compute. reflexivity.
  - reflexivity.
Defined.

(** X11. When the payment frequency is positive and the investment period
    covers every payment made, the yearly interest of a returned table adds
    up to the interest of the whole schedule, and the yearly principal to
    its principal: the aggregation loses and duplicates no period (exact
    arithmetic). *)
Theorem yearly_sums_cover_schedule
    (p : Params) (h : Z) (out : TestPropertyCalc.Outlook) :
  TestPropertyCalc.calculate_investment_outlook p h = Ok out ->
  (0 < payment_frequency p)%Z ->
  exists pay,
    calculate_mortgage_payment (loan_amount p) (interest_rate p) (loan_term p)
      (payment_frequency p) = Ok pay /\
    let '(payments, interests, principals) :=
      generate_amortization_schedule (loan_amount p) (interest_rate p)
        (loan_term p) (payment_frequency p) pay in
    (Z.of_nat (length payments) <= h * payment_frequency p)%Z ->
    np_sum (TestPropertyCalc.Interest_Payment out) == np_sum interests /\
    np_sum (TestPropertyCalc.Principal_Payment out) == np_sum principals.
Proof.
  intros H Hpf.
  destruct (general_outlook_inv p h out H) as (pay & Hpay & Hh & Hnz & Hc).
  exists pay. split; [exact Hpay|].
  pose proof (general_loan_columns p h pay out Hc) as Hl. cbv zeta in Hl.
  destruct Hl as (GI & GP & LI & LP).
  pose proof (schedule_lengths (loan_amount p) (interest_rate p) (loan_term p)
                (payment_frequency p) pay) as Hs.
  destruct (generate_amortization_schedule _ _ _ _ pay) as [[pm it] pr].
  cbn [fst snd] in GI, GP. destruct Hs as (Lit & Lpr & _).
  intro Hcover.
  assert (Hentry : forall j, (j < Z.to_nat h)%nat ->
            nth j (TestPropertyCalc.Interest_Payment out) 0 =
              np_sum (py_slice it (Z.of_nat j * payment_frequency p)
                        ((Z.of_nat j + 1) * payment_frequency p)) /\
            nth j (TestPropertyCalc.Principal_Payment out) 0 =
              np_sum (py_slice pr (Z.of_nat j * payment_frequency p)
                        ((Z.of_nat j + 1) * payment_frequency p))).
  { intros j Hj. rewrite GI, GP, <- Lit.
    apply year_loop_entry; try assumption; [lia|left; exact Hpf]. }
  split.
  - apply (year_slices_sum it _ (payment_frequency p) (Z.to_nat h)); try assumption.
    + intros j Hj. apply Hentry. exact Hj.
    + rewrite Lit. lia.
  - apply (year_slices_sum pr _ (payment_frequency p) (Z.to_nat h)); try assumption.
    + intros j Hj. apply Hentry. exact Hj.
    + rewrite Lpr. lia.
Qed.

Lemma yearly_sums_cover_schedule_witness :
  exists pay,
    calculate_mortgage_payment 1000 (1 # 10) 1 2 = Ok pay /\
    let '(payments, interests, principals) :=
      generate_amortization_schedule 1000 (1 # 10) 1 2 pay in
    (Z.of_nat (length payments) <= 3 * 2)%Z ->
    np_sum (TestPropertyCalc.Interest_Payment
              (general_result (TestPropertyCalc.calculate_investment_outlook
                                 sample_params 3))) == np_sum interests /\
    np_sum (TestPropertyCalc.Principal_Payment
              (general_result (TestPropertyCalc.calculate_investment_outlook
                                 sample_params 3))) == np_sum principals.
Proof.
  apply (yearly_sums_cover_schedule sample_params 3).
  - vm_compute. reflexivity.
  - reflexivity.
Defined.

Lemma general_yearly_sums (p : Params) (h : Z) (pay : Q)
    (out : TestPropertyCalc.Outlook) :
  general_columns p h pay out -> (0 < payment_frequency p)%Z ->
  let sched := generate_amortization_schedule (loan_amount p) (interest_rate p)
                 (loan_term p) (payment_frequency p) pay in
  (Z.of_nat (length (fst (fst sched))) <= h * payment_frequency p)%Z ->
  np_sum (TestPropertyCalc.Interest_Payment out) == np_sum (snd (fst sched)) /\
  np_sum (TestPropertyCalc.Principal_Payment out) == np_sum (snd sched).
Proof.
  intros Hc Hpf sched. subst sched.
  pose proof (general_loan_columns p h pay out Hc) as Hl. cbv zeta in Hl.
  destruct Hl as (GI & GP & LI & LP).
  pose proof (schedule_lengths (loan_amount p) (interest_rate p) (loan_term p)
                (payment_frequency p) pay) as Hs.
  destruct (generate_amortization_schedule _ _ _ _ pay) as [[pm it] pr].
  cbn [fst snd] in *. destruct Hs as (Lit & Lpr & _).
  intro Hcover.
  assert (Hentry : forall j, (j < Z.to_nat h)%nat ->
            nth j (TestPropertyCalc.Interest_Payment out) 0 =
              np_sum (py_slice it (Z.of_nat j * payment_frequency p)
                        ((Z.of_nat j + 1) * payment_frequency p)) /\
            nth j (TestPropertyCalc.Principal_Payment out) 0 =
              np_sum (py_slice pr (Z.of_nat j * payment_frequency p)
                        ((Z.of_nat j + 1) * payment_frequency p))).
  { intros j Hj. rewrite GI, GP, <- Lit.
    apply year_loop_entry; try assumption; [lia|lia|left; exact Hpf]. }
  split.
  - apply (year_slices_sum it _ (payment_frequency p) (Z.to_nat h)); try assumption.
    + intros j Hj. apply Hentry. exact Hj.
    + rewrite Lit. nia.
  - apply (year_slices_sum pr _ (payment_frequency p) (Z.to_nat h)); try assumption.
    + intros j Hj. apply Hentry. exact Hj.
    + rewrite Lpr. nia.
Qed.

Lemma annuity_interest_sum
    (principal annual_rate : Q) (years payments_per_year : Z) :
  valid_loan principal annual_rate years payments_per_year ->
  np_sum (map (fun t : Q * Q * Q => snd (fst t))
            (records annual_rate payments_per_year
               (principal * (annual_rate / inject_Z payments_per_year *
                  (1 + annual_rate / inject_Z payments_per_year)
                    ^ (years * payments_per_year)) /
                ((1 + annual_rate / inject_Z payments_per_year)
                   ^ (years * payments_per_year) - 1))
               (Z.to_nat (years * payments_per_year)) principal))
  == inject_Z (years * payments_per_year)
     * (principal * (annual_rate / inject_Z payments_per_year *
          (1 + annual_rate / inject_Z payments_per_year)
            ^ (years * payments_per_year)) /
        ((1 + annual_rate / inject_Z payments_per_year)
           ^ (years * payments_per_year) - 1))
     - principal.
Proof.
  intro valid.
  destruct (periods_pos _ _ _ _ valid) as (_ & Hn).
  pose proof (annuity_payments_repeat _ _ _ _ valid) as Hrep.
  pose proof (triples_sum_split _ (records_split annual_rate payments_per_year
                (principal * (annual_rate / inject_Z payments_per_year *
                   (1 + annual_rate / inject_Z payments_per_year)
                     ^ (years * payments_per_year)) /
                 ((1 + annual_rate / inject_Z payments_per_year)
                    ^ (years * payments_per_year) - 1))
                (Z.to_nat (years * payments_per_year)) principal)) as Hsplit.
  pose proof (annuity_principal_sum _ _ _ _ valid) as Hps.
  rewrite Hps, Hrep, np_sum_repeat, Hn in Hsplit.
  set (si := np_sum (map _ _)) in *. set (tot := inject_Z _ * _) in *. lra.
Qed.

(** X12. For a valid loan with a positive rate and an investment period
    of at least the loan term, the generalized projector returns a table
    whose yearly principal adds up to the loan amount and whose yearly
    interest adds up to the number of periods times the payment, minus the
    loan amount (exact arithmetic). *)
Theorem projection_repays_the_loan (p : Params) (h : Z) :
  valid_loan (loan_amount p) (interest_rate p) (loan_term p) (payment_frequency p) ->
  (loan_term p <= h)%Z ->
  exists out pay,
    TestPropertyCalc.calculate_investment_outlook p h = Ok out /\
    calculate_mortgage_payment (loan_amount p) (interest_rate p) (loan_term p)
      (payment_frequency p) = Ok pay /\
    np_sum (TestPropertyCalc.Principal_Payment out) == loan_amount p /\
    np_sum (TestPropertyCalc.Interest_Payment out) ==
      inject_Z (loan_term p * payment_frequency p) * pay - loan_amount p.
Proof.
  intros valid Hle.
  assert (Hh : (0 <= h)%Z) by (destruct valid as (_ & _ & Ht & _); lia).
  destruct (general_outlook_returns_valid p h valid Hh) as (out & Hout).
  destruct (general_outlook_inv p h out Hout) as (pay & Hpay & _ & _ & Hc).
  exists out, pay. split; [exact Hout|]. split; [exact Hpay|].
  assert (Hpf : (0 < payment_frequency p)%Z) by (destruct valid as (_ & _ & _ & Hf); exact Hf).
  pose proof (general_yearly_sums p h pay out Hc Hpf) as Hsum. cbv zeta in Hsum.
  rewrite (calculate_mortgage_payment_valid _ _ _ _ valid) in Hpay.
  injection Hpay as <-.
  unfold generate_amortization_schedule in Hsum.
  rewrite amortization_final_after, amortization_after_records in Hsum.
  cbn [payment_list interest_list principal_list fst snd] in Hsum.
  destruct (periods_pos _ _ _ _ valid) as (_ & Hn).
  destruct Hsum as (HI & HP).
  { rewrite length_map, (annuity_records_length _ _ _ _ valid) by lia.
    rewrite Hn. destruct valid as (_ & _ & Ht & Hf). nia. }
  split.
  - rewrite HP. apply annuity_principal_sum. exact valid.
  - rewrite HI. apply annuity_interest_sum. exact valid.
Qed.

Lemma projection_repays_the_loan_witness :
  exists out pay,
    TestPropertyCalc.calculate_investment_outlook sample_params 3 = Ok out /\
    calculate_mortgage_payment 1000 (1 # 10) 1 2 = Ok pay /\
    np_sum (TestPropertyCalc.Principal_Payment out) == 1000 /\
    np_sum (TestPropertyCalc.Interest_Payment out) == inject_Z (1 * 2) * pay - 1000.
Proof.
  apply (projection_repays_the_loan sample_params 3).
  - unfold valid_loan. repeat split; reflexivity.
  - simpl. lia.
Defined.

(** ** The simple projector *)

Lemma simple_columns_lengths (p : Params) (pay : Q) (out : PropertyCalc.Outlook) :
  simple_columns p pay out ->
  length (PropertyCalc.Year out) = Z.to_nat (loan_term p) /\
  length (PropertyCalc.Rental_Income out) = Z.to_nat (loan_term p) /\
  length (PropertyCalc.Interest_Payment out) = Z.to_nat (loan_term p) /\
  length (PropertyCalc.Principal_Payment out) = Z.to_nat (loan_term p) /\
  length (PropertyCalc.Total_Expenses_Depreciation out) = Z.to_nat (loan_term p) /\
  length (PropertyCalc.Net_Rental_Loss out) = Z.to_nat (loan_term p) /\
  length (PropertyCalc.Tax_Benefit out) = Z.to_nat (loan_term p) /\
  length (PropertyCalc.Cashflow_after_Negative_Gearing out) = Z.to_nat (loan_term p) /\
  length (PropertyCalc.Capital_Gains out) = Z.to_nat (loan_term p) /\
  length (PropertyCalc.Final_Net_Gain_Loss out) = Z.to_nat (loan_term p).
Proof.
  intro Hc. unfold simple_columns in Hc. cbv zeta in Hc.
  destruct Hc as (SY & SR & SI & SP & ST & SN & STB & SC & SCG & SF).
  set (h := loan_term p) in *.
  assert (LY : length (PropertyCalc.Year out) = Z.to_nat h)
    by (rewrite SY; apply years_length).
  assert (LR : length (PropertyCalc.Rental_Income out) = Z.to_nat h)
    by (rewrite SR; apply rental_income_array_length).
  assert (LI : length (PropertyCalc.Interest_Payment out) = Z.to_nat h)
    by (rewrite SI, length_map; apply range_length).
  assert (LP : length (PropertyCalc.Principal_Payment out) = Z.to_nat h)
    by (rewrite SP, length_map; apply range_length).
  assert (LT : length (PropertyCalc.Total_Expenses_Depreciation out) = Z.to_nat h)
    by (rewrite ST; auto 14 with np_len).
  assert (LN : length (PropertyCalc.Net_Rental_Loss out) = Z.to_nat h)
    by (rewrite SN; auto with np_len).
  assert (LTB : length (PropertyCalc.Tax_Benefit out) = Z.to_nat h)
    by (rewrite STB; auto with np_len).
  assert (LC : length (PropertyCalc.Cashflow_after_Negative_Gearing out) = Z.to_nat h)
    by (rewrite SC; auto with np_len).
  assert (LCG : length (PropertyCalc.Capital_Gains out) = Z.to_nat h).
  { rewrite SCG. destruct (Z_le_gt_dec 0 h) as [Hh|Hh].
    - apply capital_gains_column. exact Hh.
    - replace (np_arange 0 (h + 1)) with (@nil Z)
        by (unfold np_arange; replace (Z.to_nat (h + 1 - 0)) with 0%nat by lia;
            reflexivity).
      simpl. rewrite py_slice_nil. simpl. lia. }
  assert (LF : length (PropertyCalc.Final_Net_Gain_Loss out) = Z.to_nat h)
    by (rewrite SF; auto with np_len).
  tauto.
Qed.

Lemma simple_outlook_returns (p : Params) (pay : Q) :
  calculate_mortgage_payment (loan_amount p) (interest_rate p) (loan_term p)
    (payment_frequency p) = Ok pay ->
  returns (PropertyCalc.calculate_investment_outlook p).
Proof.
  intro Hpay. unfold PropertyCalc.calculate_investment_outlook, returns.
  rewrite Hpay. cbn [bind].
  destruct (generate_amortization_schedule _ _ _ _ pay) as [[pm it] pr].
  eexists. reflexivity.
Qed.

Lemma length_zero_nil {A : Type} (l : list A) : length l = 0%nat -> l = [].
Proof. destruct l; [reflexivity|discriminate]. Qed.

(** The two projectors on a negative term / period: the simple one
    returns the empty table, the generalized one raises. *)
Example negative_term_simple_returns_general_raises :
  PropertyCalc.calculate_investment_outlook sample_params_no_term
    = Ok empty_simple_outlook /\
  TestPropertyCalc.calculate_investment_outlook sample_params_no_term
    (loan_term sample_params_no_term) = Raise ValueError.
Proof. split; vm_compute; reflexivity. Qed.

(** X14. In every table the simple projector returns, each year's total
    expenses are the interest of the year, the other expenses of the year
    (escalating items at exponent [i+1], flat items, manager fee on the
    rent) and the depreciation; the cash flow after negative gearing is the
    net rental loss times [1 - marginal_tax_rate]; and the final net
    gain/loss adds the capital gain of the year (exact arithmetic). *)
Theorem simple_yearly_identities (p : Params) (out : PropertyCalc.Outlook) :
  PropertyCalc.calculate_investment_outlook p = Ok out ->
  forall i, (i < Z.to_nat (loan_term p))%nat ->
    nth i (PropertyCalc.Total_Expenses_Depreciation out) 0 ==
      nth i (PropertyCalc.Interest_Payment out) 0
      + (council_rates p * (1 + annual_expense_increase p) ^ (Z.of_nat i + 1)
         + water_rates p * (1 + annual_expense_increase p) ^ (Z.of_nat i + 1)
         + strata_fees p * (1 + annual_expense_increase p) ^ (Z.of_nat i + 1)
         + insurance p * (1 + annual_expense_increase p) ^ (Z.of_nat i + 1)
         + land_tax p + repairs_and_maintenance p
         + property_manager_rate p * nth i (PropertyCalc.Rental_Income out) 0)
      + depreciation p /\
    nth i (PropertyCalc.Net_Rental_Loss out) 0 ==
      nth i (PropertyCalc.Rental_Income out) 0
      - nth i (PropertyCalc.Total_Expenses_Depreciation out) 0 /\
    nth i (PropertyCalc.Cashflow_after_Negative_Gearing out) 0 ==
      nth i (PropertyCalc.Net_Rental_Loss out) 0 * (1 - marginal_tax_rate p) /\
    nth i (PropertyCalc.Final_Net_Gain_Loss out) 0 ==
      nth i (PropertyCalc.Net_Rental_Loss out) 0 * (1 - marginal_tax_rate p)
      + nth i (PropertyCalc.Capital_Gains out) 0.
Proof.
  intros H i Hi. destruct (simple_outlook_inv p out H) as (pay & _ & Hc).
  pose proof (simple_columns_lengths p pay out Hc) as
    (LY & LR & LI & LP & LT & LN & LTB & LC & LCG & LF).
  unfold simple_columns in Hc. cbv zeta in Hc.
  destruct Hc as (SY & SR & SI & SP & ST & SN & STB & SC & SCG & SF).
  set (h := loan_term p) in *.
  assert (E1 : nth i (PropertyCalc.Net_Rental_Loss out) 0 =
               nth i (PropertyCalc.Rental_Income out) 0
               - nth i (PropertyCalc.Total_Expenses_Depreciation out) 0)
    by (rewrite SN at 1; apply (np_sub_nth _ _ (Z.to_nat h)); assumption).
  assert (E2 : nth i (PropertyCalc.Tax_Benefit out) 0 =
               - nth i (PropertyCalc.Net_Rental_Loss out) 0 * marginal_tax_rate p)
    by (rewrite STB at 1; apply (np_neg_times_nth _ _ (Z.to_nat h)); assumption).
  assert (E3 : nth i (PropertyCalc.Cashflow_after_Negative_Gearing out) 0 =
               nth i (PropertyCalc.Net_Rental_Loss out) 0
               + nth i (PropertyCalc.Tax_Benefit out) 0)
    by (rewrite SC at 1; apply (np_add_nth _ _ (Z.to_nat h)); assumption).
  assert (E4 : nth i (PropertyCalc.Final_Net_Gain_Loss out) 0 =
               nth i (PropertyCalc.Cashflow_after_Negative_Gearing out) 0
               + nth i (PropertyCalc.Capital_Gains out) 0)
    by (rewrite SF at 1; apply (np_add_nth _ _ (Z.to_nat h)); assumption).
  split; [|split; [|split]].
  - rewrite ST at 1. apply (simple_total_nth p h); assumption.
  - rewrite E1. reflexivity.
  - rewrite E3, E2. ring.
  - rewrite E4, E3, E2. ring.
Qed.

Lemma simple_yearly_identities_witness :
  nth 0 (PropertyCalc.Cashflow_after_Negative_Gearing
           (simple_result (PropertyCalc.calculate_investment_outlook
                             sample_params))) 0 ==
  nth 0 (PropertyCalc.Net_Rental_Loss
           (simple_result (PropertyCalc.calculate_investment_outlook
                             sample_params))) 0 * (1 - (32 # 100)).
Proof.
  assert (E : PropertyCalc.calculate_investment_outlook sample_params =
              Ok (simple_result (PropertyCalc.calculate_investment_outlook
                                   sample_params)))
    by (vm_compute; reflexivity).
  destruct (simple_yearly_identities sample_params _ E 0%nat ltac:(simpl; lia))
    as (_ & _ & HC & _).
  exact HC.
Defined.

(** * Further edge behaviour of the schedule loop *)

(** X15, in exact arithmetic, for every input. In the record whose update
    goes below zero, the principal portion is the balance that was left and
    the payment is that balance plus its interest, which is smaller than
    the regular payment; this record is the last, and the balance ends at
    0. *)
Theorem clamped_record_repays_remaining_balance
    (principal annual_rate : Q) (years payments_per_year : Z) (payment_amount : Q) :
  let s := amortization_final principal annual_rate years payments_per_year
             payment_amount in
  let bal := running_balance annual_rate payments_per_year payment_amount principal in
  forall i, (i < length (payment_list s))%nat -> bal (S i) < 0 ->
    S i = length (payment_list s) /\
    nth i (principal_list s) 0 == bal i /\
    nth i (payment_list s) 0 == bal i + nth i (interest_list s) 0 /\
    nth i (payment_list s) 0 < payment_amount /\
    balance s = 0.
Proof.
  intros s bal i Hi Hneg. subst s bal.
  rewrite amortization_final_after, amortization_after_records in *.
  cbn [payment_list interest_list principal_list balance] in *.
  rewrite length_map in *.
  set (n := Z.to_nat (years * payments_per_year)) in *.
  pose proof (records_nth annual_rate payments_per_year payment_amount n principal
                i Hi) as (H1 & _ & H3).
  destruct (H3 Hneg) as (H4 & H5 & H6).
  rewrite (map_nth (fun t : Q * Q * Q => fst (fst t)) _ (0,0,0) i).
  rewrite (map_nth (fun t : Q * Q * Q => snd (fst t)) _ (0,0,0) i).
  rewrite (map_nth (@snd (Q * Q) Q) _ (0,0,0) i).
  assert (Hend : end_balance annual_rate payments_per_year payment_amount n principal = 0).
  { apply (end_balance_payoff _ _ _ n principal (S i));
      [|pose proof (records_length_le annual_rate payments_per_year
                      payment_amount n principal); lia].
    split; [lia|]. split; [exact Hneg|]. intros j Hj.
    apply (records_before_nonneg annual_rate payments_per_year payment_amount
             n principal i j Hi). lia. }
  change (running_balance annual_rate payments_per_year payment_amount principal (S i))
    with (next_balance annual_rate payments_per_year payment_amount
            (running_balance annual_rate payments_per_year payment_amount principal i))
    in *.
  unfold next_balance in *.
  rewrite H6, H5, H1.
  set (b := running_balance annual_rate payments_per_year payment_amount principal i) in *.
  set (x := annual_rate / inject_Z payments_per_year) in *.
  set (bx := b * x) in *.
  split; [exact H4|]. split; [ring|]. split; [ring|]. split; [lra|exact Hend].
Qed.

(** A payment that does not cover the interest never brings the balance
    down. *)
Lemma underpaid_balance_grows
    (annual_rate : Q) (payments_per_year : Z) (payment_amount principal : Q)
    (k : nat) :
  0 <= principal -> 0 <= annual_rate / inject_Z payments_per_year ->
  payment_amount <= principal * (annual_rate / inject_Z payments_per_year) ->
  principal <= running_balance annual_rate payments_per_year payment_amount principal k.
Proof.
  intros HP Hr Hpay. induction k as [|k IH]; [apply Qle_refl|].
  change (running_balance annual_rate payments_per_year payment_amount principal (S k))
    with (next_balance annual_rate payments_per_year payment_amount
            (running_balance annual_rate payments_per_year payment_amount principal k)).
  unfold next_balance.
  set (b := running_balance _ _ _ _ k) in *.
  set (x := annual_rate / inject_Z payments_per_year) in *.
  assert (H : principal * x <= b * x) by (apply Qmult_le_compat_r; assumption).
  set (px := principal * x) in *. set (bx := b * x) in *. lra.
Qed.

(** X16. A payment that does not cover the first period's interest never
    amortizes: with a non-negative principal and rate and a positive
    frequency, the loop runs the whole term without clamping and leaves a
    balance of at least the principal. *)
Theorem underpayment_never_amortizes
    (principal annual_rate : Q) (years payments_per_year : Z) (payment_amount : Q) :
  0 <= principal -> 0 <= annual_rate -> (0 < payments_per_year)%Z ->
  payment_amount <= principal * (annual_rate / inject_Z payments_per_year) ->
  let s := amortization_final principal annual_rate years payments_per_year
             payment_amount in
  length (payment_list s) = Z.to_nat (years * payments_per_year) /\
  principal <= balance s.
Proof.
  intros HP Hrate Hpf Hpay s. subst s.
  rewrite amortization_final_after, amortization_after_records.
  cbn [payment_list balance]. rewrite length_map.
  assert (Hr : 0 <= annual_rate / inject_Z payments_per_year).
  { unfold Qdiv. apply Qmult_le_0_compat; [exact Hrate|].
    apply Qinv_le_0_compat. unfold Qle. simpl. lia. }
  assert (Hnn : forall j, 0 <= running_balance annual_rate payments_per_year
                                 payment_amount principal j).
  { intro j. eapply Qle_trans; [exact HP|].
    apply underpaid_balance_grows; assumption. }
  split.
  - apply records_length_full. intros j _. apply Hnn.
  - rewrite end_balance_full by (intros j _; apply Hnn).
    apply underpaid_balance_grows; assumption.
Qed.

Lemma underpayment_never_amortizes_witness :
  length (payment_list (amortization_final 1000 (1 # 10) 1 2 40)) = Z.to_nat (1 * 2) /\
  1000 <= balance (amortization_final 1000 (1 # 10) 1 2 40).
Proof.
  apply (underpayment_never_amortizes 1000 (1 # 10) 1 2 40).
  - vm_compute. discriminate.
  - vm_compute. discriminate.
  - reflexivity.
  - vm_compute. discriminate.
Defined.

(** Periods that stay at or above zero can be run first, and the rest of
    the loop run from the balance they leave. *)
Lemma records_app
    (annual_rate : Q) (payments_per_year : Z) (payment_amount : Q)
    (a c : nat) (b : Q) :
  (forall j, (1 <= j <= a)%nat ->
     0 <= running_balance annual_rate payments_per_year payment_amount b j) ->
  records annual_rate payments_per_year payment_amount (a + c) b =
  records annual_rate payments_per_year payment_amount a b ++
  records annual_rate payments_per_year payment_amount c
    (running_balance annual_rate payments_per_year payment_amount b a).
Proof.
  revert b. induction a as [|a IH]; intros b H; [reflexivity|].
  change (S a + c)%nat with (S (a + c)). cbn [records].
  destruct (Qltb (next_balance annual_rate payments_per_year payment_amount b) 0) eqn:E.
  - exfalso. apply Qltb_true in E. specialize (H 1%nat ltac:(lia)).
    apply (Qlt_irrefl 0). eapply Qle_lt_trans; [exact H|exact E].
  - rewrite running_balance_S, IH; [reflexivity|].
    intros j Hj. rewrite <- running_balance_S. apply H. lia.
Qed.

(** X17. A schedule can be cut after whole years: when the balance has not
    gone below zero during the first [y0] years, the schedule of the whole
    term is the schedule of those [y0] years followed by the schedule, for
    the remaining years and the same payment, of a loan whose principal is
    the balance they left. *)
Theorem schedule_continues_from_balance
    (principal annual_rate : Q) (years y0 payments_per_year : Z)
    (payment_amount : Q) :
  (0 <= y0 <= years)%Z -> (0 < payments_per_year)%Z ->
  (forall j, (1 <= j <= Z.to_nat (y0 * payments_per_year))%nat ->
     0 <= running_balance annual_rate payments_per_year payment_amount principal j) ->
  let first := amortization_final principal annual_rate y0 payments_per_year
                 payment_amount in
  let rest := amortization_final (balance first) annual_rate (years - y0)
                payments_per_year payment_amount in
  generate_amortization_schedule principal annual_rate years payments_per_year
    payment_amount =
  (payment_list first ++ payment_list rest,
   interest_list first ++ interest_list rest,
   principal_list first ++ principal_list rest).
Proof.
  intros Hy Hpf Hnn first rest. subst first rest.
  unfold generate_amortization_schedule.
  rewrite !amortization_final_after, !amortization_after_records.
  cbn [payment_list interest_list principal_list balance].
  replace (Z.to_nat (years * payments_per_year))
    with (Z.to_nat (y0 * payments_per_year)
          + Z.to_nat ((years - y0) * payments_per_year))%nat by nia.
  rewrite (end_balance_full _ _ _ _ _ Hnn).
  rewrite (records_app _ _ _ _ _ _ Hnn), !map_app. reflexivity.
Qed.

Lemma schedule_continues_from_balance_witness :
  generate_amortization_schedule 1000 (1 # 10) 2 1 500 =
  (payment_list (amortization_final 1000 (1 # 10) 1 1 500) ++
   payment_list (amortization_final
                   (balance (amortization_final 1000 (1 # 10) 1 1 500))
                   (1 # 10) (2 - 1) 1 500),
   interest_list (amortization_final 1000 (1 # 10) 1 1 500) ++
   interest_list (amortization_final
                    (balance (amortization_final 1000 (1 # 10) 1 1 500))
                    (1 # 10) (2 - 1) 1 500),
   principal_list (amortization_final 1000 (1 # 10) 1 1 500) ++
   principal_list (amortization_final
                     (balance (amortization_final 1000 (1 # 10) 1 1 500))
                     (1 # 10) (2 - 1) 1 500)).
Proof.
  apply (schedule_continues_from_balance 1000 (1 # 10) 2 1 1 500).
  - lia.
  - lia.
  - intros j Hj. assert (j = 1%nat) by (simpl in Hj; lia). subst j.
    vm_compute. discriminate.
Defined.

Lemma clamped_record_repays_remaining_balance_witness :
  nth 1 (principal_list (amortization_final 100 (1 # 10) 1 3 60)) 0 ==
  running_balance (1 # 10) 3 60 100 1.
Proof.
  destruct (clamped_record_repays_remaining_balance 100 (1 # 10) 1 3 60 1%nat)
    as (_ & H & _).
  - vm_compute. lia.
  - vm_compute. reflexivity.
  - exact H.
Defined.

(** * Inputs that raise, and inputs that are not checked *)

Lemma general_empty_for_zero_period (p : Params) (pay : Q) :
  calculate_mortgage_payment (loan_amount p) (interest_rate p) (loan_term p)
    (payment_frequency p) = Ok pay ->
  TestPropertyCalc.calculate_investment_outlook p 0 = Ok empty_general_outlook.
Proof.
  intro Hpay.
  destruct (general_outlook_returns p 0 pay Hpay ltac:(lia)) as (out & Hout).
  destruct (general_outlook_inv p 0 out Hout) as (pay' & _ & Hh & _ & Hc).
  pose proof (general_columns_lengths p 0 pay' out Hc Hh) as
    (L1 & L2 & L3 & L4 & L5 & L6 & L7 & L8 & L9 & L10 & L11 & L12).
  rewrite Hout. f_equal. destruct out; cbn in *.
  apply length_zero_nil in L1, L2, L3, L4, L5, L6, L7, L8, L9, L10, L11, L12.
  subst. reflexivity.
Qed.

(** C4, as the code has it. The code checks nothing and has no
    [InvalidInput]; what raises is a division by zero (or numpy, on a
    negative array size). [calculate_mortgage_payment] raises whenever
    [payments_per_year] is 0, whenever [years] is 0 and whenever
    [annual_rate] is 0, and whether it raises does not depend on the
    principal: a principal [<= 0], a negative term or a negative frequency
    is not checked (see [nonpositive_inputs_do_not_raise]). The generalized
    projector raises whenever the payment raises and whenever the
    investment period is negative; for an investment period of 0 it
    returns the empty table as soon as the payment is computed. Nothing is
    said of the other inputs. *)
Theorem payment_and_projection_raising_inputs :
  (forall principal annual_rate years,
     raises (calculate_mortgage_payment principal annual_rate years 0)) /\
  (forall principal annual_rate payments_per_year,
     raises (calculate_mortgage_payment principal annual_rate 0 payments_per_year)) /\
  (forall principal annual_rate years payments_per_year,
     annual_rate == 0 ->
     raises (calculate_mortgage_payment principal annual_rate years payments_per_year)) /\
  (forall principal principal' annual_rate years payments_per_year,
     raises (calculate_mortgage_payment principal annual_rate years payments_per_year)
     <->
     raises (calculate_mortgage_payment principal' annual_rate years payments_per_year)) /\
  (forall p h,
     raises (calculate_mortgage_payment (loan_amount p) (interest_rate p)
               (loan_term p) (payment_frequency p)) ->
     raises (TestPropertyCalc.calculate_investment_outlook p h)) /\
  (forall p h,
     (h < 0)%Z -> raises (TestPropertyCalc.calculate_investment_outlook p h)) /\
  (forall p,
     returns (calculate_mortgage_payment (loan_amount p) (interest_rate p)
                (loan_term p) (payment_frequency p)) ->
     TestPropertyCalc.calculate_investment_outlook p 0 = Ok empty_general_outlook).
Proof.
  split; [|split; [|split; [|split; [|split; [|split]]]]].
  - intros. apply payment_raises_iff. left. reflexivity.
  - intros. apply payment_raises_iff. right; right.
    rewrite Z.mul_0_l. reflexivity.
  - exact payment_raises_zero_rate.
  - intros. rewrite !payment_raises_iff. reflexivity.
  - intros p h H. apply general_raises_iff. left. exact H.
  - intros p h H. apply general_raises_iff. right. exact H.
  - intros p (pay & Hpay). exact (general_empty_for_zero_period p pay Hpay).
Qed.

(** Inputs that pass every condition of C4 and raise all the same: a rate
    of -200% over two yearly periods makes the divisor [(1 - 2)^2 - 1]
    zero; and on binary64 the power [2.0 ** 1100] overflows. *)
Example accepted_inputs_can_raise :
  calculate_mortgage_payment 1000 (-2) 2 1 = Raise ZeroDivisionError /\
  Binary64.calculate_mortgage_payment (Binary64.of_int 1000) (Binary64.of_int 1) 1100 1
    = Raise OverflowError.
Proof. split; vm_compute; reflexivity. Qed.

(** X13. The simple projector adds no check of its own: it raises whenever
    [calculate_mortgage_payment] raises, and every table it returns has
    ten columns of [max 0 loan_term] entries each. For a negative loan
    term whose payment is computed it returns the empty table, where the
    generalized projector, given the same negative period, raises. *)
Theorem simple_projector_errors_and_shape (p : Params) :
  (raises (calculate_mortgage_payment (loan_amount p) (interest_rate p)
             (loan_term p) (payment_frequency p)) ->
   raises (PropertyCalc.calculate_investment_outlook p)) /\
  (forall out, PropertyCalc.calculate_investment_outlook p = Ok out ->
     length (PropertyCalc.Year out) = Z.to_nat (loan_term p) /\
     length (PropertyCalc.Rental_Income out) = Z.to_nat (loan_term p) /\
     length (PropertyCalc.Interest_Payment out) = Z.to_nat (loan_term p) /\
     length (PropertyCalc.Principal_Payment out) = Z.to_nat (loan_term p) /\
     length (PropertyCalc.Total_Expenses_Depreciation out) = Z.to_nat (loan_term p) /\
     length (PropertyCalc.Net_Rental_Loss out) = Z.to_nat (loan_term p) /\
     length (PropertyCalc.Tax_Benefit out) = Z.to_nat (loan_term p) /\
     length (PropertyCalc.Cashflow_after_Negative_Gearing out)
       = Z.to_nat (loan_term p) /\
     length (PropertyCalc.Capital_Gains out) = Z.to_nat (loan_term p) /\
     length (PropertyCalc.Final_Net_Gain_Loss out) = Z.to_nat (loan_term p)) /\
  (returns (calculate_mortgage_payment (loan_amount p) (interest_rate p)
              (loan_term p) (payment_frequency p)) ->
   (loan_term p < 0)%Z ->
   PropertyCalc.calculate_investment_outlook p = Ok empty_simple_outlook /\
   raises (TestPropertyCalc.calculate_investment_outlook p (loan_term p))).
Proof.
  split; [|split].
  - intros (e & He).
    unfold PropertyCalc.calculate_investment_outlook. rewrite He. cbn [bind].
    apply raises_Raise.
  - intros out H. destruct (simple_outlook_inv p out H) as (pay & _ & Hc).
    exact (simple_columns_lengths p pay out Hc).
  - intros (pay & Hpay) Hneg. split.
    + destruct (simple_outlook_returns p pay Hpay) as (out & Hout).
      destruct (simple_outlook_inv p out Hout) as (pay' & _ & Hc).
      pose proof (simple_columns_lengths p pay' out Hc) as
        (L1 & L2 & L3 & L4 & L5 & L6 & L7 & L8 & L9 & L10).
      replace (Z.to_nat (loan_term p)) with 0%nat in * by lia.
      rewrite Hout. f_equal. destruct out; cbn in *.
      apply length_zero_nil in L1, L2, L3, L4, L5, L6, L7, L8, L9, L10.
      subst. reflexivity.
    + apply general_raises_iff. right. exact Hneg.
Qed.

Lemma simple_projector_errors_and_shape_witness :
  PropertyCalc.calculate_investment_outlook sample_params_no_term
    = Ok empty_simple_outlook /\
  raises (TestPropertyCalc.calculate_investment_outlook sample_params_no_term
            (loan_term sample_params_no_term)).
Proof.
  destruct (simple_projector_errors_and_shape sample_params_no_term)
    as (_ & _ & H).
  apply H.
  - eexists. vm_compute. reflexivity.
  - reflexivity.
Defined.

(** * The schedule on binary64 *)

(** C3 as stated fails on the floats the code computes with. The valid loan
    (3, 0.1, 1 year, 1 payment a year) has one period, so its power is the
    base itself; its only record is not clamped and leaves a positive
    balance. The valid loan (1000, 1.0, 54 years, 1 payment a year) has the
    exact power [2^54], whose [- 1] is lost to rounding: the payment is the
    interest, nothing is ever repaid, and the balance after the 54th record
    is still 1000. *)
Lemma binary64_final_balance_not_zero :
  match Binary64.calculate_mortgage_payment (Binary64.of_int 3) Binary64.tenth 1 1 with
  | Ok payment =>
      let final := Binary64.amortization_final (Binary64.of_int 3) Binary64.tenth 1 1 payment in
      length (Binary64.payment_list final) = 1%nat /\
      PrimFloat.ltb (Binary64.of_int 0) (Binary64.balance final) = true
  | Raise _ => False
  end /\
  match Binary64.calculate_mortgage_payment (Binary64.of_int 1000) (Binary64.of_int 1) 54 1 with
  | Ok payment =>
      let final := Binary64.amortization_final (Binary64.of_int 1000) (Binary64.of_int 1) 54 1 payment in
      length (Binary64.payment_list final) = 54%nat /\
      PrimFloat.eqb (Binary64.balance final) (Binary64.of_int 1000) = true
  | Raise _ => False
  end.
Proof. vm_compute. repeat split; reflexivity. Qed.

(** C7 as stated fails on the floats the code computes with. The only
    record of the valid loan (3, 0.1, 1 year, 1 payment a year) is a full
    one (its payment is the regular payment, the balance stays positive),
    and its payment is not its interest plus its principal: the
    subtraction [payment - interest] has rounded. *)
Lemma binary64_payment_differs_from_split :
  match Binary64.calculate_mortgage_payment (Binary64.of_int 3) Binary64.tenth 1 1 with
  | Ok payment =>
      match Binary64.generate_amortization_schedule (Binary64.of_int 3) Binary64.tenth 1 1
              payment with
      | ([pay], [interest], [princ]) =>
          PrimFloat.eqb pay payment = true /\
          PrimFloat.ltb (Binary64.of_int 0)
            (Binary64.balance
               (Binary64.amortization_final (Binary64.of_int 3) Binary64.tenth 1 1 payment))
            = true /\
          PrimFloat.eqb pay (PrimFloat.add interest princ) = false /\
          PrimFloat.ltb (PrimFloat.add interest princ) pay = true
      | _ => False
      end
  | Raise _ => False
  end.
Proof. vm_compute. repeat split; reflexivity. Qed.
